(** * HireLens: step playback, layout and gesture overlay

    A shallow embedding of the playback and visualisation code of the
    repository, and the properties of it that the specification states.

    Sources embedded here (paths under [src/]):
    - [algovision-pro/App.tsx]: the AlgoVision playback controls
      ([handleRun], [onAlgoTypeChange], the auto-play timer, the prev/next
      buttons);
    - [unnamed/part_004], the teaching-mode application: the hologram engine
      ([handleHologramAnalyze], [hologramNextStep], [hologramPrevStep], the
      playback timer, the timeline scrubber), the hologram renderer
      ([renderNode], [handleWheel], the array branch, the readings of a tree
      in level order and as nested objects ([parseObjectTree]), the tree
      layout [calculatePositions], [getPathToNode], the graph layout), and
      [withRetry] with [parse429RetryDelayMs];
    - [algovision-pro/services/geminiService.ts] and its copy with retry,
      [unnamed/part_005]: [simulateCode] and [withRetry];
    - [unnamed/part_002], the grab-and-swap visualizer: [getBasePositions],
      pinch hysteresis, the hover search, grab, drag and release, frame by
      frame;
    - [algovision-pro/components/Visualizer.tsx], the slot-offset
      visualizer: array layout, pinch hysteresis and the drag of a slot.

    Cursor indices are JavaScript numbers holding integers: they are [Z].
    Coordinates are JavaScript numbers: they are binary64 floats ([float],
    the kernel's primitive floats), except in the layout formulas, which are
    stated over the rationals ([Q]) as identities of exact arithmetic. *)

From Stdlib Require Import ZArith List Bool String Ascii Lia Permutation Sorted.
From Stdlib Require Import Floats QArith Qminmax Lqa.
Import ListNotations.

Set Warnings "-inexact-float,-register-all".
Open Scope string_scope.

(* ===================================================================== *)
(** * Part I: the programs                                                *)
(* ===================================================================== *)

(** ** algovision-pro/App.tsx: playback state of the AlgoVision page *)

Module AlgoVision.
Section App.

Variable AnimationStep : Type.

(** The [useState] cells of [App] that playback reads and writes. *)
Record state : Type := mkState {
  steps : list AnimationStep;
  currentStepIdx : Z;
  isPlaying : bool;
  isLoading : bool
}.

(** [steps.length] *)
Definition stepsLength (s : state) : Z := Z.of_nat (List.length (steps s)).

(** What a handler writes besides the state. *)
Inductive effect : Type :=
| ConsoleError (label : string).

(** The promise returned by [simulateCode], once settled. *)
Inductive settled : Type :=
| Resolved (resultSteps : list AnimationStep)
| Rejected.

(** [handleRun], from the moment [simulateCode] settles:
<<
    try {
      const resultSteps = await simulateCode(code, language, algoType, inputVal);
      setSteps(resultSteps);
      setCurrentStepIdx(0);
      if (resultSteps.length > 0) setIsPlaying(true);
    } catch (err) {
      console.error("Simulation error:", err);
    } finally {
      setIsLoading(false);
    }
>> *)
Definition handleRun (s : state) (r : settled) : state * list effect :=
  match r with
  | Resolved resultSteps =>
      ({| steps := resultSteps;
          currentStepIdx := 0;
          isPlaying := if (0 <? Z.of_nat (List.length resultSteps))%Z
                       then true else isPlaying s;
          isLoading := false |}, [])
  | Rejected =>
      ({| steps := steps s;
          currentStepIdx := currentStepIdx s;
          isPlaying := isPlaying s;
          isLoading := false |}, [ConsoleError "Simulation error:"])
  end.

(** [onAlgoTypeChange]: [setSteps([]); setCurrentStepIdx(0);] *)
Definition onAlgoTypeChange (s : state) : state :=
  {| steps := []; currentStepIdx := 0;
     isPlaying := isPlaying s; isLoading := isLoading s |}.

(** The previous-step button:
    [setCurrentStepIdx(Math.max(0, currentStepIdx - 1)); setIsPlaying(false);] *)
Definition prevClick (s : state) : state :=
  {| steps := steps s;
     currentStepIdx := Z.max 0 (currentStepIdx s - 1);
     isPlaying := false;
     isLoading := isLoading s |}.

(** The next-step button:
    [setCurrentStepIdx(Math.min(steps.length - 1, currentStepIdx + 1)); setIsPlaying(false);] *)
Definition nextClick (s : state) : state :=
  {| steps := steps s;
     currentStepIdx := Z.min (stepsLength s - 1) (currentStepIdx s + 1);
     isPlaying := false;
     isLoading := isLoading s |}.

(** The play/pause button: [setIsPlaying(!isPlaying)] *)
Definition playPauseClick (s : state) : state :=
  {| steps := steps s; currentStepIdx := currentStepIdx s;
     isPlaying := negb (isPlaying s); isLoading := isLoading s |}.

(** One firing of the auto-play interval.  The interval exists only while
    [isPlaying && steps.length > 0]; its callback is
<<
    setCurrentStepIdx(prev => {
      if (prev >= steps.length - 1) { setIsPlaying(false); return prev; }
      return prev + 1;
    });
>> *)
Definition timerTick (s : state) : state :=
  if isPlaying s && (0 <? stepsLength s)%Z then
    if (currentStepIdx s >=? stepsLength s - 1)%Z then
      {| steps := steps s; currentStepIdx := currentStepIdx s;
         isPlaying := false; isLoading := isLoading s |}
    else
      {| steps := steps s; currentStepIdx := currentStepIdx s + 1;
         isPlaying := isPlaying s; isLoading := isLoading s |}
  else s.

(** The playback controls a user (or the clock) can fire. *)
Inductive control : Type := Next | Prev | PlayPause | Tick.

Definition fire (s : state) (c : control) : state :=
  match c with
  | Next => nextClick s
  | Prev => prevClick s
  | PlayPause => playPauseClick s
  | Tick => timerTick s
  end.

Definition run (s : state) (cs : list control) : state := fold_left fire cs s.

(** The cursor indexes a step of the loaded sequence. *)
Definition inRange (s : state) : Prop :=
  (0 <= currentStepIdx s <= stepsLength s - 1)%Z.

End App.

Arguments inRange {AnimationStep}.
Arguments mkState {AnimationStep}.
Arguments steps {AnimationStep}.
Arguments currentStepIdx {AnimationStep}.
Arguments isPlaying {AnimationStep}.
Arguments isLoading {AnimationStep}.
Arguments stepsLength {AnimationStep}.
Arguments Resolved {AnimationStep}.
Arguments Rejected {AnimationStep}.
Arguments handleRun {AnimationStep}.
Arguments onAlgoTypeChange {AnimationStep}.
Arguments prevClick {AnimationStep}.
Arguments nextClick {AnimationStep}.
Arguments playPauseClick {AnimationStep}.
Arguments timerTick {AnimationStep}.
Arguments fire {AnimationStep}.
Arguments run {AnimationStep}.

End AlgoVision.

(** ** unnamed/part_004: the hologram algorithm engine of the teaching page *)

Module Hologram.

(** [errorMsg.includes(needle)] *)
Fixpoint includes (needle hay : string) : bool :=
  String.prefix needle hay ||
  match hay with
  | EmptyString => false
  | String _ rest => includes needle rest
  end.

Section Engine.

Variable SimulationStep : Type.

(** [AlgorithmMetadata] (declared in a types file that is not among the
    sources), with the fields used here: the step sequence that playback
    walks, and the name and declared structure the renderer looks at. *)
Record AlgorithmMetadata : Type := mkMetadata {
  name : string;
  structure : string;
  steps : list SimulationStep
}.

Record state : Type := mkState {
  algoMetadata : option AlgorithmMetadata;
  currentStepIndex : Z;
  isHologramPlaying : bool;
  isHologramLoading : bool;
  playbackSpeed : Z
}.

(** The three [alert] dialogs of [handleHologramAnalyze]. *)
Inductive alert : Type :=
| ServiceUnavailable
| RateLimitExceeded
| AnalysisFailed (errorMsg : string).

Inductive effect : Type :=
| ConsoleError (label : string)
| Alert (a : alert).

(** The promise returned by [analyzeAlgorithm], once settled; a rejection
    carries the error's message. *)
Inductive settled : Type :=
| Resolved (result : AlgorithmMetadata)
| Rejected (errorMsg : string).

(** [handleHologramAnalyze], from the moment [analyzeAlgorithm] settles:
<<
    try {
      const result = await analyzeAlgorithm(hologramCode, hologramInputData);
      setAlgoMetadata(result);
      setCurrentStepIndex(0);
      setIsHologramPlaying(true); // Auto-start playback after analysis
    } catch (error) {
      console.error("Analysis failed:", error);
      ... alert(...) ...
    } finally {
      setIsHologramLoading(false);
    }
>> *)
Definition handleHologramAnalyze (s : state) (r : settled)
  : state * list effect :=
  match r with
  | Resolved result =>
      ({| algoMetadata := Some result;
          currentStepIndex := 0;
          isHologramPlaying := true;
          isHologramLoading := false;
          playbackSpeed := playbackSpeed s |}, [])
  | Rejected errorMsg =>
      ({| algoMetadata := algoMetadata s;
          currentStepIndex := currentStepIndex s;
          isHologramPlaying := isHologramPlaying s;
          isHologramLoading := false;
          playbackSpeed := playbackSpeed s |},
       [ConsoleError "Analysis failed:";
        Alert (if includes "503" errorMsg || includes "overloaded" errorMsg
                  || includes "UNAVAILABLE" errorMsg
               then ServiceUnavailable
               else if includes "429" errorMsg || includes "rate limit" errorMsg
               then RateLimitExceeded
               else AnalysisFailed errorMsg)])
  end.

Definition withIndex (s : state) (i : Z) : state :=
  {| algoMetadata := algoMetadata s;
     currentStepIndex := i;
     isHologramPlaying := isHologramPlaying s;
     isHologramLoading := isHologramLoading s;
     playbackSpeed := playbackSpeed s |}.

Definition withPlaying (s : state) (b : bool) : state :=
  {| algoMetadata := algoMetadata s;
     currentStepIndex := currentStepIndex s;
     isHologramPlaying := b;
     isHologramLoading := isHologramLoading s;
     playbackSpeed := playbackSpeed s |}.

(** [algoMetadata.steps.length] *)
Definition stepsLength (m : AlgorithmMetadata) : Z :=
  Z.of_nat (List.length (steps m)).

(** [hologramNextStep]:
<<
    if (!algoMetadata) return;
    setCurrentStepIndex((prev) => (prev < algoMetadata.steps.length - 1 ? prev + 1 : prev));
>> *)
Definition hologramNextStep (s : state) : state :=
  match algoMetadata s with
  | None => s
  | Some m =>
      withIndex s (if (currentStepIndex s <? stepsLength m - 1)%Z
                   then currentStepIndex s + 1 else currentStepIndex s)
  end.

(** [hologramPrevStep]:
    [setCurrentStepIndex((prev) => (prev > 0 ? prev - 1 : 0));] *)
Definition hologramPrevStep (s : state) : state :=
  withIndex s (if (currentStepIndex s >? 0)%Z
               then currentStepIndex s - 1 else 0).

(** One firing of the playback interval, which exists only while
    [isHologramPlaying && algoMetadata]:
<<
    setCurrentStepIndex((prev) => {
      if (prev < algoMetadata.steps.length - 1) { return prev + 1; }
      else { setIsHologramPlaying(false); return prev; }
    });
>> *)
Definition timerTick (s : state) : state :=
  match algoMetadata s with
  | Some m =>
      if isHologramPlaying s then
        if (currentStepIndex s <? stepsLength m - 1)%Z
        then withIndex s (currentStepIndex s + 1)
        else withPlaying s false
      else s
  | None => s
  end.

(** [totalSteps={algoMetadata?.steps.length || 0}] *)
Definition totalSteps (s : state) : Z :=
  match algoMetadata s with
  | Some m => stepsLength m
  | None => 0
  end.

(** The scrubber is [<input type="range" min={0} max={totalSteps ? totalSteps - 1 : 0}>]:
    the values it can report. *)
Definition sliderMax (s : state) : Z :=
  if (totalSteps s =? 0)%Z then 0 else totalSteps s - 1.

Definition sliderOffers (s : state) (i : Z) : Prop :=
  (0 <= i <= sliderMax s)%Z.

(** [onSeek={setCurrentStepIndex}] *)
Definition onSeek (s : state) (i : Z) : state := withIndex s i.

(** [onPlayPause={() => setIsHologramPlaying(!isHologramPlaying)}] *)
Definition onPlayPause (s : state) : state :=
  withPlaying s (negb (isHologramPlaying s)).

(** [onManualAction={() => setIsHologramPlaying(false)}] (dragging the canvas) *)
Definition onManualAction (s : state) : state := withPlaying s false.

Inductive control : Type := Next | Prev | PlayPause | Tick.

Definition fire (s : state) (c : control) : state :=
  match c with
  | Next => hologramNextStep s
  | Prev => hologramPrevStep s
  | PlayPause => onPlayPause s
  | Tick => timerTick s
  end.

Definition run (s : state) (cs : list control) : state := fold_left fire cs s.

(** The sequence of [m] is loaded and the cursor indexes one of its steps. *)
Definition inRange (m : AlgorithmMetadata) (s : state) : Prop :=
  algoMetadata s = Some m
  /\ (0 <= currentStepIndex s <= stepsLength m - 1)%Z.

End Engine.

Arguments inRange {SimulationStep}.

Arguments mkMetadata {SimulationStep}.
Arguments name {SimulationStep}.
Arguments structure {SimulationStep}.
Arguments steps {SimulationStep}.
Arguments mkState {SimulationStep}.
Arguments algoMetadata {SimulationStep}.
Arguments currentStepIndex {SimulationStep}.
Arguments isHologramPlaying {SimulationStep}.
Arguments isHologramLoading {SimulationStep}.
Arguments playbackSpeed {SimulationStep}.
Arguments Resolved {SimulationStep}.
Arguments Rejected {SimulationStep}.
Arguments handleHologramAnalyze {SimulationStep}.
Arguments withIndex {SimulationStep}.
Arguments withPlaying {SimulationStep}.
Arguments stepsLength {SimulationStep}.
Arguments hologramNextStep {SimulationStep}.
Arguments hologramPrevStep {SimulationStep}.
Arguments timerTick {SimulationStep}.
Arguments totalSteps {SimulationStep}.
Arguments sliderMax {SimulationStep}.
Arguments sliderOffers {SimulationStep}.
Arguments onSeek {SimulationStep}.
Arguments onPlayPause {SimulationStep}.
Arguments onManualAction {SimulationStep}.
Arguments fire {SimulationStep}.
Arguments run {SimulationStep}.

End Hologram.

(** ** JavaScript values as the analysis response carries them *)

Module Js.

(** A value decoded from JSON, or [undefined] (a missing property). *)
Inductive value : Type :=
| Undefined
| Null
| Bool (b : bool)
| Num (n : float)
| Str (s : string)
| Arr (items : list value)
| Obj (fields : list (string * value)).

(** A computation that returns or throws. *)
Inductive completion (A : Type) : Type :=
| Return (a : A)
| Throw (error : string).
Arguments Return {A}.
Arguments Throw {A}.

Definition bind {A B : Type} (c : completion A) (k : A -> completion B)
  : completion B :=
  match c with
  | Return a => k a
  | Throw e => Throw e
  end.

(** [try { c } catch { handler }] *)
Definition tryCatch {A : Type} (c : completion A) (handler : completion A)
  : completion A :=
  match c with
  | Return a => Return a
  | Throw _ => handler
  end.

Notation "x <- c ;; k" := (bind c (fun x => k))
  (at level 61, c at next level, right associativity).

Fixpoint lookup (k : string) (fields : list (string * value)) : value :=
  match fields with
  | [] => Undefined
  | (k', v) :: rest => if String.eqb k k' then v else lookup k rest
  end.

(** [{...fields, [k]: v}]: an existing key keeps its place, a new one is
    appended. *)
Fixpoint assign (k : string) (v : value) (fields : list (string * value))
  : list (string * value) :=
  match fields with
  | [] => [(k, v)]
  | (k', v') :: rest =>
      if String.eqb k k' then (k, v) :: rest else (k', v') :: assign k v rest
  end.

(** [o.k] for a property name [k] that is neither an index nor [length]:
    reading it off [undefined] or [null] throws a TypeError; primitives,
    strings and arrays have no such property. *)
Definition get (o : value) (k : string) : completion value :=
  match o with
  | Undefined | Null => Throw "TypeError"
  | Obj fields => Return (lookup k fields)
  | _ => Return Undefined
  end.

(** The condition of [v ? a : b]. *)
Definition truthy (v : value) : bool :=
  match v with
  | Undefined | Null => false
  | Bool b => b
  | Num n => negb (PrimFloat.eqb n 0 || PrimFloat.is_nan n)
  | Str s => negb (String.eqb s "")
  | Arr _ | Obj _ => true
  end.

(** Decimal numeral of an index, for the keys of a spread array or string. *)
Fixpoint digits (fuel n : nat) (acc : string) : string :=
  match fuel with
  | O => acc
  | S fuel' =>
      let acc' := String (ascii_of_nat (48 + Nat.modulo n 10)) acc in
      match Nat.div n 10 with
      | O => acc'
      | q => digits fuel' q acc'
      end
  end.

Definition indexKey (n : nat) : string := digits (S n) n "".

Fixpoint indexed {A : Type} (i : nat) (f : A -> value) (l : list A)
  : list (string * value) :=
  match l with
  | [] => []
  | a :: rest => (indexKey i, f a) :: indexed (S i) f rest
  end.

(** The own enumerable properties copied by [{...v}]. *)
Definition spread (v : value) : list (string * value) :=
  match v with
  | Obj fields => fields
  | Arr items => indexed 0 (fun x => x) items
  | Str s => indexed 0 (fun c => Str (String c EmptyString)) (list_ascii_of_string s)
  | _ => []
  end.

Section ToString.

(** [Number.prototype.toString], a built-in. *)
Variable numberToString : float -> string.

(** [String(v)], the coercion [JSON.parse] applies to its argument. *)
Fixpoint toString (v : value) : string :=
  match v with
  | Undefined => "undefined"
  | Null => "null"
  | Bool true => "true"
  | Bool false => "false"
  | Num n => numberToString n
  | Str s => s
  | Arr items =>
      (fix join (l : list value) : string :=
         match l with
         | [] => ""
         | [x] => match x with Undefined | Null => "" | _ => toString x end
         | x :: rest =>
             (match x with Undefined | Null => "" | _ => toString x end)
               ++ "," ++ join rest
         end) items
  | Obj _ => "[object Object]"
  end.

End ToString.

End Js.

(** ** services/geminiService.ts (and unnamed/part_005): [simulateCode] *)

Module GeminiService.
Import Js.

Section SimulateCode.

(** [JSON.parse] on a string: [None] is a thrown SyntaxError. *)
Variable JSON_parse : string -> option value.
Variable numberToString : float -> string.

(** [JSON.parse(v)] *)
Definition parse (v : value) : completion value :=
  match JSON_parse (toString numberToString v) with
  | Some r => Return r
  | None => Throw "SyntaxError"
  end.

(** [s.viz.data] and [s.viz.pointers] *)
Definition vizField (s : value) (k : string) : completion value :=
  viz <- get s "viz" ;; get viz k.

(** The callback of [rawSteps.map].  [typeTag] is [Some type] in
    [algovision-pro/services/geminiService.ts], which adds [type: type] to
    [viz], and [None] in the variant with retry, which does not:
<<
    let parsedData;
    try { parsedData = JSON.parse(s.viz.data); }
    catch { parsedData = s.viz.data; }
    let parsedPointers = {};
    try { parsedPointers = s.viz.pointers ? JSON.parse(s.viz.pointers) : {}; }
    catch { parsedPointers = {}; }
    return { ...s, viz: { ...s.viz, data: parsedData, pointers: parsedPointers } };
>> *)
Definition processStep (typeTag : option string) (s : value)
  : completion value :=
  parsedData <-
    tryCatch (d <- vizField s "data" ;; parse d) (vizField s "data") ;;
  parsedPointers <-
    tryCatch (p <- vizField s "pointers" ;;
              if truthy p then parse p else Return (Obj []))
             (Return (Obj [])) ;;
  viz <- get s "viz" ;;
  let viz0 := match typeTag with
              | Some t => assign "type" (Str t) (spread viz)
              | None => spread viz
              end in
  Return (Obj (assign "viz"
                 (Obj (assign "pointers" parsedPointers
                         (assign "data" parsedData viz0)))
                 (spread s))).

(** [rawSteps.map(f)] for an array *)
Fixpoint mapSteps (f : value -> completion value) (l : list value)
  : completion (list value) :=
  match l with
  | [] => Return []
  | s :: rest =>
      r <- f s ;;
      rs <- mapSteps f rest ;;
      Return (r :: rs)
  end.

(** The body of the outer [try]: [JSON.parse(response.text)] then
    [rawSteps.map(...)]; [map] is a function only on arrays. *)
Definition parseSteps (typeTag : option string) (text : string)
  : completion (list value) :=
  match JSON_parse text with
  | None => Throw "SyntaxError"
  | Some (Arr rawSteps) => mapSteps (processStep typeTag) rawSteps
  | Some _ => Throw "TypeError"
  end.

(** What [await ai.models.generateContent(...)] gives: a response whose
    [text] is a string, a response that has no text ([response.text] is
    [undefined]: the getter finds no text part, as in a response without
    candidates), or a rejection (after the retries, in the variant that
    retries). *)
Inductive response : Type :=
| ResponseText (text : string)
| ResponseNoText
| RequestFailed.

(** [response.text] *)
Definition textOf (r : response) : value :=
  match r with
  | ResponseText text => Str text
  | ResponseNoText | RequestFailed => Undefined
  end.

(** The [try] statement that ends both copies; [JSON.parse] turns its
    argument into a string first:
<<
    try { const rawSteps = JSON.parse(response.text); return rawSteps.map(...); }
    catch (e) { console.error("Failed to parse Gemini response", e); return []; }
>> *)
Definition parseOrEmpty (typeTag : option string) (text : value)
  : AlgoVision.settled value * list AlgoVision.effect :=
  match parseSteps typeTag (toString numberToString text) with
  | Return processedSteps => (AlgoVision.Resolved processedSteps, [])
  | Throw _ =>
      (AlgoVision.Resolved [],
       [AlgoVision.ConsoleError "Failed to parse Gemini response"])
  end.

(** [simulateCode].  In [unnamed/part_005] the [try] statement follows the
    request at once.  In [algovision-pro/services/geminiService.ts] a line
    stands between the two, outside the [try]:
<<
    const response = await ai.models.generateContent({...});
    console.log("Gemini response received:", response.text.substring(0, 200));
    try { ... } catch (e) { ...; return []; }
>>
    so that reading [substring] off a missing text throws a TypeError which
    nothing catches, and the promise is rejected. *)
Definition simulateCode (typeTag : option string) (r : response)
  : AlgoVision.settled value * list AlgoVision.effect :=
  match r with
  | RequestFailed => (AlgoVision.Rejected, [])
  | _ =>
      match typeTag, textOf r with
      | Some _, Undefined => (AlgoVision.Rejected, [])
      | _, text => parseOrEmpty typeTag text
      end
  end.


End SimulateCode.

End GeminiService.

(** ** JavaScript's [Math] and [Number] on binary64 floats *)

Module JsMath.
Local Open Scope float_scope.

(** [Number.isFinite(x)] *)
Definition isFinite (x : float) : bool := PrimFloat.is_finite x.

(** [Math.sqrt] *)
Definition sqrt (x : float) : float := PrimFloat.sqrt x.

(** [Math.pow(x, 2)] *)
Definition square (x : float) : float := x * x.

(** [Math.pow(b, k)] for a natural number [k], by repeated multiplication
    (exact while the power stays below 2^53). *)
Fixpoint powNat (b : float) (k : nat) : float :=
  match k with
  | O => 1
  | S k' => b * powNat b k'
  end.

(** [Math.max(a, b)] and [Math.min(a, b)], up to the sign of a zero result. *)
Definition max (a b : float) : float :=
  if PrimFloat.is_nan a || PrimFloat.is_nan b then nan
  else if a <? b then b else a.

Definition min (a b : float) : float :=
  if PrimFloat.is_nan a || PrimFloat.is_nan b then nan
  else if b <? a then b else a.

(** [Math.max(...xs)] and [Math.min(...xs)]: with no argument they are
    [-Infinity] and [Infinity]. *)
Definition maxOf (xs : list float) : float := fold_left max xs neg_infinity.
Definition minOf (xs : list float) : float := fold_left min xs infinity.

(** A length or an index as a number. *)
Definition ofNat (n : nat) : float :=
  PrimFloat.of_uint63 (Uint63.of_Z (Z.of_nat n)).

(** [Math.PI] *)
Definition PI : float := 3.141592653589793.

End JsMath.

(** ** unnamed/part_002: the grab-and-swap visualizer (hand tracking, array
       and string data) *)

Module GrabVisualizer.
Local Open Scope float_scope.

Record point : Type := mkPoint { x : float; y : float }.

(** [elementPositions]: a JavaScript object keyed by [item-i]; [forEach] over
    [Object.entries] visits the keys in insertion order. *)
Definition positions : Type := list (string * point).

Fixpoint lookup (id : string) (ps : positions) : option point :=
  match ps with
  | [] => None
  | (k, p) :: rest => if String.eqb id k then Some p else lookup id rest
  end.

(** [{...prev, [id]: p}] *)
Fixpoint assign (id : string) (p : point) (ps : positions) : positions :=
  match ps with
  | [] => [(id, p)]
  | (k, q) :: rest =>
      if String.eqb id k then (id, p) :: rest else (k, q) :: assign id p rest
  end.

Definition blockW : float := 90.
Definition blockH : float := 90.
Definition gap : float := 35.

Definition pinchOn : float := 0.06.
Definition pinchOff : float := 0.09.
Definition smoothingFactor : float := 0.4.

(** [elementPositions] as an updater can leave it: what stands under an id
    is a position, or [null]. *)
Definition entries : Type := list (string * option point).

Fixpoint lookupEntry (id : string) (es : entries) : option (option point) :=
  match es with
  | [] => None
  | (k, e) :: rest => if String.eqb id k then Some e else lookupEntry id rest
  end.

(** [{...prev, [id]: e}] *)
Fixpoint assignEntry (id : string) (e : option point) (es : entries)
  : entries :=
  match es with
  | [] => [(id, e)]
  | (k, q) :: rest =>
      if String.eqb id k then (id, e) :: rest
      else (k, q) :: assignEntry id e rest
  end.

(** Entries that all hold a position. *)
Definition placed (ps : positions) : entries :=
  map (fun entry => (fst entry, Some (snd entry))) ps.

(** [Object.entries(elementPositions)] as the searches of the effect read
    it: [forEach(([id, pos]) => { const centerX = pos.x + blockW / 2; ... })]
    reads [pos.x] off every entry, and reading a property off [null] throws
    a TypeError. *)
Fixpoint readEntries (es : entries) : Js.completion positions :=
  match es with
  | [] => Js.Return []
  | (id, Some pos) :: rest =>
      Js.bind (readEntries rest) (fun ps => Js.Return ((id, pos) :: ps))
  | (_, None) :: _ => Js.Throw "TypeError"
  end.

(** The refs of the component, and the [elementPositions] state. *)
Record model : Type := mkModel {
  elementPositions : entries;
  grabbedIdRef : option string;
  grabbedStartPosRef : option point;
  hoveredIdRef : option string;
  isPinchingRef : bool;
  wasPinchingRef : bool;
  currentHandPosRef : option point
}.

(** [const isPinching = isPinchingRef.current ? dist < pinchOff : dist < pinchOn;] *)
Definition nextPinching (pinching : bool) (dist : float) : bool :=
  if pinching then dist <? pinchOff else dist <? pinchOn.

(** Distance between the centers of two blocks given by their corners:
<<
    Math.sqrt(Math.pow(grabbedCenterX - centerX, 2) + Math.pow(grabbedCenterY - centerY, 2))
>> *)
Definition distBetween (grabbedPos pos : point) : float :=
  let centerX := x pos + blockW / 2 in
  let centerY := y pos + blockH / 2 in
  let grabbedCenterX := x grabbedPos + blockW / 2 in
  let grabbedCenterY := y grabbedPos + blockH / 2 in
  JsMath.sqrt (JsMath.square (grabbedCenterX - centerX)
               + JsMath.square (grabbedCenterY - centerY)).

(** [(blockW + gap) * 1.2] *)
Definition swapRadius : float := (blockW + gap) * 1.2.

(** The [forEach] that looks for [swapTarget]; the accumulator is
    [(swapTarget, minDist)], initially [(null, Infinity)]:
<<
    if (id === grabbedId) return;
    ...
    if (distBetween < (blockW + gap) * 1.2 && distBetween < minDist) {
      minDist = distBetween; swapTarget = id;
    }
>> *)
Definition considerSwap (grabbedId : string) (grabbedPos : point)
  (acc : option string * float) (entry : string * point)
  : option string * float :=
  let '(id, pos) := entry in
  if String.eqb id grabbedId then acc
  else
    let d := distBetween grabbedPos pos in
    if (d <? swapRadius) && (d <? snd acc) then (Some id, d) else acc.

Definition findSwapTarget (grabbedId : string) (grabbedPos : point)
  (ps : positions) : option string * float :=
  fold_left (considerSwap grabbedId grabbedPos) ps (None, infinity).

(** [pos] is within the swap radius of the grabbed block. *)
Definition within (grabbedPos pos : point) : bool :=
  distBetween grabbedPos pos <? swapRadius.

(** What the search holds after the entries [seen]: nothing, when no other
    block among them is within the radius; otherwise the nearest of those
    that are, and its distance. *)
Definition found (grabbedId : string) (grabbedPos : point)
  (seen : positions) (acc : option string * float) : Prop :=
  (acc = (None, infinity)
   /\ forall id p, In (id, p) seen -> id <> grabbedId ->
        within grabbedPos p = false)
  \/
  (exists t tp,
      acc = (Some t, distBetween grabbedPos tp)
      /\ In (t, tp) seen /\ t <> grabbedId /\ within grabbedPos tp = true
      /\ forall id p, In (id, p) seen -> id <> grabbedId ->
           within grabbedPos p = true ->
           (distBetween grabbedPos p <? distBetween grabbedPos tp) = false).

(** The hover search; the accumulator is [(foundHover, closestDist)]. *)
Definition considerHover (handX handY : float)
  (acc : option string * float) (entry : string * point)
  : option string * float :=
  let '(id, pos) := entry in
  let centerX := x pos + blockW / 2 in
  let centerY := y pos + blockH / 2 in
  let distToCenter :=
    JsMath.sqrt (JsMath.square (handX - centerX)
                 + JsMath.square (handY - centerY)) in
  if (x pos <=? handX) && (handX <=? x pos + blockW)
     && (y pos <=? handY) && (handY <=? y pos + blockH)
  then (if distToCenter <? snd acc then (Some id, distToCenter) else acc)
  else if distToCenter <? 60
  then (if distToCenter <? snd acc then (Some id, distToCenter) else acc)
  else acc.

Definition findHover (handX handY : float) (ps : positions) : option string :=
  fst (fold_left (considerHover handX handY) ps (None, infinity)).

(** The functions the effect passes to [setElementPositions]:
<<
    prev => ({ ...prev, [grabbedIdRef.current!]: { x: handX - blockW / 2, y: handY - blockH / 2 } })
    prev => ({ ...prev, [grabbedId]: targetPos, [swapTarget!]: originalPos })
    prev => ({ ...prev, [grabbedId]: grabbedStartPosRef.current! })
>>
    [grabbedId], [targetPos] and [originalPos] are [const]s of the effect,
    copied when the function is made.  [grabbedIdRef.current] and
    [grabbedStartPosRef.current] are read when the function is called. *)
Inductive updater : Type :=
| Drag (pos : point)
| Swap (grabbedId : string) (targetPos : point) (swapTarget : string)
       (originalPos : point)
| Revert (grabbedId : string).

(** The call of an updater on [prev], the refs being [grabbedIdNow] and
    [startPosNow] at the time of the call ([null] as a computed key is the
    key ["null"]). *)
Definition applyUpdater (grabbedIdNow : option string)
  (startPosNow : option point) (u : updater) (prev : entries) : entries :=
  match u with
  | Drag pos =>
      assignEntry (match grabbedIdNow with
                   | Some id => id
                   | None => "null"
                   end) (Some pos) prev
  | Swap grabbedId targetPos swapTarget originalPos =>
      assignEntry swapTarget (Some originalPos)
        (assignEntry grabbedId (Some targetPos) prev)
  | Revert grabbedId => assignEntry grabbedId startPosNow prev
  end.

(** The release branch, entered when
    [!isPinching && wasPinchingRef.current && grabbedIdRef.current]: the
    updater it passes to [setElementPositions], if any.
<<
    const grabbedId = grabbedIdRef.current;
    const grabbedPos = elementPositions[grabbedId];
    let swapTarget = null; let minDist = Infinity;
    Object.entries(elementPositions).forEach(([id, pos]) => { ... });
    if (swapTarget && grabbedStartPosRef.current) {
      const targetPos = { ...elementPositions[swapTarget] };
      const originalPos = grabbedStartPosRef.current;
      setElementPositions(prev => ({ ...prev, [grabbedId]: targetPos, [swapTarget!]: originalPos }));
    } else {
      // No swap target - return to original position
      if (grabbedStartPosRef.current) {
        setElementPositions(prev => ({ ...prev, [grabbedId]: grabbedStartPosRef.current! }));
      }
    }
>>
    Without an entry for [grabbedId], [grabbedPos] is [undefined] and the
    search throws at the first entry it looks at.  The target was read off
    the entries, so it has one. *)
Definition release (grabbedId : string) (startPos : option point)
  (ps : positions) : Js.completion (option updater) :=
  Js.bind
    (match lookup grabbedId ps with
     | Some grabbedPos =>
         Js.Return (fst (findSwapTarget grabbedId grabbedPos ps))
     | None =>
         match ps with
         | [] => Js.Return None
         | _ :: _ => Js.Throw "TypeError"
         end
     end)
    (fun swapTarget =>
       Js.Return
         match swapTarget, startPos with
         | Some target, Some originalPos =>
             match lookup target ps with
             | Some targetPos =>
                 Some (Swap grabbedId targetPos target originalPos)
             | None => None
             end
         | _, Some _ => Some (Revert grabbedId)
         | _, None => None
         end).

(** A landmark of the hand, normalised to the unit square. *)
Record landmark : Type := mkLandmark { lx : float; ly : float }.

(** [Math.sqrt(Math.pow(thumb.x - index.x, 2) + Math.pow(thumb.y - index.y, 2))] *)
Definition pinchDistance (thumb index : landmark) : float :=
  JsMath.sqrt (JsMath.square (lx thumb - lx index)
               + JsMath.square (ly thumb - ly index)).

(** One run of the hand-tracking effect with a hand in view ([thumb] is
    [landmarks[4]], [index] is [landmarks[8]]), on a canvas of the given
    size: the refs as the run leaves them, and the updater it has passed to
    [setElementPositions], if any (the drag and the release exclude each
    other).  [elementPositions] is a [const] of the render: the run reads
    it and does not change it. *)
Definition onHand (width height : float) (thumb index : landmark) (m : model)
  : Js.completion (model * option updater) :=
  let dist := pinchDistance thumb index in
  let isPinching := nextPinching (isPinchingRef m) dist in
  let rawX := (1 - (lx index * 0.8 + lx thumb * 0.2)) * width in
  let rawY := (ly index * 0.8 + ly thumb * 0.2) * height in
  let prev := match currentHandPosRef m with
              | Some p => p
              | None => mkPoint rawX rawY
              end in
  let handX := x prev + (rawX - x prev) * smoothingFactor in
  let handY := y prev + (rawY - y prev) * smoothingFactor in
  (* the hover search reads every entry *)
  Js.bind (readEntries (elementPositions m)) (fun ps =>
  let foundHover := findHover handX handY ps in
  (* pinch start: grab the hovered element *)
  let '(grabbed, startPos) :=
    if isPinching && negb (wasPinchingRef m) then
      match foundHover with
      | Some h =>
          match lookup h ps with
          | Some p => (Some h, Some p)
          | None => (grabbedIdRef m, grabbedStartPosRef m)
          end
      | None => (grabbedIdRef m, grabbedStartPosRef m)
      end
    else (grabbedIdRef m, grabbedStartPosRef m) in
  (* pinch hold: drag *)
  let dragged :=
    match grabbed with
    | Some _ =>
        if isPinching
        then Some (Drag (mkPoint (handX - blockW / 2) (handY - blockH / 2)))
        else None
    | None => None
    end in
  (* pinch release: swap or revert, then forget the grab *)
  let releasing :=
    match grabbed with
    | Some g => if negb isPinching && wasPinchingRef m then Some g else None
    | None => None
    end in
  match releasing with
  | Some g =>
      Js.bind (release g startPos ps) (fun released =>
      Js.Return
        ({| elementPositions := elementPositions m;
            grabbedIdRef := None;
            grabbedStartPosRef := None;
            hoveredIdRef := foundHover;
            isPinchingRef := isPinching;
            wasPinchingRef := isPinching;
            currentHandPosRef := Some (mkPoint handX handY) |},
         released))
  | None =>
      Js.Return
        ({| elementPositions := elementPositions m;
            grabbedIdRef := grabbed;
            grabbedStartPosRef := startPos;
            hoveredIdRef := foundHover;
            isPinchingRef := isPinching;
            wasPinchingRef := isPinching;
            currentHandPosRef := Some (mkPoint handX handY) |},
         dragged)
  end).

(** The run of the effect with no hand in view: every ref is reset, and
    for an active grab an updater is passed to [setElementPositions]:
<<
    // If was grabbing, return to original position
    if (grabbedIdRef.current && grabbedStartPosRef.current) {
      const grabbedId = grabbedIdRef.current;
      setElementPositions(prev => ({ ...prev, [grabbedId]: grabbedStartPosRef.current! }));
    }
    grabbedIdRef.current = null;
    grabbedStartPosRef.current = null;
    ...
>> *)
Definition onNoHand (m : model) : model * option updater :=
  ({| elementPositions := elementPositions m;
      grabbedIdRef := None;
      grabbedStartPosRef := None;
      hoveredIdRef := None;
      isPinchingRef := false;
      wasPinchingRef := false;
      currentHandPosRef := None |},
   match grabbedIdRef m, grabbedStartPosRef m with
   | Some grabbedId, Some _ => Some (Revert grabbedId)
   | _, _ => None
   end).

(** The render that follows a run of the effect: React calls the updater
    the run has passed to [setElementPositions] on the state, and the
    result is the next [elementPositions].  The run has returned by then,
    so the refs are as it left them.  (React calls an updater sooner, from
    within [setElementPositions], only when the component has no update
    pending and none just rendered; a grabbed block is moved by an update
    in every run of the effect, so the updaters of a release and of a lost
    hand are not called sooner.) *)
Definition render (ran : model * option updater) : model :=
  let '(m, queued) := ran in
  match queued with
  | None => m
  | Some u =>
      {| elementPositions :=
           applyUpdater (grabbedIdRef m) (grabbedStartPosRef m) u
             (elementPositions m);
         grabbedIdRef := grabbedIdRef m;
         grabbedStartPosRef := grabbedStartPosRef m;
         hoveredIdRef := hoveredIdRef m;
         isPinchingRef := isPinchingRef m;
         wasPinchingRef := wasPinchingRef m;
         currentHandPosRef := currentHandPosRef m |}
  end.

(** The pinch state over the frames of a hand in view, given the
    thumb-to-index distance of each frame. *)
Fixpoint pinchTrace (pinching : bool) (dists : list float) : list bool :=
  match dists with
  | [] => []
  | d :: rest =>
      let p := nextPinching pinching d in
      p :: pinchTrace p rest
  end.

End GrabVisualizer.

(** ** algovision-pro/components/Visualizer.tsx: the slot-offset visualizer *)

Module SlotVisualizer.
Local Open Scope float_scope.

Definition pinchOn : float := 0.055.
Definition pinchOff : float := 0.075.

(** [const isPinching = isPinchingRef.current ? dist < pinchOff : dist < pinchOn;] *)
Definition nextPinching (pinching : bool) (dist : float) : bool :=
  if pinching then dist <? pinchOff else dist <? pinchOn.

Fixpoint pinchTrace (pinching : bool) (dists : list float) : list bool :=
  match dists with
  | [] => []
  | d :: rest =>
      let p := nextPinching pinching d in
      p :: pinchTrace p rest
  end.

End SlotVisualizer.

(** ** Where the rows of blocks are put, in exact arithmetic

    The three places that lay out an array or a string.  Numbers are
    rationals here: the formulas are those of the source, their value is the
    one the binary64 evaluation approximates. *)

Module RowLayout.
Local Open Scope Q_scope.

Definition ofNat (n : nat) : Q := inject_Z (Z.of_nat n).

(** *** The hologram renderer, array branch
<<
    const spacing = 90;
    const arrStartX = -(Math.max(data.length - 1, 0) * spacing / 2);
    ... renderNode(val, idx, arrStartX + idx * spacing, 0, ...)
>> *)
Definition spacing : Q := 90.

Definition arrStartX (dataLength : nat) : Q :=
  - (Qmax (ofNat dataLength - 1) 0 * spacing / 2).

Definition arrayX (dataLength idx : nat) : Q :=
  arrStartX dataLength + ofNat idx * spacing.

(** *** The grab-and-swap visualizer: [getBasePositions]
<<
    const totalWidth = dataLength * (blockW + gap) - gap;
    const startX = Math.max(width * 0.42, (width - totalWidth) / 2);
    ... x: startX + i * (blockW + gap)
>> *)
Module Grab.

Definition blockW : Q := 90.
Definition gap : Q := 35.

Definition totalWidth (dataLength : nat) : Q :=
  ofNat dataLength * (blockW + gap) - gap.

(** The start that would center the row in the canvas. *)
Definition centeredStart (dataLength : nat) (width : Q) : Q :=
  (width - totalWidth dataLength) / 2.

Definition startX (dataLength : nat) (width : Q) : Q :=
  Qmax (width * 0.42) (centeredStart dataLength width).

Definition baseX (dataLength : nat) (width : Q) (i : nat) : Q :=
  startX dataLength width + ofNat i * (blockW + gap).

End Grab.

(** *** The slot-offset visualizer
<<
    const totalWidth = data.length * (blockW + gap) - gap;
    // Adjusted start position to stay clear of the editor
    const startX = Math.max(width * 0.45, (width * 0.4) + (width * 0.55 - totalWidth) / 2);
    ... translate(startX + i * (blockW + gap) + off.dx, ...)
>> *)
Module Slot.

Definition blockW : Q := 60.
Definition gap : Q := 14.

Definition totalWidth (dataLength : nat) : Q :=
  ofNat dataLength * (blockW + gap) - gap.

Definition centeredStart (dataLength : nat) (width : Q) : Q :=
  (width * 0.4) + (width * 0.55 - totalWidth dataLength) / 2.

Definition startX (dataLength : nat) (width : Q) : Q :=
  Qmax (width * 0.45) (centeredStart dataLength width).

Definition baseX (dataLength : nat) (width : Q) (i : nat) : Q :=
  startX dataLength width + ofNat i * (blockW + gap).

End Slot.

End RowLayout.

(** ** unnamed/part_004: the hologram renderer ([renderNode], the tree
       layout, the graph layout) *)

Module HologramRenderer.
Local Open Scope float_scope.

(** *** [renderNode]
<<
    // Sanitize coordinates to prevent "Infinity" errors
    const safeX = Number.isFinite(x) ? x : 0;
    const safeY = Number.isFinite(y) ? y : 0;
    ... style={{ left: safeX, top: safeY, ... }}
>> *)
Definition safe (c : float) : float := if JsMath.isFinite c then c else 0.

(** The [left] and [top] of an absolutely positioned element. *)
Record placed : Type := mkPlaced { left : float; top : float }.

Definition renderNode (x y : float) : placed :=
  {| left := safe x; top := safe y |}.

(** *** The tree branch *)

Record treeNode : Type := mkNode {
  id : nat;
  val : Js.value;
  level : nat;
  x : float;
  y : float;
  parentId : option nat;
  children : list nat
}.

Definition levelHeight : float := 90.

(** [val !== null && val !== undefined && val !== 'null'] *)
Definition isNode (v : Js.value) : bool :=
  match v with
  | Js.Null | Js.Undefined => false
  | Js.Str s => negb (String.eqb s "null")
  | _ => true
  end.

(** [data[child] !== null && data[child] !== 'null'] *)
Definition isChild (v : Js.value) : bool :=
  match v with
  | Js.Null => false
  | Js.Str s => negb (String.eqb s "null")
  | _ => true
  end.

(** The level-order (binary) reading of an array:
<<
    data.forEach((val, idx) => {
      if (val !== null && val !== undefined && val !== 'null') {
        const level = Math.floor(Math.log2(idx + 1));
        const parentIdx = idx === 0 ? null : Math.floor((idx - 1) / 2);
        const leftChild = 2 * idx + 1;
        const rightChild = 2 * idx + 2;
        const children = [];
        if (leftChild < data.length && data[leftChild] !== null && data[leftChild] !== 'null') children.push(leftChild);
        if (rightChild < data.length && data[rightChild] !== null && data[rightChild] !== 'null') children.push(rightChild);
        treeNodes.push({ id: idx, val, level, x: 0, y: level * levelHeight, parentId: parentIdx, children });
      }
    });
>> *)
Definition childAt (data : list Js.value) (c : nat) : list nat :=
  if (c <? List.length data)%nat && isChild (nth c data Js.Undefined)
  then [c] else [].

Definition levelOrderNode (data : list Js.value) (idx : nat) : list treeNode :=
  let v := nth idx data Js.Undefined in
  if isNode v then
    let lvl := Nat.log2 (idx + 1) in
    [ {| id := idx;
         val := v;
         level := lvl;
         x := 0;
         y := JsMath.ofNat lvl * levelHeight;
         parentId := match idx with O => None | _ => Some (Nat.div (idx - 1) 2) end;
         children := childAt data (2 * idx + 1) ++ childAt data (2 * idx + 2) |} ]
  else [].

Definition parseLevelOrder (data : list Js.value) : list treeNode :=
  flat_map (levelOrderNode data) (seq 0 (List.length data)).

(** [treeNodes] is an array of shared, mutable node objects; [levelNodes]
    holds the same objects.  A node is referred to by its place in
    [treeNodes]. *)
Definition store : Type := list treeNode.

Definition xAt (st : store) (k : nat) : float :=
  match nth_error st k with Some n => x n | None => 0 end.

Definition withX (n : treeNode) (v : float) : treeNode :=
  {| id := id n; val := val n; level := level n; x := v; y := y n;
     parentId := parentId n; children := children n |}.

Definition withY (n : treeNode) (v : float) : treeNode :=
  {| id := id n; val := val n; level := level n; x := x n; y := v;
     parentId := parentId n; children := children n |}.

(** [node.x = v] for the node at place [k] *)
Fixpoint setX (k : nat) (v : float) (st : store) : store :=
  match st, k with
  | [], _ => []
  | n :: rest, O => withX n v :: rest
  | n :: rest, S k' => n :: setX k' v rest
  end.

Definition places (st : store) : list nat := seq 0 (List.length st).

(** [levelNodes.get(level) || []]: the nodes of a level, in [treeNodes] order *)
Definition levelNodes (st : store) (lvl : nat) : list nat :=
  filter (fun k => match nth_error st k with
                   | Some n => Nat.eqb (level n) lvl
                   | None => false
                   end) (places st).

(** [Math.max(...levelKeys)] *)
Definition maxLevel (st : store) : nat :=
  fold_left Nat.max (map level st) O.

(** [Math.max(...treeNodes.map(n => n.children.length), 2)] *)
Definition maxChildren (st : store) : nat :=
  fold_left Nat.max (map (fun n => List.length (children n)) st) 2%nat.

(** [Math.max(70, 100 / maxChildren)] *)
Definition baseSpacing (st : store) : float :=
  JsMath.max 70 (100 / JsMath.ofNat (maxChildren st)).

(** [baseSpacing * 0.8] *)
Definition minGap (st : store) : float := baseSpacing st * 0.8.

(** [levelNodesList.indexOf(node)] *)
Fixpoint indexOf (k : nat) (l : list nat) (i : nat) : nat :=
  match l with
  | [] => i
  | h :: rest => if Nat.eqb h k then i else indexOf k rest (S i)
  end.

(** Bottom level: [node.x = -totalWidth / 2 + i * baseSpacing] *)
Definition placeBottom (base : float) (nodes : list nat) (st : store) : store :=
  let totalWidth := (JsMath.ofNat (List.length nodes) - 1) * base in
  fst (fold_left
         (fun (acc : store * nat) k =>
            (setX k (- totalWidth / 2 + JsMath.ofNat (snd acc) * base) (fst acc),
             S (snd acc)))
         nodes (st, O)).

(** A node above the bottom level: the mean of its children, or, for a
    leaf, a slot of its level. *)
Definition placeInner (base : float) (maxCh maxLvl lvl : nat) (st : store)
  (k : nat) : store :=
  match nth_error st k with
  | None => st
  | Some node =>
      let childNodes :=
        filter (fun n => existsb (Nat.eqb (id n)) (children node)) st in
      match childNodes with
      | _ :: _ =>
          let childXSum := fold_left (fun sum c => sum + x c) childNodes 0 in
          setX k (childXSum / JsMath.ofNat (List.length childNodes)) st
      | [] =>
          let levelNodesList := levelNodes st (level node) in
          let idx := indexOf k levelNodesList O in
          let levelSpacing :=
            base * JsMath.powNat (JsMath.ofNat maxCh) (maxLvl - lvl) in
          let totalWidth :=
            (JsMath.ofNat (List.length levelNodesList) - 1) * levelSpacing in
          setX k (- totalWidth / 2 + JsMath.ofNat idx * levelSpacing) st
      end
  end.

Definition placeLevel (base : float) (maxCh maxLvl : nat) (st : store)
  (lvl : nat) : store :=
  let nodes := levelNodes st lvl in
  if Nat.eqb lvl maxLvl then placeBottom base nodes st
  else fold_left (placeInner base maxCh maxLvl lvl) nodes st.

(** [nodes.sort((a, b) => a.x - b.x)]: a stable sort; a node goes before
    the first one its comparison with is negative. *)
Fixpoint insertByX (st : store) (k : nat) (sorted : list nat) : list nat :=
  match sorted with
  | [] => [k]
  | h :: rest =>
      if xAt st k - xAt st h <? 0 then k :: h :: rest
      else h :: insertByX st k rest
  end.

Definition sortByX (st : store) (nodes : list nat) : list nat :=
  fold_left (fun sorted k => insertByX st k sorted) nodes [].

(** One step of the overlap loop, on [nodes[i-1]] and [nodes[i]]:
<<
    if (nodes[i].x - nodes[i-1].x < minGap) {
      const shift = (minGap - (nodes[i].x - nodes[i-1].x)) / 2;
      nodes[i-1].x -= shift;
      nodes[i].x += shift;
    }
>> *)
Definition pushApart (gapMin : float) (st : store) (pair : nat * nat) : store :=
  let '(a, b) := pair in
  if xAt st b - xAt st a <? gapMin then
    let shift := (gapMin - (xAt st b - xAt st a)) / 2 in
    let st1 := setX a (xAt st a - shift) st in
    setX b (xAt st1 b + shift) st1
  else st.

(** The pairs [(nodes[i-1], nodes[i])] for [i = 1 .. nodes.length - 1] *)
Definition neighbours (nodes : list nat) : list (nat * nat) :=
  combine nodes (tl nodes).

Definition resolveLevel (gapMin : float) (st : store) (lvl : nat) : store :=
  let nodes := sortByX st (levelNodes st lvl) in
  fold_left (pushApart gapMin) (neighbours nodes) st.

(** [treeNodes.forEach(n => n.x += offsetX)] and the same for [y] *)
Definition centerTree (st : store) : store :=
  let offsetX := - (JsMath.minOf (map x st) + JsMath.maxOf (map x st)) / 2 in
  let st1 := map (fun n => withX n (x n + offsetX)) st in
  let offsetY := - (JsMath.minOf (map y st1) + JsMath.maxOf (map y st1)) / 2 in
  map (fun n => withY n (y n + offsetY)) st1.

(** The placement loop, [for (let level = maxLevel; level >= 0; level--)] *)
Definition placeAll (st : store) : store :=
  fold_left (placeLevel (baseSpacing st) (maxChildren st) (maxLevel st))
            (rev (seq 0 (S (maxLevel st)))) st.

(** The overlap loop, [for (let level = 0; level <= maxLevel; level++)] *)
Definition resolveOverlaps (st : store) : store :=
  fold_left (resolveLevel (minGap st)) (seq 0 (S (maxLevel st))) st.

(** [calculatePositions] *)
Definition calculatePositions (treeNodes : store) : store :=
  match treeNodes with
  | [] => []
  | _ => centerTree (resolveOverlaps (placeAll treeNodes))
  end.

(** What the tree branch hands to the renderer for a node:
    [style={{ left: node.x, top: node.y, ... }}] *)
Definition renderTreeNode (n : treeNode) : placed :=
  {| left := x n; top := y n |}.

(** The property the overlap loop is there for: on every level, any two
    nodes next to each other in x order are at least [minGap] apart. *)
Fixpoint gapsAtLeast (gapMin : float) (xs : list float) : bool :=
  match xs with
  | a :: ((b :: _) as rest) => negb (b - a <? gapMin) && gapsAtLeast gapMin rest
  | _ => true
  end.

Definition levelXs (st : store) (lvl : nat) : list float :=
  map (xAt st) (sortByX st (levelNodes st lvl)).

Definition overlapsResolved (gapMin : float) (st : store) : bool :=
  forallb (fun lvl => gapsAtLeast gapMin (levelXs st lvl))
          (seq 0 (S (maxLevel st))).

(** *** The graph branch *)

Section Graph.

(** [Math.cos] and [Math.sin], built-ins. *)
Variable Math_cos : float -> float.
Variable Math_sin : float -> float.

Record graphNode : Type := mkGraphNode { nodeId : string; label : string }.

(** An end of an edge as the response gives it: a number is taken as the
    node's index, anything else is looked up by [String(...)] among the
    node ids. *)
Inductive endpoint : Type :=
| Index (n : float)
| Name (s : string).

(** [source]/[from] and [target]/[to]; [None] is [undefined]. *)
Record edge : Type := mkEdge {
  source : option endpoint;
  from : option endpoint;
  target : option endpoint;
  to : option endpoint
}.

Definition centerX : float := 400.
Definition centerY : float := 300.

(** [Math.max(120, nodeCount * 35)] *)
Definition radius (nodeCount : nat) : float :=
  JsMath.max 120 (JsMath.ofNat nodeCount * 35).

(** [getGraphCoords]:
<<
    const angle = (2 * Math.PI * idx / total) - Math.PI / 2;
    return { x: Math.cos(angle) * radius, y: Math.sin(angle) * radius };
>> *)
Definition getGraphCoords (nodeCount : nat) (idx : float) (total : nat)
  : float * float :=
  let angle := (2 * JsMath.PI * idx / JsMath.ofNat total) - JsMath.PI / 2 in
  (Math_cos angle * radius nodeCount, Math_sin angle * radius nodeCount).

(** [nodes.findIndex(n => n.id === s)] *)
Fixpoint findIndex (s : string) (nodes : list graphNode) (i : nat) : float :=
  match nodes with
  | [] => -1
  | n :: rest =>
      if String.eqb (nodeId n) s then JsMath.ofNat i
      else findIndex s rest (S i)
  end.

Definition endIndex (nodes : list graphNode) (first second : option endpoint)
  : float :=
  let read e := match e with
                | Index n => n
                | Name s => findIndex s nodes O
                end in
  match first, second with
  | Some e, _ => read e
  | None, Some e => read e
  | None, None => -1
  end.

(** The [<line x1 y1 x2 y2>] of an edge. *)
Record line : Type := mkLine { x1 : float; y1 : float; x2 : float; y2 : float }.

(** The edges drawn: those with [fromIdx >= 0 && toIdx >= 0]. *)
Definition renderEdge (nodes : list graphNode) (e : edge) : list line :=
  let fromIdx := endIndex nodes (source e) (from e) in
  let toIdx := endIndex nodes (target e) (to e) in
  if (0 <=? fromIdx) && (0 <=? toIdx) then
    let n := List.length nodes in
    let s := getGraphCoords n fromIdx n in
    let t := getGraphCoords n toIdx n in
    [ {| x1 := centerX + fst s; y1 := centerY + snd s;
         x2 := centerX + fst t; y2 := centerY + snd t |} ]
  else [].

Definition renderEdges (nodes : list graphNode) (edges : list edge)
  : list line :=
  flat_map (renderEdge nodes) edges.

(** The nodes drawn: [style={{ left: coords.x, top: coords.y, ... }}] *)
Definition renderGraphNodes (nodes : list graphNode) : list placed :=
  map (fun i =>
         let c := getGraphCoords (List.length nodes) (JsMath.ofNat i)
                                 (List.length nodes) in
         {| left := fst c; top := snd c |})
      (seq 0 (List.length nodes)).

End Graph.

End HologramRenderer.

(** ** Everything that can happen to the two playback states

    The handlers above, as the events of a page: what a user, the clock or
    a settling request can do, from the state the component mounts in. *)

Module AlgoVisionSession.
Section Session.

Variable AnimationStep : Type.

(** [useState([])], [useState(0)], [useState(false)], [useState(false)] *)
Definition initial : AlgoVision.state AnimationStep :=
  AlgoVision.mkState [] 0 false false.

Inductive event : Type :=
| Settle (r : AlgoVision.settled AnimationStep)  (* [handleRun]'s request settles *)
| AlgoTypeChange                                 (* the structure selector *)
| Control (c : AlgoVision.control).              (* buttons and clock *)

Definition react (s : AlgoVision.state AnimationStep) (e : event)
  : AlgoVision.state AnimationStep :=
  match e with
  | Settle r => fst (AlgoVision.handleRun s r)
  | AlgoTypeChange => AlgoVision.onAlgoTypeChange s
  | Control c => AlgoVision.fire s c
  end.

Definition after (es : list event) : AlgoVision.state AnimationStep :=
  fold_left react es initial.

(** [steps[currentStepIdx]], which the page hands to the visualizer:
    [undefined] off the ends of the array. *)
Definition currentStep (s : AlgoVision.state AnimationStep)
  : option AnimationStep :=
  if (AlgoVision.currentStepIdx s <? 0)%Z then None
  else nth_error (AlgoVision.steps s) (Z.to_nat (AlgoVision.currentStepIdx s)).

End Session.

Arguments initial {AnimationStep}.
Arguments Settle {AnimationStep}.
Arguments AlgoTypeChange {AnimationStep}.
Arguments Control {AnimationStep}.
Arguments react {AnimationStep}.
Arguments after {AnimationStep}.
Arguments currentStep {AnimationStep}.

End AlgoVisionSession.

Module HologramSession.
Section Session.

Variable SimulationStep : Type.

(** [useState(null)], [useState(0)], [useState(false)], [useState(false)],
    [useState(1000)] *)
Definition initial : Hologram.state SimulationStep :=
  Hologram.mkState None 0 false false 1000.

(** One event of the teaching page.  The scrubber reports only values
    between its [min] and [max]. *)
Inductive step : Hologram.state SimulationStep ->
                 Hologram.state SimulationStep -> Prop :=
| StepSettle s r :
    step s (fst (Hologram.handleHologramAnalyze s r))
| StepControl s c :
    step s (Hologram.fire s c)
| StepSeek s i :
    Hologram.sliderOffers s i -> step s (Hologram.onSeek s i)
| StepManualAction s :
    step s (Hologram.onManualAction s)
| StepSpeed s speed :
    step s (Hologram.mkState (Hologram.algoMetadata s)
              (Hologram.currentStepIndex s) (Hologram.isHologramPlaying s)
              (Hologram.isHologramLoading s) speed).

Inductive reachable : Hologram.state SimulationStep -> Prop :=
| ReachInitial : reachable initial
| ReachStep s s' : reachable s -> step s s' -> reachable s'.

(** [algoMetadata?.steps[currentStepIndex] || null] *)
Definition currentHologramStep (s : Hologram.state SimulationStep)
  : option SimulationStep :=
  match Hologram.algoMetadata s with
  | None => None
  | Some m =>
      if (Hologram.currentStepIndex s <? 0)%Z then None
      else nth_error (Hologram.steps m) (Z.to_nat (Hologram.currentStepIndex s))
  end.

End Session.

Arguments initial {SimulationStep}.
Arguments step {SimulationStep}.
Arguments reachable {SimulationStep}.
Arguments currentHologramStep {SimulationStep}.

End HologramSession.

(** ** The steps [simulateCode] maps over *)

Module SimulatedSteps.
Import Js.

(** [s.viz] can be read and is neither [undefined] nor [null], so that
    [s.viz.data] does not throw. *)
Definition readableViz (s : value) : bool :=
  match get s "viz" with
  | Return Undefined | Return Null | Throw _ => false
  | Return _ => true
  end.

End SimulatedSteps.

(** ** unnamed/part_005 and unnamed/part_004: [withRetry] *)

Module Retry.

Section WithRetry.

(** What [fn] resolves with, and what it rejects with. *)
Variables T E : Type.

(** [error?.message], when there is one (the message of an [Error] is a
    string). *)
Variable message : E -> option string.

(** [Math.random()] as drawn in the iteration [attempt]. *)
Variable random : nat -> float.

(** The promise [fn()] returns, once settled. *)
Inductive settled : Type :=
| Fulfilled (v : T)
| Rejected (error : E).

(** How [withRetry] ends: [return v], or [throw] of an error or of
    [lastError], which is [null] until an error is caught. *)
Inductive result : Type :=
| Returned (v : T)
| Threw (lastError : option E).

(** A run of [withRetry]: how it ends, how many times it called [fn], and
    the delays it waited for (each one logged, then passed to
    [setTimeout]), in order. *)
Record run : Type := mkRun {
  outcome : result;
  calls : nat;
  waits : list float
}.

(** [error?.message || ''] *)
Definition messageOf (error : E) : string :=
  match message error with
  | Some m => m
  | None => EmptyString
  end.

(** [msg.includes('503') || msg.includes('UNAVAILABLE')
     || msg.includes('high demand') || msg.includes('429')] *)
Definition isRetryable (msg : string) : bool :=
  Hologram.includes "503" msg || Hologram.includes "UNAVAILABLE" msg
  || Hologram.includes "high demand" msg || Hologram.includes "429" msg.

(** [baseDelay * Math.pow(2, attempt) + Math.random() * 1000] *)
Definition backoff (baseDelay : float) (attempt : nat) : float :=
  (baseDelay * JsMath.powNat 2 attempt + random attempt * 1000)%float.

Section Loop.

(** The delay before the next attempt, from the message and the attempt:
    the one place where the two copies differ. *)
Variable delayMs : string -> nat -> float.

(** The outcome of the call of [fn] made in the iteration [attempt]. *)
Variable fn : nat -> settled.

Variable maxRetries : Z.

(** The loop, entered at [attempt]:
<<
    let lastError: Error | null = null;
    for (let attempt = 0; attempt < maxRetries; attempt++) {
      try {
        return await fn();
      } catch (error: any) {
        lastError = error;
        const msg = error?.message || '';
        const isRetryable = ...;
        if (!isRetryable || attempt === maxRetries - 1) throw error;
        const delay = ...;
        console.log(...);
        await new Promise(resolve => setTimeout(resolve, delay));
      }
    }
    throw lastError;
>>
    [fuel] bounds the iterations still to come; when it is used up the
    loop condition is false. *)
Fixpoint loop (fuel attempt : nat) (lastError : option E) : run :=
  match fuel with
  | O => mkRun (Threw lastError) attempt []
  | S fuel' =>
      if (Z.of_nat attempt <? maxRetries)%Z then
        match fn attempt with
        | Fulfilled v => mkRun (Returned v) (S attempt) []
        | Rejected error =>
            let msg := messageOf error in
            if negb (isRetryable msg)
               || (Z.of_nat attempt =? maxRetries - 1)%Z
            then mkRun (Threw (Some error)) (S attempt) []
            else
              let r := loop fuel' (S attempt) (Some error) in
              mkRun (outcome r) (calls r) (delayMs msg attempt :: waits r)
        end
      else mkRun (Threw lastError) attempt []
  end.

Definition withRetryBy : run := loop (Z.to_nat maxRetries) 0 None.

(** The calls before the [k]-th were all rejected with a retryable
    message. *)
Definition retryableUntil (k : nat) : bool :=
  forallb (fun j => match fn j with
                    | Rejected error => isRetryable (messageOf error)
                    | Fulfilled _ => false
                    end) (seq 0 k).

End Loop.

(** [withRetry] of [unnamed/part_005] ([maxRetries = 3] and
    [baseDelay = 2000] unless given). *)
Definition withRetry (fn : nat -> settled) (maxRetries : Z)
  (baseDelay : float) : run :=
  withRetryBy (fun _ attempt => backoff baseDelay attempt) fn maxRetries.

Section Quota.

(** [message.match(/retry in (\d+(?:\.\d+)?)\s*s/i)
     || message.match(/(\d+(?:\.\d+)?)\s*s/i)]: the first capture group of
    the match, if any ([String.prototype.match], a built-in). *)
Variable matchSeconds : string -> option string.

(** [parseFloat], a built-in. *)
Variable parseFloat : string -> float.

(** [parse429RetryDelayMs] of [unnamed/part_004]:
<<
    if (!match) return null;
    const sec = parseFloat(match[1]);
    return Number.isFinite(sec) ? Math.min(sec * 1000, 65000) : null;
>> *)
Definition parse429RetryDelayMs (msg : string) : option float :=
  match matchSeconds msg with
  | None => None
  | Some group =>
      let sec := parseFloat group in
      if JsMath.isFinite sec then Some (JsMath.min (sec * 1000)%float 65000%float)
      else None
  end.

(** [is429 ? (parse429RetryDelayMs(msg) ?? 55000)
           : baseDelay * Math.pow(2, attempt) + Math.random() * 1000] *)
Definition quotaDelayMs (baseDelay : float) (msg : string) (attempt : nat)
  : float :=
  if Hologram.includes "429" msg then
    match parse429RetryDelayMs msg with
    | Some d => d
    | None => 55000%float
    end
  else backoff baseDelay attempt.

(** [withRetry] of [unnamed/part_004]. *)
Definition withRetryQuota (fn : nat -> settled) (maxRetries : Z)
  (baseDelay : float) : run :=
  withRetryBy (quotaDelayMs baseDelay) fn maxRetries.

End Quota.

End WithRetry.

Arguments Fulfilled {T E}.
Arguments Rejected {T E}.
Arguments Returned {T E}.
Arguments Threw {T E}.
Arguments mkRun {T E}.
Arguments outcome {T E}.
Arguments calls {T E}.
Arguments waits {T E}.
Arguments messageOf {E}.
Arguments loop {T E}.
Arguments withRetryBy {T E}.
Arguments retryableUntil {T E}.
Arguments withRetry {T E}.
Arguments withRetryQuota {T E}.

Section SimulateCode.

Variable E : Type.
Variable message : E -> option string.
Variable random : nat -> float.
Variable JSON_parse : string -> option Js.value.
Variable numberToString : float -> string.

(** [simulateCode] of [unnamed/part_005], from the request on:
<<
    const response = await withRetry(() => ai.models.generateContent({...}));
    try { const rawSteps = JSON.parse(response.text); return rawSteps.map(...); }
    catch (e) { console.error("Failed to parse Gemini response", e); return []; }
>>
    [fn attempt] is how the request made in the iteration [attempt] settles
    (with the response's text). *)
Definition simulateCode (fn : nat -> settled string E)
  : AlgoVision.settled Js.value * list AlgoVision.effect :=
  match outcome (withRetry message random fn 3 2000%float) with
  | Returned text =>
      GeminiService.simulateCode JSON_parse numberToString None
        (GeminiService.ResponseText text)
  | Threw _ =>
      GeminiService.simulateCode JSON_parse numberToString None
        GeminiService.RequestFailed
  end.

End SimulateCode.

End Retry.

(** ** unnamed/part_002: the frames of the hand-tracking effect *)

Module GrabSession.

(** What the hand tracker reports for a frame: a hand (with the canvas size
    read in that frame), or none. *)
Inductive frame : Type :=
| Hand (width height : float) (thumb index : GrabVisualizer.landmark)
| NoHand.

(** A frame: a run of the effect and the render that follows it.  A run
    that throws ends the session. *)
Definition step (m : GrabVisualizer.model) (f : frame)
  : Js.completion GrabVisualizer.model :=
  match f with
  | Hand width height thumb index =>
      Js.bind (GrabVisualizer.onHand width height thumb index m)
        (fun ran => Js.Return (GrabVisualizer.render ran))
  | NoHand => Js.Return (GrabVisualizer.render (GrabVisualizer.onNoHand m))
  end.

Fixpoint run (m : GrabVisualizer.model) (fs : list frame)
  : Js.completion GrabVisualizer.model :=
  match fs with
  | [] => Js.Return m
  | f :: rest => Js.bind (step m f) (fun m' => run m' rest)
  end.

(** The ids of the blocks, in entry order, and what stands under them. *)
Definition ids (m : GrabVisualizer.model) : list string :=
  map fst (GrabVisualizer.elementPositions m).

Definition places (m : GrabVisualizer.model)
  : list (option GrabVisualizer.point) :=
  map snd (GrabVisualizer.elementPositions m).

(** Every block has a position: with the grabbed block, if any, put back
    where it was grabbed, the blocks are on the places [slots], each place
    once; and a grab is held only while pinching, on a block that exists,
    with its start recorded. *)
Definition allPlaced (slots : list GrabVisualizer.point)
  (m : GrabVisualizer.model) : Prop :=
  exists ps,
    GrabVisualizer.elementPositions m = GrabVisualizer.placed ps
    /\ Permutation
         (map snd
            match GrabVisualizer.grabbedIdRef m,
                  GrabVisualizer.grabbedStartPosRef m with
            | Some g, Some p0 => GrabVisualizer.assign g p0 ps
            | _, _ => ps
            end) slots
    /\ forall g, GrabVisualizer.grabbedIdRef m = Some g ->
         GrabVisualizer.wasPinchingRef m = true /\ In g (map fst ps)
         /\ exists p0, GrabVisualizer.grabbedStartPosRef m = Some p0.

(** One block has lost its place: nothing is grabbed, the entry of [g]
    holds [null], and the other blocks are on places of [slots], each on
    one of its own, the place [p0] being left free. *)
Definition oneLost (slots : list GrabVisualizer.point)
  (m : GrabVisualizer.model) : Prop :=
  exists g p0 ps,
    GrabVisualizer.grabbedIdRef m = None
    /\ GrabVisualizer.lookup g ps = Some p0
    /\ GrabVisualizer.elementPositions m
       = GrabVisualizer.assignEntry g None (GrabVisualizer.placed ps)
    /\ Permutation (map snd ps) slots.

End GrabSession.

(** ** What the tree layout reads but must not change *)

Module TreeShape.

(** A node without its coordinates. *)
Definition shape (n : HologramRenderer.treeNode)
  : nat * Js.value * nat * option nat * list nat :=
  (HologramRenderer.id n, HologramRenderer.val n, HologramRenderer.level n,
   HologramRenderer.parentId n, HologramRenderer.children n).

(** The node with a given id, as [treeNodes.find(n => n.id === k)]. *)
Definition findNode (st : HologramRenderer.store) (k : nat)
  : option HologramRenderer.treeNode :=
  find (fun n => Nat.eqb (HologramRenderer.id n) k) st.

End TreeShape.

(** ** unnamed/part_004: zooming the hologram canvas *)

Module HologramCanvas.
Local Open Scope float_scope.

(** [handleWheel], on the [deltaY] of the wheel event:
<<
    setScale(prev => Math.max(0.2, Math.min(5, prev * (e.deltaY > 0 ? 0.9 : 1.1))));
>> *)
Definition handleWheel (prev deltaY : float) : float :=
  JsMath.max 0.2 (JsMath.min 5 (prev * (if 0 <? deltaY then 0.9 else 1.1))).

(** [useState(1)] *)
Definition initialScale : float := 1.

(** The scale after a sequence of wheel events. *)
Definition zoom (deltas : list float) : float :=
  fold_left handleWheel deltas initialScale.

End HologramCanvas.

(** ** unnamed/part_002: which block the hand is over *)

Module HoverSearch.
Local Open Scope float_scope.

(** [distToCenter] of the hover search: how far the hand is from the
    centre of the block at [pos]. *)
Definition distToCenter (handX handY : float) (pos : GrabVisualizer.point)
  : float :=
  JsMath.sqrt
    (JsMath.square (handX - (GrabVisualizer.x pos + GrabVisualizer.blockW / 2))
     + JsMath.square (handY - (GrabVisualizer.y pos + GrabVisualizer.blockH / 2))).

(** The hand is on the block, or within 60 of its centre. *)
Definition hoverable (handX handY : float) (pos : GrabVisualizer.point) : bool :=
  ((GrabVisualizer.x pos <=? handX)
   && (handX <=? GrabVisualizer.x pos + GrabVisualizer.blockW)
   && (GrabVisualizer.y pos <=? handY)
   && (handY <=? GrabVisualizer.y pos + GrabVisualizer.blockH))
  || (distToCenter handX handY pos <? 60).

(** What the hover search holds after the entries [seen]. *)
Definition found (handX handY : float) (seen : GrabVisualizer.positions)
  (acc : option string * float) : Prop :=
  (acc = (None, infinity)
   /\ forall id p, In (id, p) seen -> hoverable handX handY p = true ->
        (distToCenter handX handY p <? infinity) = false)
  \/
  (exists t tp,
      acc = (Some t, distToCenter handX handY tp)
      /\ In (t, tp) seen /\ hoverable handX handY tp = true
      /\ forall id p, In (id, p) seen -> hoverable handX handY p = true ->
           (distToCenter handX handY p <? distToCenter handX handY tp) = false).

End HoverSearch.

(** ** unnamed/part_004: the nodes a graph edge names *)

Module GraphNames.

(** The place of the first node whose id is [s], if there is one. *)
Fixpoint firstIndexOf (s : string) (nodes : list HologramRenderer.graphNode)
  : option nat :=
  match nodes with
  | [] => None
  | n :: rest =>
      if String.eqb (HologramRenderer.nodeId n) s then Some O
      else option_map S (firstIndexOf s rest)
  end.

(** What an end of an edge is given as: a node id (a string), or a whole
    number. *)
Inductive endName : Type :=
| Id (s : string)
| Place (i : nat).

Definition toEndpoint (a : endName) : HologramRenderer.endpoint :=
  match a with
  | Id s => HologramRenderer.Name s
  | Place i => HologramRenderer.Index (JsMath.ofNat i)
  end.

(** The place an end stands for: for an id, the place of the first node
    with that id; for a number, the number itself. *)
Definition placeOf (nodes : list HologramRenderer.graphNode) (a : endName)
  : option nat :=
  match a with
  | Id s => firstIndexOf s nodes
  | Place i => Some i
  end.

(** The edge [{ source: a, target: b }]. *)
Definition joining (a b : endName) : HologramRenderer.edge :=
  HologramRenderer.mkEdge (Some (toEndpoint a)) None (Some (toEndpoint b)) None.

End GraphNames.

(** ** unnamed/part_004: the path from the root to the active node *)

Module TreePath.

(** [treeNodes.find(n => n.id === current)?.parentId ?? null] *)
Definition parentOf (st : HologramRenderer.store) (current : nat) : option nat :=
  match TreeShape.findNode st current with
  | Some node => HologramRenderer.parentId node
  | None => None
  end.

(** The loop of [getPathToNode]:
<<
    const path: number[] = [];
    let current: number | null = nodeId;
    while (current !== null) {
      path.unshift(current);
      const node = treeNodes.find(n => n.id === current);
      current = node?.parentId ?? null;
    }
    return path;
>>
    [fuel] bounds the iterations; [None] is a loop that has not ended
    within it. *)
Fixpoint walkUp (st : HologramRenderer.store) (fuel : nat)
  (current : option nat) (path : list nat) : option (list nat) :=
  match current with
  | None => Some path
  | Some c =>
      match fuel with
      | O => None
      | S fuel' => walkUp st fuel' (parentOf st c) (c :: path)
      end
  end.

Definition getPathToNode (st : HologramRenderer.store) (fuel nodeId : nat)
  : option (list nat) :=
  walkUp st fuel (Some nodeId) [].

End TreePath.

(** ** algovision-pro/components/Visualizer.tsx: dragging a slot *)

Module SlotDrag.
Local Open Scope float_scope.

(** An entry of [slotOffsets]. *)
Record offset : Type := mkOffset { dx : float; dy : float }.

(** [slotOffsets]: a JavaScript object keyed by [item-i]. *)
Definition offsets : Type := list (string * offset).

Fixpoint lookup (id : string) (os : offsets) : option offset :=
  match os with
  | [] => None
  | (k, o) :: rest => if String.eqb id k then Some o else lookup id rest
  end.

(** [os[id] = o] *)
Fixpoint assign (id : string) (o : offset) (os : offsets) : offsets :=
  match os with
  | [] => [(id, o)]
  | (k, q) :: rest =>
      if String.eqb id k then (id, o) :: rest else (k, q) :: assign id o rest
  end.

(** [os[id] || { dx: 0, dy: 0 }] *)
Definition getOr (id : string) (os : offsets) : offset :=
  match lookup id os with
  | Some o => o
  | None => mkOffset 0 0
  end.

(** [Math.max(-(width * 0.4), Math.min(width * 0.5, nextX))] *)
Definition clampX (width nextX : float) : float :=
  JsMath.max (- (width * 0.4)) (JsMath.min (width * 0.5) nextX).

(** [Math.max(-(height * 0.45), Math.min(height * 0.45, nextY))] *)
Definition clampY (height nextY : float) : float :=
  JsMath.max (- (height * 0.45)) (JsMath.min (height * 0.45) nextY).

(** The body of the swap loop for a block within snapping distance:
<<
    if (otherId === grabbedIdRef.current) return;
    ...
    const temp = newOffsets[otherId] || { dx: 0, dy: 0 };
    newOffsets[otherId] = newOffsets[grabbedIdRef.current!];
    newOffsets[grabbedIdRef.current!] = temp;
>>
    [newOffsets] has an entry for the grabbed block from the start of the
    loop on. *)
Definition swapWith (grabbed : string) (os : offsets) (otherId : string)
  : offsets :=
  if String.eqb otherId grabbed then os
  else
    match lookup grabbed os with
    | Some mine => assign grabbed (getOr otherId os) (assign otherId mine os)
    | None => os
    end.

(** The updater passed to [setSlotOffsets], applied to [prev] with the
    grabbed id of the frame that queued it; [near] are the ids of the
    blocks the document reports within snapping distance of the grabbed
    one, in document order:
<<
    const current = prev[grabbedIdRef.current!] || { dx: 0, dy: 0 };
    const nextX = current.dx + dx;
    const nextY = current.dy + dy;
    const clampedX = ...; const clampedY = ...;
    const newOffsets = { ...prev, [grabbedIdRef.current!]: { dx: clampedX, dy: clampedY } };
    ... swap loop ...
    return newOffsets;
>> *)
Definition dragUpdate (width height : float) (grabbed : string)
  (ddx ddy : float) (near : list string) (prev : offsets) : offsets :=
  let current := getOr grabbed prev in
  let clamped := mkOffset (clampX width (dx current + ddx))
                          (clampY height (dy current + ddy)) in
  fold_left (swapWith grabbed) near (assign grabbed clamped prev).

(** The refs of the component, and the [slotOffsets] state. *)
Record model : Type := mkModel {
  slotOffsets : offsets;
  grabbedIdRef : option string;
  hoveredIdRef : option string;
  lastPinchPosRef : option (float * float);
  isPinchingRef : bool
}.

(** What a frame brings: the hand's thumb and index tips, and what the
    document reports for it (the block under the hand, and the blocks
    within snapping distance of the grabbed one); or no hand. *)
Inductive frame : Type :=
| Hand (thumb index : GrabVisualizer.landmark)
       (foundHover : option string) (near : list string)
| NoHand.

(** One run of the interaction effect on a canvas of the given size. *)
Definition step (width height : float) (m : model) (f : frame) : model :=
  match f with
  | NoHand =>
      {| slotOffsets := slotOffsets m;
         grabbedIdRef := None;
         hoveredIdRef := None;
         lastPinchPosRef := None;
         isPinchingRef := false |}
  | Hand thumb index foundHover near =>
      let dist := GrabVisualizer.pinchDistance thumb index in
      let isPinching := SlotVisualizer.nextPinching (isPinchingRef m) dist in
      let currentX :=
        (1 - (GrabVisualizer.lx thumb + GrabVisualizer.lx index) / 2) * width in
      let currentY :=
        ((GrabVisualizer.ly thumb + GrabVisualizer.ly index) / 2) * height in
      let grabbed :=
        if isPinching then
          match grabbedIdRef m, foundHover with
          | None, Some h => Some h
          | g, _ => g
          end
        else None in
      let os :=
        match isPinching, grabbed, lastPinchPosRef m with
        | true, Some g, Some (lastX, lastY) =>
            dragUpdate width height g (currentX - lastX) (currentY - lastY)
              near (slotOffsets m)
        | _, _, _ => slotOffsets m
        end in
      {| slotOffsets := os;
         grabbedIdRef := grabbed;
         hoveredIdRef := foundHover;
         lastPinchPosRef := Some (currentX, currentY);
         isPinchingRef := isPinching |}
  end.

Definition run (width height : float) (m : model) (fs : list frame) : model :=
  fold_left (step width height) fs m.

(** [useState({})] and the refs as created (and as the effect that clears
    the spatial state leaves them). *)
Definition initial : model := mkModel [] None None None false.

(** An offset is not beyond the limits the drag clamps to. *)
Definition inBox (width height : float) (o : offset) : bool :=
  negb (dx o <? - (width * 0.4)) && negb (width * 0.5 <? dx o)
  && negb (dy o <? - (height * 0.45)) && negb (height * 0.45 <? dy o).

(** Every entry of [slotOffsets] is within the limits. *)
Definition allInBox (width height : float) (os : offsets) : Prop :=
  Forall (fun entry => inBox width height (snd entry) = true) os.

End SlotDrag.

(** ** unnamed/part_004: reading a tree given as nested objects *)

Module ObjectTree.
Import Js.

(** [node.k] for a node that is neither [null] nor [undefined]; only
    objects have the properties read here. *)
Definition field (node : value) (k : string) : value :=
  match node with
  | Obj fields => lookup k fields
  | _ => Undefined
  end.

(** [node.val || node.value || node.data || node] *)
Definition valOf (node : value) : value :=
  if truthy (field node "val") then field node "val"
  else if truthy (field node "value") then field node "value"
  else if truthy (field node "data") then field node "data"
  else node.

(** The children of a node:
<<
    let children: any[] = [];
    if (Array.isArray(node.children)) children = node.children;
    else if (Array.isArray(node.child)) children = node.child;
    else if (node.left || node.right) {
      if (node.left) children.push(node.left);
      if (node.right) children.push(node.right);
    }
>> *)
Definition childrenOf (node : value) : list value :=
  match field node "children" with
  | Arr items => items
  | _ =>
      match field node "child" with
      | Arr items => items
      | _ =>
          if truthy (field node "left") || truthy (field node "right") then
            (if truthy (field node "left") then [field node "left"] else [])
            ++ (if truthy (field node "right") then [field node "right"] else [])
          else []
      end
  end.

(** [child !== null && child !== undefined] *)
Definition isPresent (child : value) : bool :=
  match child with
  | Null | Undefined => false
  | _ => true
  end.

Definition withChildren (n : HologramRenderer.treeNode) (cs : list nat)
  : HologramRenderer.treeNode :=
  {| HologramRenderer.id := HologramRenderer.id n;
     HologramRenderer.val := HologramRenderer.val n;
     HologramRenderer.level := HologramRenderer.level n;
     HologramRenderer.x := HologramRenderer.x n;
     HologramRenderer.y := HologramRenderer.y n;
     HologramRenderer.parentId := HologramRenderer.parentId n;
     HologramRenderer.children := cs |}.

(** [const nodeToUpdate = treeNodes.find(n => n.id === k);
     if (nodeToUpdate) nodeToUpdate.children = cs;] *)
Fixpoint setChildren (k : nat) (cs : list nat) (st : HologramRenderer.store)
  : HologramRenderer.store :=
  match st with
  | [] => []
  | n :: rest =>
      if Nat.eqb (HologramRenderer.id n) k then withChildren n cs :: rest
      else n :: setChildren k cs rest
  end.

(** [parseObjectTree(node, parentIdx, level, nodeId)], on the [treeNodes]
    it pushes to; it returns the next free id:
<<
    let currentId = nodeId;
    ...
    const currentNodeId = currentId;
    treeNodes.push({ id: currentNodeId, val, level, x: 0,
                     y: level * levelHeight, parentId: parentIdx, children: [] });
    currentId++;
    const childIds: number[] = [];
    for (const child of children) {
      if (child !== null && child !== undefined) {
        const nextId = parseObjectTree(child, currentNodeId, level + 1, currentId);
        childIds.push(currentId);
        currentId = nextId;
      }
    }
    ... nodeToUpdate.children = childIds ...
    return currentId;
>>
    [fuel] bounds the depth of the recursion; [None] is a recursion that
    has not ended within it. *)
Fixpoint parseObjectTree (fuel : nat) (node : value) (parentIdx : option nat)
  (level nodeId : nat) (treeNodes : HologramRenderer.store)
  : option (nat * HologramRenderer.store) :=
  match fuel with
  | O => None
  | S fuel' =>
      let pushed :=
        (treeNodes
         ++ [ {| HologramRenderer.id := nodeId;
                 HologramRenderer.val := valOf node;
                 HologramRenderer.level := level;
                 HologramRenderer.x := 0%float;
                 HologramRenderer.y :=
                   (JsMath.ofNat level * HologramRenderer.levelHeight)%float;
                 HologramRenderer.parentId := parentIdx;
                 HologramRenderer.children := [] |} ])%list in
      match
        (fix each (cs : list value) (currentId : nat) (childIds : list nat)
             (st : HologramRenderer.store)
           : option (nat * list nat * HologramRenderer.store) :=
           match cs with
           | [] => Some (currentId, childIds, st)
           | child :: rest =>
               if isPresent child then
                 match parseObjectTree fuel' child (Some nodeId) (S level)
                         currentId st with
                 | Some (nextId, st') =>
                     each rest nextId (childIds ++ [currentId])%list st'
                 | None => None
                 end
               else each rest currentId childIds st
           end) (childrenOf node) (S nodeId) [] pushed
      with
      | Some (currentId, childIds, st) =>
          Some (currentId, setChildren nodeId childIds st)
      | None => None
      end
  end.

(** How deeply a value is nested. *)
Fixpoint height (v : value) : nat :=
  match v with
  | Arr items =>
      S ((fix all (l : list value) : nat :=
            match l with
            | [] => O
            | a :: rest => Nat.max (height a) (all rest)
            end) items)
  | Obj fields =>
      S ((fix all (l : list (string * value)) : nat :=
            match l with
            | [] => O
            | (_, a) :: rest => Nat.max (height a) (all rest)
            end) fields)
  | _ => O
  end.

Section RenderStructure.

(** [JSON.parse] ([None] is a thrown SyntaxError), [String.prototype.trim]
    and [Object.values], built-ins. *)
Variable JSON_parse : string -> option value.
Variable trim : string -> string.
Variable Object_values : list (string * value) -> list value.

(** [trimmed.split('')], for a text of one-unit characters. *)
Definition splitChars (trimmed : string) : value :=
  Arr (map (fun c => Str (String c EmptyString)) (list_ascii_of_string trimmed)).

(** The data [renderStructure] draws, from the state of the current step:
<<
    let data = currentStep.state;
    if (data === null || data === undefined) { data = []; }
    if (typeof data === 'string') {
      const trimmed = data.trim();
      if (trimmed.startsWith('[') || trimmed.startsWith('{')) {
        try { data = JSON.parse(trimmed); }
        catch (e) {
          if (!trimmed.startsWith('[') && !trimmed.startsWith('{')) { data = trimmed.split(''); }
          else { data = [trimmed]; }
        }
      } else {
        if (trimmed.length <= 20) { data = trimmed.split(''); }
        else { data = [trimmed]; }
      }
    }
    if (!Array.isArray(data)) {
      if (typeof data === 'object' && data !== null) {
        if (data.arr) data = data.arr;
        else if (data.data) data = data.data;
        else if (data.values) data = data.values;
        else if (data.nodes) data = data;
        else data = Object.values(data);
      } else {
        data = [data];
      }
    }
>> *)
Definition normalise (state : value) : value :=
  let data := match state with
              | Null | Undefined => Arr []
              | _ => state
              end in
  let data :=
    match data with
    | Str s =>
        let trimmed := trim s in
        if String.prefix "[" trimmed || String.prefix "{" trimmed then
          match JSON_parse trimmed with
          | Some parsed => parsed
          | None => Arr [Str trimmed]
          end
        else if (String.length trimmed <=? 20)%nat then splitChars trimmed
        else Arr [Str trimmed]
    | _ => data
    end in
  match data with
  | Arr _ => data
  | Obj fields =>
      if truthy (lookup "arr" fields) then lookup "arr" fields
      else if truthy (lookup "data" fields) then lookup "data" fields
      else if truthy (lookup "values" fields) then lookup "values" fields
      else if truthy (lookup "nodes" fields) then data
      else Arr (Object_values fields)
  | _ => Arr [data]
  end.

(** The test of the tree branch for data given as nested objects:
<<
    !Array.isArray(data) && typeof data === 'object' && data !== null &&
    (data.left || data.right || data.children || data.val || data.value)
>> *)
Definition isObjectTree (data : value) : bool :=
  match data with
  | Obj _ =>
      truthy (field data "left") || truthy (field data "right")
      || truthy (field data "children") || truthy (field data "val")
      || truthy (field data "value")
  | _ => false
  end.

(** The [treeNodes] of the tree branch where it reads the data of the
    step as nested objects: [parseObjectTree(data, null, 0, 0)] on the
    empty [treeNodes].  [None] when the test fails (the data is left to
    the other two cases of the branch, which read arrays), or when the
    recursion has not ended within [fuel]. *)
Definition parse (fuel : nat) (state : value) : option HologramRenderer.store :=
  let data := normalise state in
  if isObjectTree data
  then option_map snd (parseObjectTree fuel data None 0 0 [])
  else None.

End RenderStructure.

(** Ids are places; every child a node lists is a later node, one level
    below, whose parent is the lister; and a parent comes before its
    child. *)
Definition wellLinked (st : HologramRenderer.store) : Prop :=
  map HologramRenderer.id st = seq 0 (List.length st)
  /\ (forall k n c,
        nth_error st k = Some n -> In c (HologramRenderer.children n) ->
        (k < c)%nat
        /\ exists m, nth_error st c = Some m
                     /\ HologramRenderer.parentId m = Some k
                     /\ HologramRenderer.level m = S (HologramRenderer.level n))
  /\ (forall k n p,
        nth_error st k = Some n -> HologramRenderer.parentId n = Some p ->
        (p < k)%nat).

End ObjectTree.

(** ** Sample inputs *)

Module Samples.
Import Js.

(** A stand-in for [JSON.parse] that reads three texts and rejects every
    other one; the texts it rejects below are not JSON. *)
Definition parseLiteral (text : string) : option value :=
  if String.eqb text "[]" then Some (Arr [])
  else if String.eqb text "{}" then Some (Obj [])
  else if String.eqb text "[1,2,3]" then Some (Arr [Num 1; Num 2; Num 3])
  else None.

(** A stand-in for [Number.prototype.toString], right on the numbers used. *)
Definition showNumber (n : float) : string :=
  if PrimFloat.eqb n 1 then "1"
  else if PrimFloat.eqb n 2 then "2"
  else if PrimFloat.eqb n 3 then "3"
  else "0".

(** A step whose [viz.data] and [viz.pointers] are not JSON:
    [{ codeLine: 3, message: "swap", viz: { type: "ARRAY", data: "hello", pointers: "i=2" } }] *)
Definition rawStep : value :=
  Obj [("codeLine", Num 3); ("message", Str "swap");
       ("viz", Obj [("type", Str "ARRAY"); ("data", Str "hello");
                    ("pointers", Str "i=2")])].

(** The level-order array [[1, 2, 3, 4, 5, 6, null, null, 7, null, null, 8]]:
<<
            1
          /   \
         2     3
        / \   /
       4   5 6
        \   /
         7 8
>> *)
Definition unevenTree : list value :=
  [Num 1; Num 2; Num 3; Num 4; Num 5; Num 6; Null; Null; Num 7; Null; Null;
   Num 8].

(** Four blocks in a row; [item-0] was grabbed at (420, 300) and has been
    dragged next to [item-1]: [item-2] is farther but still within 150 of
    it, [item-3] is not. *)
Definition draggedModel : GrabVisualizer.model :=
  {| GrabVisualizer.elementPositions :=
       [("item-0", Some (GrabVisualizer.mkPoint 530 310));
        ("item-1", Some (GrabVisualizer.mkPoint 545 300));
        ("item-2", Some (GrabVisualizer.mkPoint 670 300));
        ("item-3", Some (GrabVisualizer.mkPoint 795 300))];
     GrabVisualizer.grabbedIdRef := Some "item-0";
     GrabVisualizer.grabbedStartPosRef := Some (GrabVisualizer.mkPoint 420 300);
     GrabVisualizer.hoveredIdRef := Some "item-0";
     GrabVisualizer.isPinchingRef := true;
     GrabVisualizer.wasPinchingRef := true;
     GrabVisualizer.currentHandPosRef := Some (GrabVisualizer.mkPoint 575 355) |}.

(** The same row, with [item-0] dragged far below it. *)
Definition strayModel : GrabVisualizer.model :=
  {| GrabVisualizer.elementPositions :=
       [("item-0", Some (GrabVisualizer.mkPoint 530 600));
        ("item-1", Some (GrabVisualizer.mkPoint 545 300));
        ("item-2", Some (GrabVisualizer.mkPoint 670 300));
        ("item-3", Some (GrabVisualizer.mkPoint 795 300))];
     GrabVisualizer.grabbedIdRef := Some "item-0";
     GrabVisualizer.grabbedStartPosRef := Some (GrabVisualizer.mkPoint 420 300);
     GrabVisualizer.hoveredIdRef := Some "item-0";
     GrabVisualizer.isPinchingRef := true;
     GrabVisualizer.wasPinchingRef := true;
     GrabVisualizer.currentHandPosRef := Some (GrabVisualizer.mkPoint 575 645) |}.

(** An open hand: thumb and index tips 0.2 apart. *)
Definition openThumb : GrabVisualizer.landmark := GrabVisualizer.mkLandmark 0.5 0.5.
Definition openIndex : GrabVisualizer.landmark := GrabVisualizer.mkLandmark 0.5 0.3.

(** A second step of the same response, with [viz.data] a JSON text and no
    pointers. *)
Definition sortedStep : value :=
  Obj [("codeLine", Num 7); ("message", Str "done");
       ("viz", Obj [("type", Str "LIST"); ("data", Str "[1,2,3]")])].

(** A step without [viz]. *)
Definition bareStep : value :=
  Obj [("codeLine", Num 9); ("message", Str "return")].

(** A stand-in for [JSON.parse] that also reads two response bodies:
    ["good"] stands for the text of [[rawStep, sortedStep]] and ["bad"] for
    the text of [[rawStep, bareStep, sortedStep]]. *)
Definition parseBody (text : string) : option value :=
  if String.eqb text "good" then Some (Arr [rawStep; sortedStep])
  else if String.eqb text "bad" then Some (Arr [rawStep; bareStep; sortedStep])
  else parseLiteral text.

(** Three blocks at rest in a row, nothing grabbed. *)
Definition restingModel : GrabVisualizer.model :=
  {| GrabVisualizer.elementPositions :=
       [("item-0", Some (GrabVisualizer.mkPoint 420 255));
        ("item-1", Some (GrabVisualizer.mkPoint 545 255));
        ("item-2", Some (GrabVisualizer.mkPoint 670 255))];
     GrabVisualizer.grabbedIdRef := None;
     GrabVisualizer.grabbedStartPosRef := None;
     GrabVisualizer.hoveredIdRef := None;
     GrabVisualizer.isPinchingRef := false;
     GrabVisualizer.wasPinchingRef := false;
     GrabVisualizer.currentHandPosRef := None |}.

(** A pinch: thumb and index tips 0.02 apart, over the middle of the
    canvas and over its right part. *)
Definition pinchedThumb : GrabVisualizer.landmark := GrabVisualizer.mkLandmark 0.5 0.5.
Definition pinchedIndex : GrabVisualizer.landmark := GrabVisualizer.mkLandmark 0.5 0.52.
Definition movedThumb : GrabVisualizer.landmark := GrabVisualizer.mkLandmark 0.3 0.5.
Definition movedIndex : GrabVisualizer.landmark := GrabVisualizer.mkLandmark 0.3 0.52.

(** Grab [item-0], drag it to the right for three frames, let go. *)
Definition dragFrames : list GrabSession.frame :=
  [GrabSession.Hand 1000 600 pinchedThumb pinchedIndex;
   GrabSession.Hand 1000 600 movedThumb movedIndex;
   GrabSession.Hand 1000 600 movedThumb movedIndex;
   GrabSession.Hand 1000 600 movedThumb movedIndex;
   GrabSession.Hand 1000 600 openThumb openIndex].

(** Stand-ins for [String.prototype.match] with the two patterns of
    [parse429RetryDelayMs] and for [parseFloat], right on the messages
    used, and a request that is rejected with a quota error every time:
    the first message holds no number followed by an [s]. *)
Definition matchSeconds (msg : string) : option string :=
  if String.eqb msg "429 RESOURCE_EXHAUSTED. Please retry in 12.5s."
  then Some "12.5"
  else None.

Definition parseFloat (digits : string) : float :=
  if String.eqb digits "12.5" then 12.5%float else nan.

Definition quotaReplies (attempt : nat) : Retry.settled string string :=
  match attempt with
  | O => Retry.Rejected "429 Too Many Requests"
  | S _ => Retry.Rejected "429 RESOURCE_EXHAUSTED. Please retry in 12.5s."
  end.

(** Grab [item-0] and drag it; the hand leaves the view, then comes back
    open. *)
Definition interruptedFrames : list GrabSession.frame :=
  [GrabSession.Hand 1000 600 pinchedThumb pinchedIndex;
   GrabSession.Hand 1000 600 movedThumb movedIndex;
   GrabSession.NoHand;
   GrabSession.Hand 1000 600 openThumb openIndex].

(** Grab [item-0] and pull it far to the right; the document reports
    [item-1] within snapping distance in the last frame. *)
Definition slotFrames : list SlotDrag.frame :=
  [SlotDrag.Hand pinchedThumb pinchedIndex (Some "item-0") [];
   SlotDrag.Hand movedThumb movedIndex (Some "item-0") [];
   SlotDrag.Hand (GrabVisualizer.mkLandmark (-2) 0.5)
                 (GrabVisualizer.mkLandmark (-2) 0.52) None ["item-1"]].

(** A tree as nested objects:
    [{ val: 1, left: { val: 2 }, right: { val: 3, children: [{ value: 4 }, null, 5] } }] *)
Definition nestedTree : value :=
  Obj [("val", Num 1);
       ("left", Obj [("val", Num 2)]);
       ("right", Obj [("val", Num 3);
                      ("children", Arr [Obj [("value", Num 4)]; Null; Num 5])])].

(** The same tree as the state of a step gives it: [{ data: tree }]. *)
Definition wrappedTree : value := Obj [("data", nestedTree)].

End Samples.

(* ===================================================================== *)
(** * Part II: the properties                                             *)
(* ===================================================================== *)

(** ** Playback cursor *)

Section AlgoVisionCursor.

Variable AnimationStep : Type.

Lemma av_fire_steps (s : AlgoVision.state AnimationStep) (c : AlgoVision.control) :
  AlgoVision.steps (AlgoVision.fire s c) = AlgoVision.steps s.
Proof.
  destruct c; cbn; try reflexivity.
  unfold AlgoVision.timerTick.
  destruct (AlgoVision.isPlaying s && _)%bool; [|reflexivity].
  destruct (_ >=? _)%Z; reflexivity.
Qed.

Lemma av_fire_length (s : AlgoVision.state AnimationStep) (c : AlgoVision.control) :
  AlgoVision.stepsLength (AlgoVision.fire s c) = AlgoVision.stepsLength s.
Proof. unfold AlgoVision.stepsLength. now rewrite av_fire_steps. Qed.

Lemma av_fire_in_range (s : AlgoVision.state AnimationStep) (c : AlgoVision.control) :
  AlgoVision.inRange s -> AlgoVision.inRange (AlgoVision.fire s c).
Proof.
  unfold AlgoVision.inRange. intros H.
  rewrite av_fire_length.
  destruct c; cbn.
  - unfold AlgoVision.stepsLength at 1. cbn. fold (AlgoVision.stepsLength s). lia.
  - lia.
  - exact H.
  - unfold AlgoVision.timerTick.
    destruct (AlgoVision.isPlaying s && _)%bool; [|exact H].
    destruct (Z.geb_spec (AlgoVision.currentStepIdx s) (AlgoVision.stepsLength s - 1));
      cbn; lia.
Qed.

Lemma av_run_in_range (cs : list AlgoVision.control) :
  forall s : AlgoVision.state AnimationStep,
    AlgoVision.inRange s ->
    AlgoVision.inRange (AlgoVision.run s cs)
    /\ AlgoVision.steps (AlgoVision.run s cs) = AlgoVision.steps s.
Proof.
  induction cs as [|c cs IH]; intros s H; cbn.
  - split; [exact H | reflexivity].
  - destruct (IH (AlgoVision.fire s c) (av_fire_in_range s c H)) as [Hr Hs].
    split; [exact Hr|]. unfold AlgoVision.run in Hs. rewrite Hs. apply av_fire_steps.
Qed.

End AlgoVisionCursor.

Section HologramCursor.

Variable SimulationStep : Type.

Lemma holo_fire_in_range m (s : Hologram.state SimulationStep)
  (c : Hologram.control) :
  Hologram.inRange m s -> Hologram.inRange m (Hologram.fire s c).
Proof.
  unfold Hologram.inRange. intros [Hm H].
  destruct c; cbn.
  - unfold Hologram.hologramNextStep. rewrite Hm. cbn. split; [exact Hm|].
    destruct (Z.ltb_spec (Hologram.currentStepIndex s) (Hologram.stepsLength m - 1)); lia.
  - unfold Hologram.hologramPrevStep. cbn. split; [exact Hm|].
    destruct (Z.gtb_spec (Hologram.currentStepIndex s) 0); lia.
  - split; [exact Hm | exact H].
  - unfold Hologram.timerTick. rewrite Hm.
    destruct (Hologram.isHologramPlaying s); [|split; [exact Hm | exact H]].
    destruct (Z.ltb_spec (Hologram.currentStepIndex s) (Hologram.stepsLength m - 1));
      cbn; (split; [exact Hm | lia]).
Qed.

Lemma holo_run_in_range m (cs : list Hologram.control) :
  forall s : Hologram.state SimulationStep,
    Hologram.inRange m s -> Hologram.inRange m (Hologram.run s cs).
Proof.
  induction cs as [|c cs IH]; intros s H; cbn.
  - exact H.
  - apply IH, holo_fire_in_range, H.
Qed.

End HologramCursor.

(** C1. Cursor clamping.  For a loaded sequence of length [L >= 1] and a
    cursor in [0, L-1], any finite sequence of next, prev, play/pause and
    clock-tick operations leaves the cursor in [0, L-1] (and the sequence as
    it was); next at the last index leaves the cursor at [L-1] and prev at
    index 0 leaves it at 0.  This holds for the AlgoVision page (buttons
    with [Math.min]/[Math.max]) and for the hologram engine
    ([hologramNextStep]/[hologramPrevStep]). *)
Theorem cursor_clamped
  (Step : Type) (sequence : list Step) (c : Z)
  (playing loading : bool) (title kind : string) (speed : Z)
  (avOps : list AlgoVision.control) (holoOps : list Hologram.control) :
  (1 <= Z.of_nat (List.length sequence))%Z ->
  (0 <= c <= Z.of_nat (List.length sequence) - 1)%Z ->
  (* AlgoVision *)
  ((0 <= AlgoVision.currentStepIdx
           (AlgoVision.run (AlgoVision.mkState sequence c playing loading) avOps)
      <= Z.of_nat (List.length sequence) - 1)%Z
   /\ AlgoVision.steps
        (AlgoVision.run (AlgoVision.mkState sequence c playing loading) avOps)
      = sequence
   /\ AlgoVision.currentStepIdx
        (AlgoVision.nextClick
           (AlgoVision.mkState sequence (Z.of_nat (List.length sequence) - 1)
              playing loading))
      = (Z.of_nat (List.length sequence) - 1)%Z
   /\ AlgoVision.currentStepIdx
        (AlgoVision.prevClick (AlgoVision.mkState sequence 0 playing loading))
      = 0%Z)
  /\
  (* hologram engine *)
  ((0 <= Hologram.currentStepIndex
           (Hologram.run
              (Hologram.mkState (Some (Hologram.mkMetadata title kind sequence))
                 c playing loading speed) holoOps)
      <= Z.of_nat (List.length sequence) - 1)%Z
   /\ Hologram.algoMetadata
        (Hologram.run
           (Hologram.mkState (Some (Hologram.mkMetadata title kind sequence))
              c playing loading speed) holoOps)
      = Some (Hologram.mkMetadata title kind sequence)
   /\ Hologram.currentStepIndex
        (Hologram.hologramNextStep
           (Hologram.mkState (Some (Hologram.mkMetadata title kind sequence))
              (Z.of_nat (List.length sequence) - 1) playing loading speed))
      = (Z.of_nat (List.length sequence) - 1)%Z
   /\ Hologram.currentStepIndex
        (Hologram.hologramPrevStep
           (Hologram.mkState (Some (Hologram.mkMetadata title kind sequence))
              0 playing loading speed))
      = 0%Z).
Proof.
  intros HL Hc. split.
  - destruct (av_run_in_range Step avOps
                (AlgoVision.mkState sequence c playing loading)) as [Hr Hs].
    { unfold AlgoVision.inRange, AlgoVision.stepsLength. cbn. exact Hc. }
    unfold AlgoVision.inRange, AlgoVision.stepsLength in Hr. rewrite Hs in Hr. cbn in Hr.
    repeat split; try (apply Hr); try exact Hs.
    + cbn. unfold AlgoVision.stepsLength. cbn. lia.
  - pose proof (holo_run_in_range Step (Hologram.mkMetadata title kind sequence)
                  holoOps
                  (Hologram.mkState (Some (Hologram.mkMetadata title kind sequence))
                     c playing loading speed)) as H.
    destruct H as [Hm Hr].
    { split; [reflexivity|]. unfold Hologram.stepsLength. cbn. exact Hc. }
    unfold Hologram.stepsLength in Hr. cbn in Hr.
    repeat split; try (apply Hr); try exact Hm.
    + unfold Hologram.hologramNextStep, Hologram.stepsLength. cbn.
      rewrite Z.ltb_irrefl. reflexivity.
Qed.

Lemma cursor_clamped_witness :
  (0 <= AlgoVision.currentStepIdx
          (AlgoVision.run (AlgoVision.mkState [tt; tt; tt] 1 true false)
             [AlgoVision.Next; AlgoVision.Next; AlgoVision.Tick;
              AlgoVision.Prev; AlgoVision.PlayPause; AlgoVision.Tick])
     <= 2)%Z
  /\ (0 <= Hologram.currentStepIndex
             (Hologram.run
                (Hologram.mkState
                   (Some (Hologram.mkMetadata "Bubble Sort" "Array" [tt; tt; tt]))
                   1 true false 1000)
                [Hologram.Next; Hologram.Next; Hologram.Next; Hologram.Tick;
                 Hologram.Prev])
        <= 2)%Z.
Proof.
  pose proof (cursor_clamped unit [tt; tt; tt] 1 true false
                "Bubble Sort" "Array" 1000
                [AlgoVision.Next; AlgoVision.Next; AlgoVision.Tick;
                 AlgoVision.Prev; AlgoVision.PlayPause; AlgoVision.Tick]
                [Hologram.Next; Hologram.Next; Hologram.Next; Hologram.Tick;
                 Hologram.Prev]) as H.
  cbn [List.length Z.of_nat] in H.
  destruct H as [[Ha _] [Hh _]]; [cbn; lia | cbn; lia |].
  split; [exact Ha | exact Hh].
Defined.

(** ** Loading a new sequence *)

(** C2, as the specification states it, fails: a completed load does not
    stop auto-play.  [handleRun] receiving one step, on a paused page,
    leaves [isPlaying] set; so does [handleHologramAnalyze]. *)
Lemma load_does_not_stop_autoplay :
  ~ (AlgoVision.currentStepIdx
       (fst (AlgoVision.handleRun (AlgoVision.mkState [tt; tt] 1 false true)
               (AlgoVision.Resolved [tt]))) = 0%Z
     /\ AlgoVision.isPlaying
          (fst (AlgoVision.handleRun (AlgoVision.mkState [tt; tt] 1 false true)
                  (AlgoVision.Resolved [tt]))) = false)
  /\
  ~ (Hologram.currentStepIndex
       (fst (Hologram.handleHologramAnalyze
               (Hologram.mkState None 0 false true 1000)
               (Hologram.Resolved (Hologram.mkMetadata "Binary Search" "Array" [tt]))))
     = 0%Z
     /\ Hologram.isHologramPlaying
          (fst (Hologram.handleHologramAnalyze
                  (Hologram.mkState None 0 false true 1000)
                  (Hologram.Resolved (Hologram.mkMetadata "Binary Search" "Array" [tt]))))
        = false).
Proof. split; cbn; intros [_ H]; discriminate H. Qed.

(** C2, amended.  After a load completes the new sequence is the loaded
    one and the cursor is 0, whatever the state was, and auto-play is
    started rather than stopped: [handleHologramAnalyze] always sets
    [isHologramPlaying]; [handleRun] sets [isPlaying] when the new sequence
    has a step and leaves it as it was when the sequence is empty.  Both
    clear the loading flag and write nothing else. *)
Theorem load_resets_cursor_and_starts_autoplay
  (Step : Type)
  (s : AlgoVision.state Step) (resultSteps : list Step)
  (h : Hologram.state Step) (result : Hologram.AlgorithmMetadata Step) :
  AlgoVision.handleRun s (AlgoVision.Resolved resultSteps)
  = (AlgoVision.mkState resultSteps 0
       (match resultSteps with [] => AlgoVision.isPlaying s | _ :: _ => true end)
       false, [])
  /\
  Hologram.handleHologramAnalyze h (Hologram.Resolved result)
  = (Hologram.mkState (Some result) 0 true false (Hologram.playbackSpeed h), []).
Proof.
  split; [|reflexivity].
  destruct resultSteps; reflexivity.
Qed.

(** ** The empty sequence *)

Section EmptySequence.

Variable Step : Type.

(** X5. In the hologram engine, with an empty sequence loaded (or none),
    next, prev and every value the scrubber offers leave a cursor at 0
    where it is. *)
Lemma hologram_empty_noop (h : Hologram.state Step) (i : Z) :
  Hologram.totalSteps h = 0%Z ->
  Hologram.currentStepIndex h = 0%Z ->
  Hologram.sliderOffers h i ->
  Hologram.currentStepIndex (Hologram.hologramNextStep h) = 0%Z
  /\ Hologram.currentStepIndex (Hologram.hologramPrevStep h) = 0%Z
  /\ Hologram.currentStepIndex (Hologram.onSeek h i) = 0%Z.
Proof.
  unfold Hologram.sliderOffers, Hologram.sliderMax.
  intros Ht Hc Hi. rewrite Ht in Hi. cbn in Hi.
  unfold Hologram.hologramNextStep, Hologram.hologramPrevStep, Hologram.onSeek.
  unfold Hologram.totalSteps in Ht.
  repeat split.
  - destruct (Hologram.algoMetadata h) as [m|]; [|exact Hc].
    cbn. rewrite Ht, Hc. reflexivity.
  - cbn. rewrite Hc. reflexivity.
  - cbn. lia.
Qed.

(** On the AlgoVision page, prev leaves a cursor at 0 where it is, and the
    clock never fires on an empty sequence. *)
Lemma algovision_empty_prev_tick (playing loading : bool) :
  AlgoVision.prevClick (AlgoVision.mkState (@nil Step) 0 playing loading)
  = AlgoVision.mkState [] 0 false loading
  /\ AlgoVision.timerTick (AlgoVision.mkState (@nil Step) 0 playing loading)
     = AlgoVision.mkState [] 0 playing loading.
Proof.
  split; [reflexivity|].
  unfold AlgoVision.timerTick. cbn. rewrite andb_false_r. reflexivity.
Qed.

End EmptySequence.

Lemma hologram_empty_noop_witness :
  Hologram.currentStepIndex
    (Hologram.hologramNextStep
       (Hologram.mkState
          (Some (Hologram.mkMetadata "Bubble Sort" "Array" (@nil unit)))
          0 true false 1000)) = 0%Z
  /\ Hologram.currentStepIndex
       (Hologram.hologramPrevStep
          (Hologram.mkState
             (Some (Hologram.mkMetadata "Bubble Sort" "Array" (@nil unit)))
             0 true false 1000)) = 0%Z
  /\ Hologram.currentStepIndex
       (Hologram.onSeek
          (Hologram.mkState
             (Some (Hologram.mkMetadata "Bubble Sort" "Array" (@nil unit)))
             0 true false 1000) 0) = 0%Z.
Proof.
  apply (hologram_empty_noop unit
           (Hologram.mkState
              (Some (Hologram.mkMetadata "Bubble Sort" "Array" (@nil unit)))
              0 true false 1000) 0).
  - reflexivity.
  - reflexivity.
  - unfold Hologram.sliderOffers. cbn. lia.
Defined.

(** C3 fails on the AlgoVision page: with no step loaded and the cursor at
    0, the next button computes [Math.min(0 - 1, 0 + 1)] and moves the
    cursor to -1. *)
Theorem algovision_next_on_empty_moves_cursor :
  AlgoVision.currentStepIdx
    (AlgoVision.nextClick (AlgoVision.mkState (@nil unit) 0 false false))
  = (-1)%Z.
Proof. reflexivity. Qed.

(** ** [simulateCode] and a response that is not JSON *)

Section SimulateCodeFacts.
Import Js.

Variable JSON_parse : string -> option value.
Variable numberToString : float -> string.

Lemma lookup_assign_same k v fields : lookup k (assign k v fields) = v.
Proof.
  induction fields as [|[k' v'] rest IH]; cbn.
  - now rewrite String.eqb_refl.
  - destruct (String.eqb k k') eqn:E; cbn.
    + now rewrite String.eqb_refl.
    + now rewrite E.
Qed.

Lemma lookup_assign_other k k' v fields :
  String.eqb k k' = false -> lookup k (assign k' v fields) = lookup k fields.
Proof.
  intros Hk. induction fields as [|[k0 v0] rest IH]; cbn.
  - now rewrite Hk.
  - destruct (String.eqb k' k0) eqn:E; cbn.
    + apply String.eqb_eq in E. subst k0. now rewrite Hk.
    + destruct (String.eqb k k0); [reflexivity | exact IH].
Qed.

(** On a response that has a text, both copies are the [try] statement on
    that text. *)
Lemma simulateCode_text typeTag text :
  GeminiService.simulateCode JSON_parse numberToString typeTag
    (GeminiService.ResponseText text)
  = match GeminiService.parseSteps JSON_parse numberToString typeTag text with
    | Return processedSteps => (AlgoVision.Resolved processedSteps, [])
    | Throw _ =>
        (AlgoVision.Resolved [],
         [AlgoVision.ConsoleError "Failed to parse Gemini response"])
    end.
Proof. destruct typeTag; reflexivity. Qed.

(** A step whose [viz] can be read is processed without an error, whatever
    its [data] and [pointers] hold. *)
Lemma processStep_returns typeTag s d :
  GeminiService.vizField s "data" = Return d ->
  exists parsedData parsedPointers viz,
    get s "viz" = Return viz
    /\ tryCatch (bind (GeminiService.vizField s "data")
                   (fun d0 => GeminiService.parse JSON_parse numberToString d0))
                (GeminiService.vizField s "data") = Return parsedData
    /\ tryCatch (bind (GeminiService.vizField s "pointers")
                   (fun p => if truthy p
                             then GeminiService.parse JSON_parse numberToString p
                             else Return (Obj [])))
                (Return (Obj [])) = Return parsedPointers
    /\ GeminiService.processStep JSON_parse numberToString typeTag s
       = Return (Obj (assign "viz"
                        (Obj (assign "pointers" parsedPointers
                                (assign "data" parsedData
                                   (match typeTag with
                                    | Some t => assign "type" (Str t) (spread viz)
                                    | None => spread viz
                                    end))))
                        (spread s))).
Proof.
  unfold GeminiService.vizField, GeminiService.processStep. intros Hd.
  destruct (get s "viz") as [viz|e] eqn:Hviz; [|discriminate Hd].
  cbn in Hd. cbn [bind].
  assert (Hpd : exists parsedData,
             tryCatch (bind (get viz "data")
                         (fun d0 => GeminiService.parse JSON_parse numberToString d0))
                      (get viz "data") = Return parsedData).
  { rewrite Hd. cbn. destruct (GeminiService.parse _ _ d); cbn; eauto. }
  destruct Hpd as [pd Hpd].
  assert (Hpp : exists parsedPointers,
             tryCatch (bind (get viz "pointers")
                         (fun p => if truthy p
                                   then GeminiService.parse JSON_parse numberToString p
                                   else Return (Obj [])))
                      (Return (Obj [])) = Return parsedPointers).
  { destruct (bind (get viz "pointers") _); cbn; eauto. }
  destruct Hpp as [pp Hpp].
  exists pd, pp, viz. split; [reflexivity|]. split; [exact Hpd|]. split; [exact Hpp|].
  unfold GeminiService.vizField. rewrite Hviz. cbn [bind].
  rewrite Hpd, Hpp. cbn [bind]. reflexivity.
Qed.

End SimulateCodeFacts.

(** ** A failed analysis *)




(** ** Rows of blocks *)

Section RowFacts.
Import RowLayout.
Local Open Scope Q_scope.

Lemma ofNat_pos (n : nat) : (1 <= n)%nat -> 0 <= ofNat n - 1.
Proof.
  intros Hn. unfold ofNat.
  assert (H : inject_Z 1 <= inject_Z (Z.of_nat n)) by (rewrite <- Zle_Qle; lia).
  change (inject_Z 1) with 1 in H. lra.
Qed.

(** The hologram renderer centers the row on 0. *)
Lemma arrayX_centered (n idx : nat) :
  (1 <= n)%nat ->
  arrayX n idx == 0 + ofNat idx * spacing - (ofNat n - 1) * spacing / 2.
Proof.
  intros Hn. unfold arrayX, arrStartX.
  rewrite (Q.max_l _ _ (ofNat_pos n Hn)). unfold spacing. field.
Qed.

End RowFacts.

(** C6, as the specification states it, fails in the grab-and-swap
    visualizer: on a canvas 1000 wide there is no anchor [a] that puts
    element [i] of every row at [a + i*p - (n-1)*p/2].  A row of one block
    starts at 455 (centered), a row of five at 420 (the left limit), and
    the formula would need [a = 455] and [a = 670]. *)
Lemma grab_row_has_no_fixed_anchor :
  ~ exists a : Q,
      forall n i : nat, (i < n)%nat ->
        (RowLayout.Grab.baseX n 1000 i
         == a + RowLayout.ofNat i * (RowLayout.Grab.blockW + RowLayout.Grab.gap)
            - (RowLayout.ofNat n - 1)
              * (RowLayout.Grab.blockW + RowLayout.Grab.gap) / 2)%Q.
Proof.
  intros [a H].
  pose proof (H 1%nat 0%nat ltac:(lia)) as H1.
  pose proof (H 5%nat 0%nat ltac:(lia)) as H5.
  assert (E1 : (RowLayout.Grab.baseX 1 1000 0 == 455)%Q) by (vm_compute; reflexivity).
  assert (E5 : (RowLayout.Grab.baseX 5 1000 0 == 420)%Q) by (vm_compute; reflexivity).
  rewrite E1 in H1. rewrite E5 in H5.
  unfold RowLayout.ofNat, RowLayout.Grab.blockW, RowLayout.Grab.gap in H1, H5.
  cbn [Z.of_nat Pos.of_succ_nat Pos.succ] in H1, H5.
  change (inject_Z 0) with 0%Q in H1, H5.
  change (inject_Z 1) with 1%Q in H1.
  change (inject_Z 5) with 5%Q in H5.
  assert (A1 : (a == 455)%Q) by (rewrite H1; field).
  assert (A5 : (a == 670)%Q).
  { setoid_replace a with (420 + (5 - 1) * (90 + 35) / 2)%Q;
      [reflexivity | rewrite H5; field]. }
  rewrite A1 in A5. discriminate A5.
Qed.

(** C6, amended.  For a row of [n >= 1] elements:
    - the hologram renderer (pitch 90) puts element [i] at
      [0 + i*p - (n-1)*p/2]: the row is centered on 0;
    - the grab-and-swap visualizer (pitch 125) puts the left edge of
      element [i] at [startX + i*p] with
      [startX = max(0.42*width, (width - totalWidth)/2)]: while the
      centered start is not left of [0.42*width] the center of element [i]
      is at [width/2 + i*p - (n-1)*p/2], otherwise the row starts at
      [0.42*width];
    - the slot-offset visualizer (pitch 74) does the same with the limit
      [0.45*width] and the anchor [0.675*width], the middle of the band from
      [0.4*width] to [0.95*width]. *)
Theorem row_layout_formulas (n i : nat) (width : Q) :
  (1 <= n)%nat ->
  (RowLayout.arrayX n i
   == 0 + RowLayout.ofNat i * RowLayout.spacing
        - (RowLayout.ofNat n - 1) * RowLayout.spacing / 2)%Q
  /\
  ((width * 0.42 <= RowLayout.Grab.centeredStart n width)%Q ->
   (RowLayout.Grab.baseX n width i + RowLayout.Grab.blockW / 2
    == width / 2
       + RowLayout.ofNat i * (RowLayout.Grab.blockW + RowLayout.Grab.gap)
       - (RowLayout.ofNat n - 1)
         * (RowLayout.Grab.blockW + RowLayout.Grab.gap) / 2)%Q)
  /\
  ((RowLayout.Grab.centeredStart n width <= width * 0.42)%Q ->
   (RowLayout.Grab.baseX n width i
    == width * 0.42
       + RowLayout.ofNat i * (RowLayout.Grab.blockW + RowLayout.Grab.gap))%Q)
  /\
  ((width * 0.45 <= RowLayout.Slot.centeredStart n width)%Q ->
   (RowLayout.Slot.baseX n width i + RowLayout.Slot.blockW / 2
    == width * 0.675
       + RowLayout.ofNat i * (RowLayout.Slot.blockW + RowLayout.Slot.gap)
       - (RowLayout.ofNat n - 1)
         * (RowLayout.Slot.blockW + RowLayout.Slot.gap) / 2)%Q)
  /\
  ((RowLayout.Slot.centeredStart n width <= width * 0.45)%Q ->
   (RowLayout.Slot.baseX n width i
    == width * 0.45
       + RowLayout.ofNat i * (RowLayout.Slot.blockW + RowLayout.Slot.gap))%Q).
Proof.
  intros Hn. split; [exact (arrayX_centered n i Hn)|].
  split; [|split; [|split]].
  - intros H. unfold RowLayout.Grab.baseX, RowLayout.Grab.startX.
    rewrite (Q.max_r _ _ H).
    unfold RowLayout.Grab.centeredStart, RowLayout.Grab.totalWidth,
      RowLayout.Grab.blockW, RowLayout.Grab.gap. field.
  - intros H. unfold RowLayout.Grab.baseX, RowLayout.Grab.startX.
    rewrite (Q.max_l _ _ H). reflexivity.
  - intros H. unfold RowLayout.Slot.baseX, RowLayout.Slot.startX.
    rewrite (Q.max_r _ _ H).
    unfold RowLayout.Slot.centeredStart, RowLayout.Slot.totalWidth,
      RowLayout.Slot.blockW, RowLayout.Slot.gap. field.
  - intros H. unfold RowLayout.Slot.baseX, RowLayout.Slot.startX.
    rewrite (Q.max_l _ _ H). reflexivity.
Qed.

Lemma row_layout_formulas_witness :
  (RowLayout.arrayX 5 0 == 0 + RowLayout.ofNat 0 * RowLayout.spacing
                           - (RowLayout.ofNat 5 - 1) * RowLayout.spacing / 2)%Q
  /\ (RowLayout.Grab.baseX 5 1000 0
      == 1000 * 0.42
         + RowLayout.ofNat 0 * (RowLayout.Grab.blockW + RowLayout.Grab.gap))%Q.
Proof.
  destruct (row_layout_formulas 5 0 1000) as (Ha & _ & Hclamp & _).
  - lia.
  - split; [exact Ha|]. apply Hclamp. vm_compute. discriminate.
Defined.

(** ** Order of binary64 numbers *)

Section FloatOrder.
Local Open Scope float_scope.

Lemma SFcompare_antisym (a b : spec_float) :
  SFcompare b a = option_map CompOpp (SFcompare a b).
Proof.
  destruct a as [s1|s1| |s1 m1 e1], b as [s2|s2| |s2 m2 e2]; cbn;
    try reflexivity; try (destruct s1; reflexivity);
    try (destruct s2; reflexivity); try (destruct s1, s2; reflexivity).
  pose proof (Pos.compare_cont_antisym m1 m2 Eq) as A; cbn [CompOpp] in A.
  destruct s1, s2; cbn; try reflexivity;
    rewrite (Z.compare_antisym e2 e1); destruct (e2 ?= e1)%Z; cbn;
    try reflexivity;
    rewrite <- A; destruct (Pos.compare_cont Eq m1 m2); reflexivity.
Qed.

Lemma SFcompare_lt_trans (a b c : spec_float) :
  SFcompare a b = Some Lt -> SFcompare b c = Some Lt ->
  SFcompare a c = Some Lt.
Proof.
  destruct a as [s1|s1| |s1 m1 e1], b as [s2|s2| |s2 m2 e2],
           c as [s3|s3| |s3 m3 e3];
    cbn; try discriminate; try (destruct s1; discriminate);
    try (destruct s1, s2, s3; (discriminate || reflexivity || idtac)).
  all: change (Pos.compare_cont Eq) with Pos.compare.
  all: intros H1 H2; injection H1 as H1; injection H2 as H2; f_equal.
  all: destruct (Z.compare_spec e1 e2), (Z.compare_spec e2 e3);
       try discriminate;
       destruct (Z.compare_spec e1 e3); try lia; try reflexivity; subst.
  all: destruct (Pos.compare_spec m1 m2), (Pos.compare_spec m2 m3);
       try discriminate;
       destruct (Pos.compare_spec m1 m3); try lia; try reflexivity.
Qed.

Lemma SFcompare_refl (a : spec_float) :
  SFcompare a a = Some Eq \/ SFcompare a a = None.
Proof.
  destruct a as [s|s| |s m e]; cbn; auto; left.
  - destruct s; reflexivity.
  - rewrite Z.compare_refl, Pos.compare_cont_refl. destruct s; reflexivity.
Qed.

Lemma SFcompare_some (a b : spec_float) :
  a <> S754_nan -> b <> S754_nan -> exists c, SFcompare a b = Some c.
Proof. destruct a, b; cbn; intros Ha Hb; try congruence; eauto. Qed.

Lemma is_nan_Prim2SF (a : float) :
  PrimFloat.is_nan a = false -> Prim2SF a <> S754_nan.
Proof.
  unfold PrimFloat.is_nan. rewrite FloatAxioms.eqb_spec. intros H E.
  rewrite E in H. cbn in H. discriminate.
Qed.

(** [<] is transitive. *)
Lemma ltb_trans (a b c : float) :
  (a <? b) = true -> (b <? c) = true -> (a <? c) = true.
Proof.
  rewrite !FloatAxioms.ltb_spec. unfold SFltb.
  destruct (SFcompare (Prim2SF a) (Prim2SF b)) as [[| |]|] eqn:E1;
    try discriminate.
  destruct (SFcompare (Prim2SF b) (Prim2SF c)) as [[| |]|] eqn:E2;
    try discriminate.
  intros _ _. now rewrite (SFcompare_lt_trans _ _ _ E1 E2).
Qed.

(** [<] is irreflexive. *)
Lemma ltb_irrefl (a : float) : (a <? a) = false.
Proof.
  rewrite FloatAxioms.ltb_spec. unfold SFltb.
  destruct (SFcompare_refl (Prim2SF a)) as [E|E]; now rewrite E.
Qed.


(** At or above is never below. *)
Lemma leb_ltb_false (a b : float) : (b <=? a) = true -> (a <? b) = false.
Proof.
  rewrite FloatAxioms.ltb_spec, FloatAxioms.leb_spec. unfold SFltb, SFleb.
  rewrite (SFcompare_antisym (Prim2SF a) (Prim2SF b)).
  destruct (SFcompare (Prim2SF a) (Prim2SF b)) as [[| |]|]; cbn; congruence.
Qed.

End FloatOrder.

(** ** Pinch hysteresis *)





(** ** Releasing a grabbed block *)

Section EntryFacts.
Import GrabVisualizer.
Local Open Scope list_scope.

Lemma ge_lookup_assign_same id e es :
  lookupEntry id (assignEntry id e es) = Some e.
Proof.
  induction es as [|[k q] rest IH]; cbn.
  - now rewrite String.eqb_refl.
  - destruct (String.eqb id k) eqn:E; cbn.
    + now rewrite String.eqb_refl.
    + now rewrite E.
Qed.

Lemma ge_lookup_assign_other id id' e es :
  id <> id' -> lookupEntry id (assignEntry id' e es) = lookupEntry id es.
Proof.
  intros Hne. apply String.eqb_neq in Hne.
  induction es as [|[k q] rest IH]; cbn.
  - now rewrite Hne.
  - destruct (String.eqb id' k) eqn:E; cbn.
    + apply String.eqb_eq in E. subst k. now rewrite Hne.
    + destruct (String.eqb id k); [reflexivity | exact IH].
Qed.

Lemma ge_keys_assign id e es :
  In id (map fst es) -> map fst (assignEntry id e es) = map fst es.
Proof.
  induction es as [|[k q] rest IH]; cbn; [contradiction|].
  destruct (String.eqb_spec id k) as [->|Hne]; [reflexivity|].
  intros [E|Hin]; [congruence|]. cbn. now rewrite IH.
Qed.

Lemma readEntries_placed ps : readEntries (placed ps) = Js.Return ps.
Proof.
  induction ps as [|[k p] rest IH]; cbn; [reflexivity|].
  unfold placed in IH. now rewrite IH.
Qed.

Lemma readEntries_returns es ps :
  readEntries es = Js.Return ps -> es = placed ps.
Proof.
  revert ps. induction es as [|[k [p|]] rest IH]; cbn; intros ps H.
  - now inversion H.
  - destruct (readEntries rest) as [ps'|e]; cbn in H; [|discriminate].
    inversion H; subst. cbn. now rewrite (IH ps' eq_refl).
  - discriminate.
Qed.

Lemma readEntries_throws es e :
  readEntries es = Js.Throw e -> e = "TypeError".
Proof.
  induction es as [|[k [p|]] rest IH]; cbn; intros H.
  - discriminate.
  - destruct (readEntries rest) as [ps'|e']; cbn in H; [discriminate|].
    inversion H; subst. now apply IH.
  - now inversion H.
Qed.

(** An entry that holds [null] makes the searches throw. *)
Lemma readEntries_null id es :
  lookupEntry id es = Some None -> readEntries es = Js.Throw "TypeError".
Proof.
  induction es as [|[k [p|]] rest IH]; cbn; intros H.
  - discriminate.
  - destruct (String.eqb id k); [discriminate|].
    now rewrite (IH H).
  - reflexivity.
Qed.

Lemma assignEntry_placed id p ps :
  assignEntry id (Some p) (placed ps) = placed (assign id p ps).
Proof.
  induction ps as [|[k q] rest IH]; cbn; [reflexivity|].
  destruct (String.eqb id k); cbn; [reflexivity|].
  unfold placed in IH. now rewrite IH.
Qed.

Lemma lookupEntry_placed id ps :
  lookupEntry id (placed ps) = option_map Some (lookup id ps).
Proof.
  induction ps as [|[k q] rest IH]; cbn; [reflexivity|].
  destruct (String.eqb id k); [reflexivity | exact IH].
Qed.

Lemma keys_placed ps : map fst (placed ps) = map fst ps.
Proof. unfold placed. rewrite map_map. reflexivity. Qed.

End EntryFacts.

Section ReleaseFacts.
Import GrabVisualizer.
Local Open Scope float_scope.
Local Open Scope list_scope.

Lemma gv_lookup_assign_same id p ps : lookup id (assign id p ps) = Some p.
Proof.
  induction ps as [|[k q] rest IH]; cbn.
  - now rewrite String.eqb_refl.
  - destruct (String.eqb id k) eqn:E; cbn.
    + now rewrite String.eqb_refl.
    + now rewrite E.
Qed.

Lemma gv_lookup_assign_other id id' p ps :
  id <> id' -> lookup id (assign id' p ps) = lookup id ps.
Proof.
  intros Hne. apply String.eqb_neq in Hne.
  induction ps as [|[k q] rest IH]; cbn.
  - now rewrite Hne.
  - destruct (String.eqb id' k) eqn:E; cbn.
    + apply String.eqb_eq in E. subst k. now rewrite Hne.
    + destruct (String.eqb id k); [reflexivity | exact IH].
Qed.

Lemma gv_in_lookup id p ps :
  NoDup (map fst ps) -> In (id, p) ps -> lookup id ps = Some p.
Proof.
  induction ps as [|[k q] rest IH]; cbn; intros Hnd Hin; [contradiction|].
  inversion Hnd as [|? ? Hk Hrest]; subst.
  destruct Hin as [E|Hin].
  - inversion E; subst. now rewrite String.eqb_refl.
  - destruct (String.eqb_spec id k) as [->|_].
    + exfalso. apply Hk. now apply (in_map fst) in Hin.
    + now apply IH.
Qed.

Section Search.

Variable grabbedId : string.
Variable grabbedPos : point.

Lemma considerSwap_found seen acc id p :
  found grabbedId grabbedPos seen acc ->
  found grabbedId grabbedPos (seen ++ [(id, p)]) (considerSwap grabbedId grabbedPos acc (id, p)).
Proof.
  intros Hf. unfold considerSwap.
  destruct (String.eqb_spec id grabbedId) as [->|Hne].
  - (* the grabbed block itself is skipped *)
    destruct Hf as [[-> Hnone]|(t & tp & -> & Hin & Ht & Hw & Hmin)].
    + left. split; [reflexivity|]. intros id' p' Hin' Hid'.
      apply in_app_or in Hin'. destruct Hin' as [Hin'|[E|[]]].
      * now apply (Hnone id').
      * inversion E; subst. contradiction.
    + right. exists t, tp. repeat split; auto.
      * apply in_or_app. now left.
      * intros id' p' Hin' Hid' Hw'.
        apply in_app_or in Hin'. destruct Hin' as [Hin'|[E|[]]].
        -- now apply (Hmin id').
        -- inversion E; subst. contradiction.
  - destruct Hf as [[-> Hnone]|(t & tp & -> & Hin & Ht & Hw & Hmin)]; cbn [snd].
    + destruct (distBetween grabbedPos p <? swapRadius) eqn:Hd; cbn [andb].
      * assert (Hinf : (distBetween grabbedPos p <? infinity) = true).
        { apply (ltb_trans _ swapRadius); [exact Hd | reflexivity]. }
        rewrite Hinf. right. exists id, p. repeat split; auto.
        -- apply in_or_app. right. now left.
        -- intros id' p' Hin' Hid' Hw'.
           apply in_app_or in Hin'. destruct Hin' as [Hin'|[E|[]]].
           ++ rewrite (Hnone id' p' Hin' Hid') in Hw'. discriminate.
           ++ inversion E; subst. apply ltb_irrefl.
      * left. split; [reflexivity|]. intros id' p' Hin' Hid'.
        apply in_app_or in Hin'. destruct Hin' as [Hin'|[E|[]]].
        -- now apply (Hnone id').
        -- inversion E; subst. exact Hd.
    + destruct (distBetween grabbedPos p <? swapRadius) eqn:Hd; cbn [andb].
      * destruct (distBetween grabbedPos p <? distBetween grabbedPos tp) eqn:Hlt.
        -- right. exists id, p. repeat split; auto.
           ++ apply in_or_app. right. now left.
           ++ intros id' p' Hin' Hid' Hw'.
              apply in_app_or in Hin'. destruct Hin' as [Hin'|[E|[]]].
              ** destruct (distBetween grabbedPos p' <? distBetween grabbedPos p)
                   eqn:Hlt'; [|reflexivity].
                 rewrite <- (Hmin id' p' Hin' Hid' Hw').
                 symmetry. apply (ltb_trans _ _ _ Hlt' Hlt).
              ** inversion E; subst. apply ltb_irrefl.
        -- right. exists t, tp. repeat split; auto.
           ++ apply in_or_app. now left.
           ++ intros id' p' Hin' Hid' Hw'.
              apply in_app_or in Hin'. destruct Hin' as [Hin'|[E|[]]].
              ** now apply (Hmin id').
              ** inversion E; subst. exact Hlt.
      * right. exists t, tp. repeat split; auto.
        -- apply in_or_app. now left.
        -- intros id' p' Hin' Hid' Hw'.
           apply in_app_or in Hin'. destruct Hin' as [Hin'|[E|[]]].
           ++ now apply (Hmin id').
           ++ inversion E; subst. unfold within in Hw'. rewrite Hd in Hw'.
              discriminate.
Qed.

Lemma fold_considerSwap_found ps :
  forall seen acc,
    found grabbedId grabbedPos seen acc ->
    found grabbedId grabbedPos (seen ++ ps) (fold_left (considerSwap grabbedId grabbedPos) ps acc).
Proof.
  induction ps as [|[id p] rest IH]; intros seen acc Hf; cbn [fold_left].
  - now rewrite app_nil_r.
  - replace (seen ++ (id, p) :: rest) with ((seen ++ [(id, p)]) ++ rest)
      by (rewrite <- app_assoc; reflexivity).
    apply IH, considerSwap_found, Hf.
Qed.

(** The search returns the nearest other block within the swap radius, or
    nothing when no other block is within it. *)
Lemma findSwapTarget_found ps :
  found grabbedId grabbedPos ps (findSwapTarget grabbedId grabbedPos ps).
Proof.
  apply (fold_considerSwap_found ps [] (None, infinity)).
  left. split; [reflexivity|]. intros id p [].
Qed.

End Search.

End ReleaseFacts.

(** C4. Release of a grabbed block.  In a frame where the pinch is released
    while block [g] is grabbed (its position before the grab being [p0]),
    with [gp] the position [g] has been dragged to, the run of the effect
    returns and clears the grab (no grabbed id, no recorded position).  The
    distance it compares is the one between the centres of the blocks (a
    corner moved by 45 each way) and the radius is [(90 + 35) * 1.2 = 150].
    - If some other block is within the radius of [gp], the nearest such
      block [t] is the target: after the render [g] is at the position [t]
      had, [t] is at [p0], and every other block is where it was.
    - If no other block is within the radius, then after the render the
      entry of [g] holds [null] and not [p0]: the updater reads
      [grabbedStartPosRef.current] when React calls it, and the run has
      set that ref to [null] by then.  Every other block is where it was,
      and the next run of the effect with a hand in view throws a
      TypeError on the entry of [g]. *)
Theorem release_swaps_or_loses_position
  (width height : float) (thumb index : GrabVisualizer.landmark)
  (m : GrabVisualizer.model) (g : string) (p0 gp : GrabVisualizer.point)
  (ps : GrabVisualizer.positions) :
  GrabVisualizer.readEntries (GrabVisualizer.elementPositions m) = Js.Return ps ->
  GrabVisualizer.grabbedIdRef m = Some g ->
  GrabVisualizer.grabbedStartPosRef m = Some p0 ->
  GrabVisualizer.wasPinchingRef m = true ->
  GrabVisualizer.nextPinching (GrabVisualizer.isPinchingRef m)
    (GrabVisualizer.pinchDistance thumb index) = false ->
  GrabVisualizer.lookup g ps = Some gp ->
  NoDup (map fst ps) ->
  exists m',
    GrabSession.step m (GrabSession.Hand width height thumb index) = Js.Return m'
    (* the grab state is cleared *)
    /\ GrabVisualizer.grabbedIdRef m' = None
    /\ GrabVisualizer.grabbedStartPosRef m' = None
    (* the distance and the radius *)
    /\ (forall a b,
          GrabVisualizer.distBetween a b
          = JsMath.sqrt
              (JsMath.square (GrabVisualizer.x a + 45 - (GrabVisualizer.x b + 45))
               + JsMath.square
                   (GrabVisualizer.y a + 45 - (GrabVisualizer.y b + 45)))%float)
    /\ GrabVisualizer.swapRadius = 150%float
    (* a block within the radius: swap with the nearest one *)
    /\ ((exists id p, In (id, p) ps /\ id <> g
                      /\ GrabVisualizer.within gp p = true) ->
        exists t tp,
          GrabVisualizer.lookup t ps = Some tp
          /\ t <> g /\ GrabVisualizer.within gp tp = true
          /\ (forall id p, In (id, p) ps -> id <> g ->
                GrabVisualizer.within gp p = true ->
                PrimFloat.ltb (GrabVisualizer.distBetween gp p)
                              (GrabVisualizer.distBetween gp tp) = false)
          /\ GrabVisualizer.lookupEntry g (GrabVisualizer.elementPositions m')
             = Some (Some tp)
          /\ GrabVisualizer.lookupEntry t (GrabVisualizer.elementPositions m')
             = Some (Some p0)
          /\ forall id, id <> g -> id <> t ->
               GrabVisualizer.lookupEntry id (GrabVisualizer.elementPositions m')
               = GrabVisualizer.lookupEntry id (GrabVisualizer.elementPositions m))
    (* no block within the radius: the place of the block is lost *)
    /\ ((forall id p, In (id, p) ps -> id <> g ->
           GrabVisualizer.within gp p = false) ->
        GrabVisualizer.lookupEntry g (GrabVisualizer.elementPositions m')
        = Some None
        /\ (forall id, id <> g ->
              GrabVisualizer.lookupEntry id (GrabVisualizer.elementPositions m')
              = GrabVisualizer.lookupEntry id (GrabVisualizer.elementPositions m))
        /\ forall width' height' thumb' index',
             GrabSession.step m'
               (GrabSession.Hand width' height' thumb' index')
             = Js.Throw "TypeError").
Proof.
  intros Hread Hg Hp0 Hwas Hpinch Hgp Hnd.
  pose proof (findSwapTarget_found g gp ps) as Hf.
  unfold GrabSession.step, GrabVisualizer.onHand.
  rewrite Hread, Hpinch, Hg, Hp0, Hwas.
  cbn [Js.bind andb negb]. unfold GrabVisualizer.release. rewrite Hgp.
  cbn [Js.bind].
  destruct (GrabVisualizer.findSwapTarget g gp ps) as [[t|] d]; cbn [fst].
  - (* [t] is the nearest block within the radius *)
    destruct Hf as [[E _]|(t' & tp & E & Hin & Ht & Hw & Hmin)];
      [discriminate E|].
    inversion E; subst t' d. clear E.
    pose proof (gv_in_lookup t tp _ Hnd Hin) as Hlt. rewrite Hlt.
    eexists. split; [reflexivity|].
    cbn [GrabVisualizer.render GrabVisualizer.grabbedIdRef
         GrabVisualizer.grabbedStartPosRef GrabVisualizer.elementPositions
         GrabVisualizer.applyUpdater].
    split; [reflexivity|]. split; [reflexivity|].
    split; [intros a b; reflexivity|]. split; [reflexivity|].
    split.
    + intros _. exists t, tp. repeat split; auto.
      * rewrite ge_lookup_assign_other by congruence.
        apply ge_lookup_assign_same.
      * apply ge_lookup_assign_same.
      * intros id Hid Hidt.
        rewrite !ge_lookup_assign_other by assumption. reflexivity.
    + intros Hnone. rewrite (Hnone t tp Hin Ht) in Hw. discriminate.
  - (* nothing within the radius *)
    destruct Hf as [[_ Hnone]|(t' & tp & E & _)]; [|discriminate E].
    eexists. split; [reflexivity|].
    cbn [GrabVisualizer.render GrabVisualizer.grabbedIdRef
         GrabVisualizer.grabbedStartPosRef GrabVisualizer.elementPositions
         GrabVisualizer.applyUpdater].
    split; [reflexivity|]. split; [reflexivity|].
    split; [intros a b; reflexivity|]. split; [reflexivity|].
    split.
    + intros (id & p & Hin & Hid & Hw).
      rewrite (Hnone id p Hin Hid) in Hw. discriminate.
    + intros _. split; [apply ge_lookup_assign_same|].
      split; [intros id Hid; now apply ge_lookup_assign_other|].
      intros width' height' thumb' index'.
      unfold GrabVisualizer.onHand.
      cbn [GrabVisualizer.elementPositions].
      rewrite (readEntries_null g) by apply ge_lookup_assign_same.
      reflexivity.
Qed.

(** Four blocks in a row, [item-0] grabbed at (420, 300).  Dropped at
    (530, 310) it is 18.03 from [item-1], 140.4 from [item-2] and 265.2
    from [item-3], and changes places with [item-1].  Dropped at
    (530, 600) it is more than 150 from every block, and its entry becomes
    [null]. *)
Lemma release_swaps_or_loses_position_witness :
  (exists m',
      GrabSession.step Samples.draggedModel
        (GrabSession.Hand 1280 720 Samples.openThumb Samples.openIndex)
      = Js.Return m'
      /\ GrabVisualizer.grabbedIdRef m' = None
      /\ GrabVisualizer.lookupEntry "item-0" (GrabVisualizer.elementPositions m')
         = Some (Some (GrabVisualizer.mkPoint 545 300))
      /\ GrabVisualizer.lookupEntry "item-1" (GrabVisualizer.elementPositions m')
         = Some (Some (GrabVisualizer.mkPoint 420 300))
      /\ GrabVisualizer.lookupEntry "item-3" (GrabVisualizer.elementPositions m')
         = Some (Some (GrabVisualizer.mkPoint 795 300)))
  /\ (exists m',
         GrabSession.step Samples.strayModel
           (GrabSession.Hand 1280 720 Samples.openThumb Samples.openIndex)
         = Js.Return m'
         /\ GrabVisualizer.grabbedIdRef m' = None
         /\ GrabVisualizer.lookupEntry "item-0"
              (GrabVisualizer.elementPositions m') = Some None
         /\ GrabVisualizer.lookupEntry "item-1"
              (GrabVisualizer.elementPositions m')
            = Some (Some (GrabVisualizer.mkPoint 545 300))
         /\ GrabSession.step m'
              (GrabSession.Hand 1280 720 Samples.openThumb Samples.openIndex)
            = Js.Throw "TypeError").
Proof.
  split.
  - destruct (release_swaps_or_loses_position 1280 720 Samples.openThumb
                Samples.openIndex Samples.draggedModel "item-0"
                (GrabVisualizer.mkPoint 420 300) (GrabVisualizer.mkPoint 530 310)
                [("item-0", GrabVisualizer.mkPoint 530 310);
                 ("item-1", GrabVisualizer.mkPoint 545 300);
                 ("item-2", GrabVisualizer.mkPoint 670 300);
                 ("item-3", GrabVisualizer.mkPoint 795 300)])
      as (m' & Hstep & Hclear & _ & _ & _ & Hswap & _).
    + reflexivity.
    + reflexivity.
    + reflexivity.
    + reflexivity.
    + vm_compute. reflexivity.
    + reflexivity.
    + cbn. repeat constructor; cbn; intuition discriminate.
    + exists m'. split; [exact Hstep|]. split; [exact Hclear|].
      destruct Hswap as (t & tp & Hl & Ht & Hw & Hmin & Hg & Htp & Hrest).
      { exists "item-1", (GrabVisualizer.mkPoint 545 300).
        split; [right; left; reflexivity|].
        split; [discriminate | vm_compute; reflexivity]. }
      assert (Hnear : t = "item-1" /\ tp = GrabVisualizer.mkPoint 545 300).
      { specialize (Hmin "item-1" (GrabVisualizer.mkPoint 545 300)
                      (or_intror (or_introl eq_refl))).
        cbn in Hl.
        destruct (String.eqb_spec t "item-0") as [E|_]; [contradiction|].
        destruct (String.eqb_spec t "item-1") as [E|_].
        - split; [exact E | now inversion Hl].
        - destruct (String.eqb_spec t "item-2") as [E|_].
          + inversion Hl; subst tp.
            assert (F : true = false);
              [apply Hmin; [discriminate | vm_compute; reflexivity]
              | discriminate F].
          + destruct (String.eqb_spec t "item-3") as [E|_]; [|discriminate Hl].
            inversion Hl; subst tp. vm_compute in Hw. discriminate Hw. }
      destruct Hnear as [-> ->].
      split; [exact Hg|]. split; [exact Htp|].
      rewrite Hrest by discriminate. reflexivity.
  - destruct (release_swaps_or_loses_position 1280 720 Samples.openThumb
                Samples.openIndex Samples.strayModel "item-0"
                (GrabVisualizer.mkPoint 420 300) (GrabVisualizer.mkPoint 530 600)
                [("item-0", GrabVisualizer.mkPoint 530 600);
                 ("item-1", GrabVisualizer.mkPoint 545 300);
                 ("item-2", GrabVisualizer.mkPoint 670 300);
                 ("item-3", GrabVisualizer.mkPoint 795 300)])
      as (m' & Hstep & Hclear & _ & _ & _ & _ & Hlost).
    + reflexivity.
    + reflexivity.
    + reflexivity.
    + reflexivity.
    + vm_compute. reflexivity.
    + reflexivity.
    + cbn. repeat constructor; cbn; intuition discriminate.
    + exists m'. split; [exact Hstep|]. split; [exact Hclear|].
      destruct Hlost as (Hg & Hrest & Hnext).
      { intros id p Hin Hid. cbn in Hin.
        destruct Hin as [E|[E|[E|[E|[]]]]]; inversion E; subst;
          [contradiction | | |]; vm_compute; reflexivity. }
      split; [exact Hg|].
      split; [rewrite Hrest by discriminate; reflexivity|].
      apply Hnext.
Defined.

(** ** The tree layout's overlap pass *)

(** C7 fails on the level-order tree [[1,2,3,4,5,6,null,null,7,null,null,8]].
    Its third level holds the nodes 4, 5 and 6, placed at -35, 0 and 35; the
    minimum gap is 56.  The pass first pushes 4 and 5 apart (to -45.5 and
    10.5), then pushes 5 and 6 apart, which moves 5 back to -5.25; the pair
    4, 5 is not looked at again.  After centering, the level is at -48.125,
    -7.875 and 48.125: its first two nodes are 40.25 apart. *)
Theorem overlap_pass_leaves_close_neighbours :
  HologramRenderer.minGap (HologramRenderer.parseLevelOrder Samples.unevenTree)
  = 56%float
  /\ HologramRenderer.levelXs
       (HologramRenderer.placeAll
          (HologramRenderer.parseLevelOrder Samples.unevenTree)) 2
     = [-35; 0; 35]%float
  /\ HologramRenderer.levelXs
       (HologramRenderer.calculatePositions
          (HologramRenderer.parseLevelOrder Samples.unevenTree)) 2
     = [-48.125; -7.875; 48.125]%float
  /\ HologramRenderer.overlapsResolved 56
       (HologramRenderer.calculatePositions
          (HologramRenderer.parseLevelOrder Samples.unevenTree))
     = false.
Proof. vm_compute. repeat split; reflexivity. Qed.

(** On a level of at most two nodes the pass does what it is there for:
    here levels 0, 1 and 3 of the same tree. *)
Lemma overlap_pass_small_levels :
  forallb
    (fun lvl =>
       HologramRenderer.gapsAtLeast 56
         (HologramRenderer.levelXs
            (HologramRenderer.calculatePositions
               (HologramRenderer.parseLevelOrder Samples.unevenTree)) lvl))
    [0; 1; 3]%nat
  = true.
Proof. vm_compute. reflexivity. Qed.

(** ** Coordinates handed to the renderer *)

(** X4. [renderNode] hands finite coordinates to the renderer, whatever it
    is given: a coordinate that is NaN or infinite is replaced by 0. *)
Lemma renderNode_finite (x y : float) :
  JsMath.isFinite (HologramRenderer.left (HologramRenderer.renderNode x y)) = true
  /\ JsMath.isFinite (HologramRenderer.top (HologramRenderer.renderNode x y)) = true.
Proof.
  unfold HologramRenderer.renderNode, HologramRenderer.safe. cbn.
  split.
  - destruct (JsMath.isFinite x) eqn:E; [exact E | reflexivity].
  - destruct (JsMath.isFinite y) eqn:E; [exact E | reflexivity].
Qed.

(** C8 fails in the graph branch, which does not go through [renderNode].
    For a graph state with no node and one edge given by indices,
    [{ nodes: [], edges: [{ source: 0, target: 1 }] }], the angle of an
    end is [2 * Math.PI * 0 / 0 - Math.PI / 2], which is NaN, and the
    [x1] handed to the [<line>] is NaN ([Math.cos(NaN)] is NaN). *)
Theorem graph_edge_coordinate_not_finite
  (Math_cos Math_sin : float -> float) :
  Math_cos nan = nan ->
  exists l,
    HologramRenderer.renderEdges Math_cos Math_sin []
      [HologramRenderer.mkEdge (Some (HologramRenderer.Index 0)) None
                               (Some (HologramRenderer.Index 1)) None]
    = [l]
    /\ JsMath.isFinite (HologramRenderer.x1 l) = false
    /\ PrimFloat.is_nan (HologramRenderer.x1 l) = true.
Proof.
  intros Hcos. eexists. split; [reflexivity|].
  vm_compute in Hcos |- *. rewrite !Hcos. vm_compute. split; reflexivity.
Qed.

Lemma graph_edge_coordinate_not_finite_witness :
  exists l,
    HologramRenderer.renderEdges (fun a => a) (fun a => a) []
      [HologramRenderer.mkEdge (Some (HologramRenderer.Index 0)) None
                               (Some (HologramRenderer.Index 1)) None]
    = [l]
    /\ JsMath.isFinite (HologramRenderer.x1 l) = false
    /\ PrimFloat.is_nan (HologramRenderer.x1 l) = true.
Proof.
  apply (graph_edge_coordinate_not_finite (fun a => a) (fun a => a)).
  reflexivity.
Defined.

(** ** Further properties of the playback engine and the overlay *)

(** X1. When the clock fires at the last index while auto-play is on, the
    cursor stays and auto-play is switched off; before the last index the
    clock advances the cursor by one and auto-play stays on.  Both
    implementations. *)
Theorem autoplay_stops_at_last_index
  (Step : Type) (sequence : list Step) (c : Z) (loading : bool)
  (title kind : string) (speed : Z) :
  (1 <= Z.of_nat (List.length sequence))%Z ->
  (0 <= c <= Z.of_nat (List.length sequence) - 1)%Z ->
  AlgoVision.timerTick (AlgoVision.mkState sequence c true loading)
  = AlgoVision.mkState sequence
      (if (c =? Z.of_nat (List.length sequence) - 1)%Z then c else c + 1)%Z
      (negb (c =? Z.of_nat (List.length sequence) - 1)%Z) loading
  /\
  Hologram.timerTick
    (Hologram.mkState (Some (Hologram.mkMetadata title kind sequence))
       c true loading speed)
  = Hologram.mkState (Some (Hologram.mkMetadata title kind sequence))
      (if (c =? Z.of_nat (List.length sequence) - 1)%Z then c else c + 1)%Z
      (negb (c =? Z.of_nat (List.length sequence) - 1)%Z) loading speed.
Proof.
  intros HL Hc. split.
  - unfold AlgoVision.timerTick, AlgoVision.stepsLength. cbn.
    destruct (Z.ltb_spec 0 (Z.of_nat (List.length sequence))); [|lia].
    destruct (Z.geb_spec c (Z.of_nat (List.length sequence) - 1));
      destruct (Z.eqb_spec c (Z.of_nat (List.length sequence) - 1));
      try lia; reflexivity.
  - unfold Hologram.timerTick, Hologram.stepsLength. cbn.
    destruct (Z.ltb_spec c (Z.of_nat (List.length sequence) - 1));
      destruct (Z.eqb_spec c (Z.of_nat (List.length sequence) - 1));
      try lia; reflexivity.
Qed.

Lemma autoplay_stops_at_last_index_witness :
  AlgoVision.timerTick (AlgoVision.mkState [tt; tt; tt] 2 true false)
  = AlgoVision.mkState [tt; tt; tt] 2 false false
  /\ Hologram.timerTick
       (Hologram.mkState (Some (Hologram.mkMetadata "Binary Search" "Array" [tt; tt; tt]))
          2 true false 1000)
     = Hologram.mkState (Some (Hologram.mkMetadata "Binary Search" "Array" [tt; tt; tt]))
         2 false false 1000.
Proof.
  apply (autoplay_stops_at_last_index unit [tt; tt; tt] 2 false
           "Binary Search" "Array" 1000); cbn; lia.
Defined.


(** X2. Losing the hand while a block is grabbed.  The run of the effect
    returns and resets the grab, the hover, the pinch state and the
    smoothed hand position, and it passes an updater meant to put the block
    back where it was grabbed.  The updater reads
    [grabbedStartPosRef.current] when React calls it, after the run has
    set the ref to [null]: after the render the entry of the block holds
    [null], and every other block is where it was.  From then on a run
    without a hand changes nothing, and every run with a hand in view
    throws a TypeError on that entry. *)
Theorem tracking_lost_loses_grabbed_position
  (m : GrabVisualizer.model) (g : string) (p0 : GrabVisualizer.point) :
  GrabVisualizer.grabbedIdRef m = Some g ->
  GrabVisualizer.grabbedStartPosRef m = Some p0 ->
  exists m',
    GrabSession.step m GrabSession.NoHand = Js.Return m'
    /\ GrabVisualizer.lookupEntry g (GrabVisualizer.elementPositions m')
       = Some None
    /\ (forall id, id <> g ->
          GrabVisualizer.lookupEntry id (GrabVisualizer.elementPositions m')
          = GrabVisualizer.lookupEntry id (GrabVisualizer.elementPositions m))
    /\ GrabVisualizer.grabbedIdRef m' = None
    /\ GrabVisualizer.grabbedStartPosRef m' = None
    /\ GrabVisualizer.hoveredIdRef m' = None
    /\ GrabVisualizer.isPinchingRef m' = false
    /\ GrabVisualizer.wasPinchingRef m' = false
    /\ GrabVisualizer.currentHandPosRef m' = None
    /\ GrabSession.step m' GrabSession.NoHand = Js.Return m'
    /\ forall width height thumb index,
         GrabSession.step m' (GrabSession.Hand width height thumb index)
         = Js.Throw "TypeError".
Proof.
  intros Hg Hp0. unfold GrabSession.step at 1, GrabVisualizer.onNoHand.
  rewrite Hg, Hp0. eexists. split; [reflexivity|].
  cbn [GrabVisualizer.render GrabVisualizer.grabbedIdRef
       GrabVisualizer.grabbedStartPosRef GrabVisualizer.elementPositions
       GrabVisualizer.applyUpdater GrabVisualizer.hoveredIdRef
       GrabVisualizer.isPinchingRef GrabVisualizer.wasPinchingRef
       GrabVisualizer.currentHandPosRef].
  split; [apply ge_lookup_assign_same|].
  split; [intros id Hid; now apply ge_lookup_assign_other|].
  repeat (split; [reflexivity|]).
  intros width height thumb index.
  unfold GrabSession.step, GrabVisualizer.onHand.
  cbn [GrabVisualizer.elementPositions].
  rewrite (readEntries_null g) by apply ge_lookup_assign_same.
  reflexivity.
Qed.

Lemma tracking_lost_loses_grabbed_position_witness :
  exists m',
    GrabSession.step Samples.draggedModel GrabSession.NoHand = Js.Return m'
    /\ GrabVisualizer.lookupEntry "item-0" (GrabVisualizer.elementPositions m')
       = Some None
    /\ GrabVisualizer.lookupEntry "item-1" (GrabVisualizer.elementPositions m')
       = Some (Some (GrabVisualizer.mkPoint 545 300))
    /\ GrabVisualizer.grabbedIdRef m' = None
    /\ GrabSession.step m'
         (GrabSession.Hand 1280 720 Samples.openThumb Samples.openIndex)
       = Js.Throw "TypeError".
Proof.
  destruct (tracking_lost_loses_grabbed_position Samples.draggedModel "item-0"
              (GrabVisualizer.mkPoint 420 300) eq_refl eq_refl)
    as (m' & Hstep & Hg & Hrest & Hclear & _ & _ & _ & _ & _ & _ & Hnext).
  exists m'. split; [exact Hstep|]. split; [exact Hg|].
  split; [rewrite Hrest by discriminate; reflexivity|].
  split; [exact Hclear | apply Hnext].
Defined.

(** ** Reachable playback states *)

Section AlgoVisionReachable.

Variable Step : Type.

(** What every event of the AlgoVision page keeps: the cursor is never
    below -1 nor past the last step, and it is at a step whenever there is
    one. *)
Lemma av_react_keeps (s : AlgoVision.state Step)
  (e : AlgoVisionSession.event Step) :
  (-1 <= AlgoVision.currentStepIdx s
      <= Z.max 0 (AlgoVision.stepsLength s - 1))%Z ->
  (1 <= AlgoVision.stepsLength s -> 0 <= AlgoVision.currentStepIdx s)%Z ->
  (-1 <= AlgoVision.currentStepIdx (AlgoVisionSession.react s e)
      <= Z.max 0 (AlgoVision.stepsLength (AlgoVisionSession.react s e) - 1))%Z
  /\ (1 <= AlgoVision.stepsLength (AlgoVisionSession.react s e) ->
      0 <= AlgoVision.currentStepIdx (AlgoVisionSession.react s e))%Z.
Proof.
  intros H1 H2.
  destruct e as [[rs|]| |c]; unfold AlgoVisionSession.react.
  - clear H1 H2.
    unfold AlgoVision.stepsLength, AlgoVision.handleRun;
      cbn [fst AlgoVision.steps AlgoVision.currentStepIdx]. lia.
  - exact (conj H1 H2).
  - clear H1 H2.
    unfold AlgoVision.stepsLength, AlgoVision.onAlgoTypeChange;
      cbn [AlgoVision.steps AlgoVision.currentStepIdx List.length]. lia.
  - rewrite av_fire_length.
    assert (Hlen : (0 <= AlgoVision.stepsLength s)%Z)
      by (unfold AlgoVision.stepsLength; lia).
    destruct c; cbn [AlgoVision.fire].
    + unfold AlgoVision.nextClick; cbn [AlgoVision.currentStepIdx]. lia.
    + unfold AlgoVision.prevClick; cbn [AlgoVision.currentStepIdx]. lia.
    + exact (conj H1 H2).
    + unfold AlgoVision.timerTick.
      destruct (AlgoVision.isPlaying s && _)%bool eqn:E; [|exact (conj H1 H2)].
      apply andb_prop in E. destruct E as [_ E]. apply Z.ltb_lt in E.
      destruct (Z.geb_spec (AlgoVision.currentStepIdx s)
                  (AlgoVision.stepsLength s - 1));
        cbn [AlgoVision.currentStepIdx]; lia.
Qed.

Lemma av_after_keeps (es : list (AlgoVisionSession.event Step)) :
  forall s : AlgoVision.state Step,
    (-1 <= AlgoVision.currentStepIdx s
        <= Z.max 0 (AlgoVision.stepsLength s - 1))%Z ->
    (1 <= AlgoVision.stepsLength s -> 0 <= AlgoVision.currentStepIdx s)%Z ->
    (-1 <= AlgoVision.currentStepIdx (fold_left AlgoVisionSession.react es s)
        <= Z.max 0
             (AlgoVision.stepsLength (fold_left AlgoVisionSession.react es s) - 1))%Z
    /\ (1 <= AlgoVision.stepsLength (fold_left AlgoVisionSession.react es s) ->
        0 <= AlgoVision.currentStepIdx (fold_left AlgoVisionSession.react es s))%Z.
Proof.
  induction es as [|e es IH]; intros s H1 H2; cbn.
  - exact (conj H1 H2).
  - destruct (av_react_keeps s e H1 H2) as [K1 K2]. now apply IH.
Qed.

End AlgoVisionReachable.

(** X6. On the AlgoVision page, after any sequence of events from the
    mounted state (requests settling either way, changes of structure,
    next, prev, play/pause, clock ticks), whenever the loaded sequence has
    a step the cursor is at one: [steps[currentStepIdx]] is defined.  With
    no step loaded the cursor is 0 or -1. *)
Theorem algovision_step_shown_when_loaded
  (Step : Type) (es : list (AlgoVisionSession.event Step)) :
  (AlgoVision.steps (AlgoVisionSession.after es) <> [] ->
   exists st,
     AlgoVisionSession.currentStep (AlgoVisionSession.after es) = Some st)
  /\ (AlgoVision.steps (AlgoVisionSession.after es) = [] ->
      AlgoVision.currentStepIdx (AlgoVisionSession.after es) = 0%Z
      \/ AlgoVision.currentStepIdx (AlgoVisionSession.after es) = (-1)%Z).
Proof.
  destruct (av_after_keeps Step es AlgoVisionSession.initial) as [K1 K2];
    [cbn; lia | cbn; lia |].
  fold (AlgoVisionSession.after es) in K1, K2.
  unfold AlgoVision.stepsLength in K1, K2.
  split.
  - intros Hne. unfold AlgoVisionSession.currentStep.
    destruct (AlgoVision.steps (AlgoVisionSession.after es)) as [|a l] eqn:E;
      [contradiction|].
    assert (H0 : (0 <= AlgoVision.currentStepIdx (AlgoVisionSession.after es))%Z).
    { apply K2. cbn [List.length]. lia. }
    destruct (Z.ltb_spec (AlgoVision.currentStepIdx (AlgoVisionSession.after es)) 0);
      [lia|].
    destruct (nth_error (a :: l)
                (Z.to_nat (AlgoVision.currentStepIdx (AlgoVisionSession.after es))))
      as [st|] eqn:En; [eauto|].
    apply nth_error_None in En. cbn [List.length] in En, K1. lia.
  - intros E. rewrite E in K1. cbn in K1. lia.
Qed.

Lemma algovision_step_shown_when_loaded_witness :
  exists st,
    AlgoVisionSession.currentStep
      (AlgoVisionSession.after
         [AlgoVisionSession.Settle (AlgoVision.Resolved [1; 2; 3]%nat);
          AlgoVisionSession.Control AlgoVision.Next;
          AlgoVisionSession.Control AlgoVision.Next;
          AlgoVisionSession.Control AlgoVision.Next;
          AlgoVisionSession.Control AlgoVision.Tick])
    = Some st.
Proof.
  apply (algovision_step_shown_when_loaded nat). discriminate.
Defined.


Section HologramReachable.

Variable Step : Type.

Lemma holo_step_keeps (s s' : Hologram.state Step) :
  HologramSession.step s s' ->
  (0 <= Hologram.currentStepIndex s <= Z.max 0 (Hologram.totalSteps s - 1))%Z ->
  (0 <= Hologram.currentStepIndex s' <= Z.max 0 (Hologram.totalSteps s' - 1))%Z.
Proof.
  intros Hs H. inversion Hs as [s0 r|s0 c|s0 i Hi|s0|s0 speed]; subst; clear Hs.
  - destruct r as [m|msg]; cbn.
    + unfold Hologram.totalSteps; cbn. lia.
    + exact H.
  - destruct c; cbn.
    + unfold Hologram.hologramNextStep, Hologram.totalSteps in *.
      destruct (Hologram.algoMetadata s) as [m|] eqn:Em; [|rewrite Em; exact H].
      cbn. rewrite Em.
      destruct (Z.ltb_spec (Hologram.currentStepIndex s) (Hologram.stepsLength m - 1));
        lia.
    + unfold Hologram.hologramPrevStep, Hologram.totalSteps in *. cbn.
      destruct (Z.gtb_spec (Hologram.currentStepIndex s) 0); lia.
    + exact H.
    + unfold Hologram.timerTick, Hologram.totalSteps in *.
      destruct (Hologram.algoMetadata s) as [m|] eqn:Em; [|rewrite Em; exact H].
      destruct (Hologram.isHologramPlaying s); [|rewrite Em; exact H].
      destruct (Z.ltb_spec (Hologram.currentStepIndex s) (Hologram.stepsLength m - 1));
        cbn; rewrite Em; lia.
  - unfold Hologram.sliderOffers, Hologram.sliderMax in Hi.
    unfold Hologram.onSeek, Hologram.totalSteps in *. cbn.
    destruct (Hologram.algoMetadata s) as [m|]; cbn in *.
    + destruct (Z.eqb_spec (Hologram.stepsLength m) 0); lia.
    + lia.
  - exact H.
  - exact H.
Qed.

Lemma holo_reachable_keeps (s : Hologram.state Step) :
  HologramSession.reachable s ->
  (0 <= Hologram.currentStepIndex s <= Z.max 0 (Hologram.totalSteps s - 1))%Z.
Proof.
  induction 1 as [|s s' _ IH Hstep].
  - cbn. lia.
  - exact (holo_step_keeps s s' Hstep IH).
Qed.

End HologramReachable.

(** X7. In the hologram engine, in every state reachable from the mounted
    one (analyses settling either way, next, prev, play/pause, clock
    ticks, scrubbing within the slider's range, dragging the canvas,
    changing the speed), the cursor is at a step of the loaded sequence
    whenever it has one, so [currentHologramStep] is a step; with no
    sequence or an empty one the cursor is 0. *)
Theorem hologram_step_shown_when_loaded
  (Step : Type) (s : Hologram.state Step) :
  HologramSession.reachable s ->
  (0 < Hologram.totalSteps s ->
   exists st, HologramSession.currentHologramStep s = Some st)%Z
  /\ (Hologram.totalSteps s = 0 -> Hologram.currentStepIndex s = 0)%Z.
Proof.
  intros Hr. pose proof (holo_reachable_keeps Step s Hr) as K.
  split.
  - intros Hpos. unfold HologramSession.currentHologramStep.
    unfold Hologram.totalSteps, Hologram.stepsLength in *.
    destruct (Hologram.algoMetadata s) as [m|]; [|lia].
    destruct (Z.ltb_spec (Hologram.currentStepIndex s) 0); [lia|].
    destruct (nth_error (Hologram.steps m)
                (Z.to_nat (Hologram.currentStepIndex s))) as [st|] eqn:En;
      [eauto|].
    apply nth_error_None in En. lia.
  - intros E. rewrite E in K. cbn in K. lia.
Qed.

Lemma hologram_step_shown_when_loaded_witness :
  exists st,
    HologramSession.currentHologramStep
      (Hologram.hologramNextStep
         (fst (Hologram.handleHologramAnalyze HologramSession.initial
                 (Hologram.Resolved
                    (Hologram.mkMetadata "Bubble Sort" "Array" [1; 2; 3]%nat)))))
    = Some st.
Proof.
  apply (hologram_step_shown_when_loaded nat).
  - eapply HologramSession.ReachStep;
      [eapply HologramSession.ReachStep; [apply HologramSession.ReachInitial|]|].
    + apply HologramSession.StepSettle.
    + apply (HologramSession.StepControl _ _ Hologram.Next).
  - reflexivity.
Defined.

(** ** What [simulateCode] does to the steps of a response *)

Section SimulatedStepFacts.

Import Js.

Variable JSON_parse : string -> option value.
Variable numberToString : float -> string.
Variable typeTag : option string.

Lemma readableViz_get s :
  SimulatedSteps.readableViz s = true ->
  exists fields viz,
    s = Obj fields /\ lookup "viz" fields = viz
    /\ viz <> Undefined /\ viz <> Null
    /\ exists d, GeminiService.vizField s "data" = Return d.
Proof.
  unfold SimulatedSteps.readableViz, GeminiService.vizField.
  destruct s as [| | | | | |fields]; cbn; try discriminate.
  intros H. exists fields, (lookup "viz" fields).
  destruct (lookup "viz" fields); try discriminate; cbn;
    repeat split; try discriminate; eauto.
Qed.

Lemma unreadableViz_throws s :
  SimulatedSteps.readableViz s = false ->
  exists e,
    GeminiService.processStep JSON_parse numberToString typeTag s = Throw e.
Proof.
  unfold SimulatedSteps.readableViz, GeminiService.processStep,
    GeminiService.vizField.
  destruct (get s "viz") as [viz|e]; cbn.
  - destruct viz; try discriminate; cbn; eauto.
  - eauto.
Qed.

Lemma mapSteps_returns (f : value -> completion value) (l : list value) :
  forall out,
    GeminiService.mapSteps f l = Return out ->
    List.length out = List.length l
    /\ forall i o, nth_error out i = Some o ->
                   exists s, nth_error l i = Some s /\ f s = Return o.
Proof.
  induction l as [|s rest IH]; cbn; intros out H.
  - inversion H; subst. split; [reflexivity|].
    intros [|i] o Ho; discriminate Ho.
  - destruct (f s) as [r|e] eqn:Hf; cbn in H; [|discriminate].
    destruct (GeminiService.mapSteps f rest) as [rs|e]; cbn in H; [|discriminate].
    inversion H; subst. destruct (IH rs eq_refl) as [Hl Hn].
    split; [cbn; now rewrite Hl|].
    intros [|i] o Ho; cbn in Ho.
    + inversion Ho; subst. exists s. now split.
    + exact (Hn i o Ho).
Qed.

Lemma mapSteps_all (f : value -> completion value) (l : list value) :
  (forall s, In s l -> exists o, f s = Return o) ->
  exists out, GeminiService.mapSteps f l = Return out.
Proof.
  induction l as [|s rest IH]; cbn; intros H.
  - eauto.
  - destruct (H s (or_introl eq_refl)) as [o Ho]. rewrite Ho. cbn.
    destruct IH as [out Hout]; [intros; apply H; now right|].
    rewrite Hout. cbn. eauto.
Qed.

Lemma mapSteps_one_throws (f : value -> completion value) (l : list value) s :
  In s l -> (exists e, f s = Throw e) ->
  exists e, GeminiService.mapSteps f l = Throw e.
Proof.
  induction l as [|a rest IH]; cbn; intros Hin Hs; [contradiction|].
  destruct (f a) as [r|e] eqn:Hf; cbn; [|eauto].
  destruct Hin as [->|Hin].
  - destruct Hs as [e He]. congruence.
  - destruct (IH Hin Hs) as [e He]. rewrite He. cbn. eauto.
Qed.

(** What a processed step holds under [viz.data] and [viz.pointers]: the
    parsed value, or the fallback. *)
Lemma processStep_fallbacks s :
  SimulatedSteps.readableViz s = true ->
  exists o d p,
    GeminiService.processStep JSON_parse numberToString typeTag s = Return o
    /\ GeminiService.vizField s "data" = Return d
    /\ GeminiService.vizField s "pointers" = Return p
    /\ GeminiService.vizField o "data"
       = Return (match JSON_parse (toString numberToString d) with
                 | Some v => v
                 | None => d
                 end)
    /\ GeminiService.vizField o "pointers"
       = Return (if truthy p
                 then match JSON_parse (toString numberToString p) with
                      | Some v => v
                      | None => Obj []
                      end
                 else Obj []).
Proof.
  intros Hr.
  destruct (readableViz_get s Hr) as (fields & viz & -> & Hviz & Hu & Hn & d & Hd).
  destruct (processStep_returns JSON_parse numberToString typeTag
              (Obj fields) d Hd) as (pd & pp & viz' & Hv' & Hpd & Hpp & Hret).
  assert (Hp : exists p, GeminiService.vizField (Obj fields) "pointers" = Return p).
  { unfold GeminiService.vizField. cbn. rewrite Hviz.
    destruct viz; cbn; try contradiction; eauto. }
  destruct Hp as [p Hp].
  exists (Obj (assign "viz"
                 (Obj (assign "pointers" pp
                         (assign "data" pd
                            (match typeTag with
                             | Some t => assign "type" (Str t) (spread viz')
                             | None => spread viz'
                             end))))
                 (spread (Obj fields)))), d, p.
  split; [exact Hret|]. split; [exact Hd|]. split; [exact Hp|].
  rewrite Hd in Hpd. rewrite Hp in Hpp. cbn in Hpd, Hpp.
  unfold GeminiService.parse in Hpd, Hpp.
  split.
  - unfold GeminiService.vizField. cbn.
    rewrite lookup_assign_same. cbn.
    rewrite lookup_assign_other by reflexivity.
    rewrite lookup_assign_same.
    destruct (JSON_parse (toString numberToString d)); cbn in Hpd; congruence.
  - unfold GeminiService.vizField. cbn.
    rewrite lookup_assign_same. cbn.
    rewrite lookup_assign_same.
    destruct (truthy p); cbn in Hpp; [|congruence].
    destruct (JSON_parse (toString numberToString p)); cbn in Hpp; congruence.
Qed.

End SimulatedStepFacts.

(** C10. [simulateCode] and a response body that cannot be parsed.  On a
    response that has a text, both copies resolve, whatever the text: a text
    that is not JSON gives the empty list and the logged parse failure; on
    a text that is a JSON array of steps with a [viz], the list resolved
    with has the response's length, and its step at each index holds under
    [viz.data] the parsed data, or the raw value when the data is not JSON,
    and under [viz.pointers] the parsed pointers, or the empty object when
    they are missing or not JSON.  On a response that has no text the two
    copies part: [unnamed/part_005] ([typeTag = None]) passes [undefined]
    to [JSON.parse] inside the [try] and resolves with the empty list,
    while [algovision-pro/services/geminiService.ts] reads
    [response.text.substring] before the [try] and rejects. *)
Theorem simulateCode_unparseable_body
  (JSON_parse : string -> option Js.value) (numberToString : float -> string) :
  (forall typeTag text,
      exists processedSteps,
        fst (GeminiService.simulateCode JSON_parse numberToString typeTag
               (GeminiService.ResponseText text))
        = AlgoVision.Resolved processedSteps)
  /\ (forall typeTag text,
         JSON_parse text = None ->
         GeminiService.simulateCode JSON_parse numberToString typeTag
           (GeminiService.ResponseText text)
         = (AlgoVision.Resolved [],
            [AlgoVision.ConsoleError "Failed to parse Gemini response"]))
  /\ (forall typeTag text rawSteps,
         JSON_parse text = Some (Js.Arr rawSteps) ->
         forallb SimulatedSteps.readableViz rawSteps = true ->
         exists processedSteps,
           GeminiService.simulateCode JSON_parse numberToString typeTag
             (GeminiService.ResponseText text)
           = (AlgoVision.Resolved processedSteps, [])
           /\ List.length processedSteps = List.length rawSteps
           /\ forall i s,
                nth_error rawSteps i = Some s ->
                exists o d p,
                  nth_error processedSteps i = Some o
                  /\ GeminiService.vizField s "data" = Js.Return d
                  /\ GeminiService.vizField s "pointers" = Js.Return p
                  /\ GeminiService.vizField o "data"
                     = Js.Return
                         (match JSON_parse (Js.toString numberToString d) with
                          | Some v => v
                          | None => d
                          end)
                  /\ GeminiService.vizField o "pointers"
                     = Js.Return
                         (if Js.truthy p
                          then match JSON_parse
                                       (Js.toString numberToString p) with
                               | Some v => v
                               | None => Js.Obj []
                               end
                          else Js.Obj []))
  /\ (JSON_parse "undefined" = None ->
      GeminiService.simulateCode JSON_parse numberToString None
        GeminiService.ResponseNoText
      = (AlgoVision.Resolved [],
         [AlgoVision.ConsoleError "Failed to parse Gemini response"]))
  /\ (forall algoType,
         GeminiService.simulateCode JSON_parse numberToString (Some algoType)
           GeminiService.ResponseNoText
         = (AlgoVision.Rejected, [])).
Proof.
  split; [|split; [|split; [|split]]].
  - intros typeTag text. rewrite simulateCode_text.
    destruct (GeminiService.parseSteps _ _ _ _); cbn; eauto.
  - intros typeTag text Hp. rewrite simulateCode_text.
    unfold GeminiService.parseSteps. rewrite Hp. reflexivity.
  - intros typeTag text rawSteps Hp Hall. rewrite simulateCode_text.
    unfold GeminiService.parseSteps. rewrite Hp.
    rewrite forallb_forall in Hall.
    destruct (mapSteps_all
                (GeminiService.processStep JSON_parse numberToString typeTag)
                rawSteps) as [out Hout].
    { intros s Hin.
      destruct (processStep_fallbacks JSON_parse numberToString typeTag s
                  (Hall s Hin)) as (o & _ & _ & Ho & _).
      eauto. }
    rewrite Hout. exists out. split; [reflexivity|].
    destruct (mapSteps_returns _ _ _ Hout) as [Hlen Hnth].
    split; [exact Hlen|].
    intros i s Hs.
    destruct (nth_error out i) as [o|] eqn:Ho.
    + destruct (Hnth i o Ho) as (s' & Hs' & Hf).
      assert (s' = s) by congruence. subst s'.
      destruct (processStep_fallbacks JSON_parse numberToString typeTag s
                  (Hall s (nth_error_In _ _ Hs)))
        as (o' & d & p & Ho' & Hd & Hptr & Hod & Hop).
      assert (o' = o) by congruence. subst o'.
      exists o, d, p. repeat split; assumption.
    + apply nth_error_None in Ho.
      assert (i < List.length rawSteps)%nat
        by (apply nth_error_Some; congruence).
      lia.
  - intros Hp. cbn. unfold GeminiService.parseOrEmpty, GeminiService.parseSteps.
    cbn. rewrite Hp. reflexivity.
  - reflexivity.
Qed.

(** A response of two steps, the first with data and pointers that are not
    JSON; a page that is not JSON; a response without text. *)
Lemma simulateCode_unparseable_body_witness :
  GeminiService.simulateCode Samples.parseBody Samples.showNumber
    (Some "ARRAY") (GeminiService.ResponseText "<html>Bad Gateway</html>")
  = (AlgoVision.Resolved [],
     [AlgoVision.ConsoleError "Failed to parse Gemini response"])
  /\ (exists processedSteps o,
         GeminiService.simulateCode Samples.parseBody Samples.showNumber
           (Some "ARRAY") (GeminiService.ResponseText "good")
         = (AlgoVision.Resolved processedSteps, [])
         /\ nth_error processedSteps 0 = Some o
         /\ GeminiService.vizField o "data" = Js.Return (Js.Str "hello")
         /\ GeminiService.vizField o "pointers" = Js.Return (Js.Obj []))
  /\ GeminiService.simulateCode Samples.parseBody Samples.showNumber None
       GeminiService.ResponseNoText
     = (AlgoVision.Resolved [],
        [AlgoVision.ConsoleError "Failed to parse Gemini response"])
  /\ GeminiService.simulateCode Samples.parseBody Samples.showNumber
       (Some "ARRAY") GeminiService.ResponseNoText
     = (AlgoVision.Rejected, []).
Proof.
  destruct (simulateCode_unparseable_body Samples.parseBody Samples.showNumber)
    as (_ & Hempty & Hsteps & Hnone & Hrej).
  split; [apply Hempty; reflexivity|].
  split; [|split; [apply Hnone; reflexivity | apply Hrej]].
  destruct (Hsteps (Some "ARRAY") "good" [Samples.rawStep; Samples.sortedStep]
              eq_refl eq_refl) as (processedSteps & Hres & _ & Hnth).
  destruct (Hnth 0%nat Samples.rawStep eq_refl)
    as (o & d & p & Ho & Hd & Hp & Hod & Hop).
  exists processedSteps, o.
  split; [exact Hres|]. split; [exact Ho|].
  cbv in Hd. injection Hd as <-. cbv in Hp. injection Hp as <-.
  split; [exact Hod | exact Hop].
Defined.

(** X8. [simulateCode] is all or nothing on the steps of a response whose
    text is a JSON array: when every step has a [viz] that is neither
    missing nor [null], it resolves with as many steps as the response has
    and logs nothing; as soon as one step has no [viz] (or is not an
    object), it logs the parse failure and resolves with [[]], dropping the
    well-formed steps too. *)
Theorem simulateCode_all_steps_or_none
  (JSON_parse : string -> option Js.value) (numberToString : float -> string)
  (typeTag : option string) (text : string) (rawSteps : list Js.value) :
  JSON_parse text = Some (Js.Arr rawSteps) ->
  (forallb SimulatedSteps.readableViz rawSteps = true ->
   exists processed,
     GeminiService.simulateCode JSON_parse numberToString typeTag
       (GeminiService.ResponseText text)
     = (AlgoVision.Resolved processed, [])
     /\ List.length processed = List.length rawSteps)
  /\ (forallb SimulatedSteps.readableViz rawSteps = false ->
      GeminiService.simulateCode JSON_parse numberToString typeTag
        (GeminiService.ResponseText text)
      = (AlgoVision.Resolved [],
         [AlgoVision.ConsoleError "Failed to parse Gemini response"])).
Proof.
  intros Hp.
  rewrite simulateCode_text. unfold GeminiService.parseSteps. rewrite Hp.
  split; intros Hall.
  - rewrite forallb_forall in Hall.
    destruct (mapSteps_all
                (GeminiService.processStep JSON_parse numberToString typeTag)
                rawSteps) as [out Hout].
    { intros s Hin.
      destruct (readableViz_get s (Hall s Hin))
        as (fields & viz0 & _ & _ & _ & _ & d & Hd).
      destruct (processStep_returns JSON_parse numberToString typeTag s d Hd)
        as (pd & pp & viz & _ & _ & _ & Hr).
      eauto. }
    rewrite Hout. exists out. split; [reflexivity|].
    exact (proj1 (mapSteps_returns _ _ _ Hout)).
  - assert (Hex : exists s, In s rawSteps
                            /\ SimulatedSteps.readableViz s = false).
    { clear Hp. induction rawSteps as [|a rest IH]; cbn in Hall; [discriminate|].
      destruct (SimulatedSteps.readableViz a) eqn:Ea; cbn in Hall.
      - destruct (IH Hall) as (s & Hin & Hs). exists s. split; [now right|exact Hs].
      - exists a. split; [now left|exact Ea]. }
    destruct Hex as (s & Hin & Hs).
    destruct (mapSteps_one_throws
                (GeminiService.processStep JSON_parse numberToString typeTag)
                rawSteps s Hin
                (unreadableViz_throws JSON_parse numberToString typeTag s Hs))
      as [e He].
    rewrite He. reflexivity.
Qed.

Lemma simulateCode_all_steps_or_none_witness :
  (exists processed,
      GeminiService.simulateCode Samples.parseBody Samples.showNumber
        (Some "ARRAY") (GeminiService.ResponseText "good")
      = (AlgoVision.Resolved processed, [])
      /\ List.length processed = 2%nat)
  /\ GeminiService.simulateCode Samples.parseBody Samples.showNumber
       (Some "ARRAY") (GeminiService.ResponseText "bad")
     = (AlgoVision.Resolved [],
        [AlgoVision.ConsoleError "Failed to parse Gemini response"]).
Proof.
  split.
  - apply (simulateCode_all_steps_or_none Samples.parseBody Samples.showNumber
             (Some "ARRAY") "good" [Samples.rawStep; Samples.sortedStep]);
      reflexivity.
  - apply (simulateCode_all_steps_or_none Samples.parseBody Samples.showNumber
             (Some "ARRAY") "bad"
             [Samples.rawStep; Samples.bareStep; Samples.sortedStep]);
      reflexivity.
Defined.

(** X9. Every step [simulateCode] resolves with is the response's step at
    the same index with only [viz] replaced: every other property
    ([codeLine], [message], ...) is the response's.  In
    [services/geminiService.ts] the new [viz.type] is the structure type
    that was asked for, whatever the response said; the variant with retry
    keeps the response's [viz.type].  Properties of an object [viz] other
    than [type], [data] and [pointers] are kept. *)
Theorem simulateCode_keeps_step_fields
  (JSON_parse : string -> option Js.value) (numberToString : float -> string)
  (typeTag : option string) (text : string) (rawSteps processed : list Js.value)
  (i : nat) (o : Js.value) :
  JSON_parse text = Some (Js.Arr rawSteps) ->
  fst (GeminiService.simulateCode JSON_parse numberToString typeTag
         (GeminiService.ResponseText text)) = AlgoVision.Resolved processed ->
  nth_error processed i = Some o ->
  exists s,
    nth_error rawSteps i = Some s
    /\ (forall k, String.eqb k "viz" = false -> Js.get o k = Js.get s k)
    /\ (forall t, typeTag = Some t ->
                  GeminiService.vizField o "type" = Js.Return (Js.Str t))
    /\ (forall vizFields k,
          Js.get s "viz" = Js.Return (Js.Obj vizFields) ->
          String.eqb k "data" = false -> String.eqb k "pointers" = false ->
          (String.eqb k "type" = false \/ typeTag = None) ->
          GeminiService.vizField o k = GeminiService.vizField s k).
Proof.
  intros Hp Hres Ho.
  rewrite simulateCode_text in Hres. unfold GeminiService.parseSteps in Hres.
  rewrite Hp in Hres.
  destruct (GeminiService.mapSteps _ rawSteps) as [out|e] eqn:Hout;
    cbn in Hres; inversion Hres; subst processed;
    [|destruct i; discriminate Ho].
  destruct (mapSteps_returns _ _ _ Hout) as [_ Hn].
  destruct (Hn i o Ho) as (s & Hs & Hf).
  exists s. split; [exact Hs|].
  destruct (SimulatedSteps.readableViz s) eqn:Hr.
  2:{ destruct (unreadableViz_throws JSON_parse numberToString typeTag s Hr)
        as [e He]. congruence. }
  destruct (readableViz_get s Hr) as (fields & viz & -> & Hviz & _ & _ & d & Hd).
  destruct (processStep_returns JSON_parse numberToString typeTag
              (Js.Obj fields) d Hd) as (pd & pp & viz' & Hv' & _ & _ & Hret).
  rewrite Hret in Hf. inversion Hf; subst o. clear Hf.
  cbn in Hv'. inversion Hv'; subst viz'.
  split; [|split].
  - intros k Hk. cbn. now rewrite lookup_assign_other.
  - intros t ->. unfold GeminiService.vizField. cbn.
    rewrite lookup_assign_same. cbn.
    rewrite !lookup_assign_other by reflexivity.
    now rewrite lookup_assign_same.
  - intros vizFields k Hvf Hd' Hp' Ht. cbn in Hvf. inversion Hvf as [Hvf'].
    unfold GeminiService.vizField. cbn.
    rewrite lookup_assign_same, Hvf'. cbn.
    rewrite !lookup_assign_other by assumption.
    destruct Ht as [Ht| ->].
    + destruct typeTag; [now rewrite lookup_assign_other|reflexivity].
    + reflexivity.
Qed.

Lemma simulateCode_keeps_step_fields_witness :
  exists s,
    nth_error [Samples.rawStep; Samples.sortedStep] 1 = Some s
    /\ (forall k, String.eqb k "viz" = false ->
                  Js.get
                    (Js.Obj
                       [("codeLine", Js.Num 7); ("message", Js.Str "done");
                        ("viz",
                         Js.Obj [("type", Js.Str "ARRAY");
                                 ("data", Js.Arr [Js.Num 1; Js.Num 2; Js.Num 3]);
                                 ("pointers", Js.Obj [])])]) k
                  = Js.get s k).
Proof.
  destruct (simulateCode_keeps_step_fields Samples.parseBody Samples.showNumber
              (Some "ARRAY") "good" [Samples.rawStep; Samples.sortedStep]
              [Js.Obj
                 [("codeLine", Js.Num 3); ("message", Js.Str "swap");
                  ("viz",
                   Js.Obj [("type", Js.Str "ARRAY"); ("data", Js.Str "hello");
                           ("pointers", Js.Obj [])])];
               Js.Obj
                 [("codeLine", Js.Num 7); ("message", Js.Str "done");
                  ("viz",
                   Js.Obj [("type", Js.Str "ARRAY");
                           ("data", Js.Arr [Js.Num 1; Js.Num 2; Js.Num 3]);
                           ("pointers", Js.Obj [])])]]
              1%nat
              (Js.Obj
                 [("codeLine", Js.Num 7); ("message", Js.Str "done");
                  ("viz",
                   Js.Obj [("type", Js.Str "ARRAY");
                           ("data", Js.Arr [Js.Num 1; Js.Num 2; Js.Num 3]);
                           ("pointers", Js.Obj [])])])
              eq_refl eq_refl eq_refl) as (s & Hs & Hk & _).
  exists s. split; [exact Hs | exact Hk].
Defined.

(** ** [withRetry] *)

Section RetryFacts.

Variables T E : Type.
Variable message : E -> option string.
Variable delayMs : string -> nat -> float.
Variable fn : nat -> Retry.settled T E.
Variable maxRetries : Z.

Lemma retryableUntil_at (k j : nat) :
  Retry.retryableUntil message fn k = true -> (j < k)%nat ->
  exists e, fn j = Retry.Rejected e
            /\ Retry.isRetryable (Retry.messageOf message e) = true.
Proof.
  unfold Retry.retryableUntil. rewrite forallb_forall. intros H Hj.
  specialize (H j). rewrite in_seq in H.
  destruct (fn j) as [v|e].
  - assert (F : false = true) by (apply H; lia). discriminate F.
  - exists e. split; [reflexivity|]. apply H. lia.
Qed.

(** The loop, entered at [attempt] with the calls [attempt .. attempt+k-1]
    rejected with a retryable message, gets to the call [attempt + k] and
    ends there when that call is fulfilled, or rejected with a message that
    is not retryable, or is the last one allowed. *)
Lemma loop_stops (k : nat) :
  forall fuel attempt last,
    (Z.of_nat (attempt + k) < maxRetries)%Z -> (k < fuel)%nat ->
    (forall j, (j < k)%nat ->
               exists e, fn (attempt + j) = Retry.Rejected e
                         /\ Retry.isRetryable (Retry.messageOf message e) = true) ->
    (forall v, fn (attempt + k) = Retry.Fulfilled v ->
       Retry.outcome (Retry.loop message delayMs fn maxRetries fuel attempt last)
       = Retry.Returned v
       /\ Retry.calls (Retry.loop message delayMs fn maxRetries fuel attempt last)
          = S (attempt + k)
       /\ List.length
            (Retry.waits (Retry.loop message delayMs fn maxRetries fuel attempt last))
          = k)
    /\ (forall e, fn (attempt + k) = Retry.Rejected e ->
          Retry.isRetryable (Retry.messageOf message e) = false
          \/ Z.of_nat (attempt + k) = (maxRetries - 1)%Z ->
          Retry.outcome (Retry.loop message delayMs fn maxRetries fuel attempt last)
          = Retry.Threw (Some e)
          /\ Retry.calls (Retry.loop message delayMs fn maxRetries fuel attempt last)
             = S (attempt + k)
          /\ List.length
               (Retry.waits (Retry.loop message delayMs fn maxRetries fuel attempt last))
             = k).
Proof.
  induction k as [|k IH]; intros fuel attempt last Hlt Hfuel Hbefore.
  - destruct fuel as [|fuel]; [lia|]. cbn [Retry.loop].
    rewrite Nat.add_0_r in *.
    destruct (Z.ltb_spec (Z.of_nat attempt) maxRetries); [|lia].
    split.
    + intros v Hv. rewrite Hv. cbn. auto.
    + intros e He Hstop. rewrite He.
      destruct Hstop as [Hn|Hl].
      * rewrite Hn. cbn. auto.
      * rewrite Hl, Z.eqb_refl, orb_true_r. cbn. auto.
  - destruct fuel as [|fuel]; [lia|]. cbn [Retry.loop].
    destruct (Z.ltb_spec (Z.of_nat attempt) maxRetries); [|lia].
    destruct (Hbefore 0%nat) as (e0 & He0 & Hr0); [lia|].
    rewrite Nat.add_0_r in He0. rewrite He0, Hr0.
    destruct (Z.eqb_spec (Z.of_nat attempt) (maxRetries - 1)); [lia|].
    cbn [negb orb Retry.outcome Retry.calls Retry.waits List.length].
    replace (attempt + S k)%nat with (S attempt + k)%nat in * by lia.
    destruct (IH fuel (S attempt) (Some e0)) as [Hok Herr];
      [lia | lia | |].
    { intros j Hj. replace (S attempt + j)%nat with (attempt + S j)%nat by lia.
      apply Hbefore. lia. }
    split.
    + intros v Hv. destruct (Hok v Hv) as (A & B & C). now rewrite A, B, C.
    + intros e He Hstop. destruct (Herr e He Hstop) as (A & B & C).
      now rewrite A, B, C.
Qed.

(** While the loop condition holds, the loop calls [fn] at least once more
    and at most [maxRetries] times in all, does not end with
    [throw lastError], and waits once between two calls. *)
Lemma loop_bounded (fuel : nat) :
  forall attempt last,
    (Z.of_nat attempt < maxRetries)%Z ->
    (Z.to_nat maxRetries - attempt <= fuel)%nat ->
    (attempt < Retry.calls (Retry.loop message delayMs fn maxRetries fuel attempt last)
       <= Z.to_nat maxRetries)%nat
    /\ (List.length
          (Retry.waits (Retry.loop message delayMs fn maxRetries fuel attempt last))
        = Retry.calls (Retry.loop message delayMs fn maxRetries fuel attempt last)
          - 1 - attempt)%nat
    /\ ((exists v,
           Retry.outcome (Retry.loop message delayMs fn maxRetries fuel attempt last)
           = Retry.Returned v
           /\ fn (Retry.calls
                    (Retry.loop message delayMs fn maxRetries fuel attempt last) - 1)
              = Retry.Fulfilled v)
        \/ (exists e,
           Retry.outcome (Retry.loop message delayMs fn maxRetries fuel attempt last)
           = Retry.Threw (Some e)
           /\ fn (Retry.calls
                    (Retry.loop message delayMs fn maxRetries fuel attempt last) - 1)
              = Retry.Rejected e)).
Proof.
  induction fuel as [|fuel IH]; intros attempt last Hlt Hfuel; [lia|].
  cbn [Retry.loop].
  destruct (Z.ltb_spec (Z.of_nat attempt) maxRetries); [|lia].
  destruct (fn attempt) as [v|e] eqn:Hf.
  - cbn. rewrite Nat.sub_0_r. split; [lia|]. split; [lia|]. left. eauto.
  - destruct (negb _ || _)%bool eqn:Hstop.
    + cbn. rewrite Nat.sub_0_r. split; [lia|]. split; [lia|]. right. eauto.
    + apply orb_false_elim in Hstop. destruct Hstop as [_ Hne].
      apply Z.eqb_neq in Hne.
      cbn [Retry.outcome Retry.calls Retry.waits List.length].
      destruct (IH (S attempt) (Some e)) as (A & B & C); [lia | lia |].
      split; [lia|]. split; [lia|]. exact C.
Qed.

End RetryFacts.

(** X10. [withRetry] (both copies) returns the first value [fn] resolves
    with, provided every earlier call was rejected with a retryable message
    ('503', 'UNAVAILABLE', 'high demand' or '429') and the call is within
    the [maxRetries] allowed: it then has called [fn] exactly [k + 1] times
    and waited [k] times. *)
Theorem withRetry_returns_first_success
  (T E : Type) (message : E -> option string)
  (delayMs : string -> nat -> float)
  (fn : nat -> Retry.settled T E) (maxRetries : Z) (k : nat) (v : T) :
  (Z.of_nat k < maxRetries)%Z ->
  Retry.retryableUntil message fn k = true ->
  fn k = Retry.Fulfilled v ->
  Retry.outcome (Retry.withRetryBy message delayMs fn maxRetries)
  = Retry.Returned v
  /\ Retry.calls (Retry.withRetryBy message delayMs fn maxRetries) = S k
  /\ List.length (Retry.waits (Retry.withRetryBy message delayMs fn maxRetries))
     = k.
Proof.
  intros Hk Hbefore Hv.
  destruct (loop_stops T E message delayMs fn maxRetries k
              (Z.to_nat maxRetries) 0%nat None) as [Hok _];
    [cbn; lia | lia | |].
  - intros j Hj. cbn. exact (retryableUntil_at T E message fn k j Hbefore Hj).
  - exact (Hok v Hv).
Qed.

Lemma withRetry_returns_first_success_witness :
  Retry.outcome
    (Retry.withRetry (fun e : string => Some e) (fun _ => 0.5%float)
       (fun attempt =>
          if (attempt <? 2)%nat
          then Retry.Rejected "503 Service Unavailable"
          else Retry.Fulfilled "[]")
       3 2000%float)
  = Retry.Returned "[]".
Proof.
  apply (withRetry_returns_first_success string string (fun e => Some e)
           (fun _ attempt => Retry.backoff (fun _ => 0.5%float) 2000%float attempt)
           (fun attempt =>
              if (attempt <? 2)%nat
              then Retry.Rejected "503 Service Unavailable"
              else Retry.Fulfilled "[]")
           3 2 "[]"); [lia | reflexivity | reflexivity].
Defined.

(** X11. [withRetry] (both copies) gives up at the first call that is
    rejected with a message that is not retryable, or at the
    [maxRetries]-th call if that one is rejected too: it throws the error
    of that very call (not an earlier one), without waiting again. *)
Theorem withRetry_rethrows_last_error
  (T E : Type) (message : E -> option string)
  (delayMs : string -> nat -> float)
  (fn : nat -> Retry.settled T E) (maxRetries : Z) (k : nat) (e : E) :
  (Z.of_nat k < maxRetries)%Z ->
  Retry.retryableUntil message fn k = true ->
  fn k = Retry.Rejected e ->
  Retry.isRetryable (Retry.messageOf message e) = false
  \/ Z.of_nat k = (maxRetries - 1)%Z ->
  Retry.outcome (Retry.withRetryBy message delayMs fn maxRetries)
  = Retry.Threw (Some e)
  /\ Retry.calls (Retry.withRetryBy message delayMs fn maxRetries) = S k
  /\ List.length (Retry.waits (Retry.withRetryBy message delayMs fn maxRetries))
     = k.
Proof.
  intros Hk Hbefore He Hstop.
  destruct (loop_stops T E message delayMs fn maxRetries k
              (Z.to_nat maxRetries) 0%nat None) as [_ Herr];
    [cbn; lia | lia | |].
  - intros j Hj. cbn. exact (retryableUntil_at T E message fn k j Hbefore Hj).
  - exact (Herr e He Hstop).
Qed.

Lemma withRetry_rethrows_last_error_witness :
  Retry.outcome
    (Retry.withRetry (T := string) (fun e : string => Some e) (fun _ => 0.5%float)
       (fun attempt =>
          if (attempt <? 2)%nat
          then Retry.Rejected "503 Service Unavailable"
          else Retry.Rejected "429 quota exceeded")
       3 2000%float)
  = Retry.Threw (Some "429 quota exceeded").
Proof.
  apply (withRetry_rethrows_last_error string string (fun e => Some e)
           (fun _ attempt => Retry.backoff (fun _ => 0.5%float) 2000%float attempt)
           (fun attempt =>
              if (attempt <? 2)%nat
              then Retry.Rejected "503 Service Unavailable"
              else Retry.Rejected "429 quota exceeded")
           3 2 "429 quota exceeded");
    [lia | reflexivity | reflexivity | right; reflexivity].
Defined.

(** X12. [withRetry] (both copies) never calls [fn] more than [maxRetries]
    times.  With [maxRetries >= 1] it calls [fn] at least once, waits
    exactly once between two calls, and ends either with the value of its
    last call or by throwing the error of its last call.  With
    [maxRetries <= 0] it does not call [fn] at all and throws [null]. *)
Theorem withRetry_calls_bounded
  (T E : Type) (message : E -> option string)
  (delayMs : string -> nat -> float)
  (fn : nat -> Retry.settled T E) (maxRetries : Z) :
  let r := Retry.withRetryBy message delayMs fn maxRetries in
  (Retry.calls r <= Z.to_nat maxRetries)%nat
  /\ ((1 <= maxRetries)%Z ->
      (1 <= Retry.calls r)%nat
      /\ List.length (Retry.waits r) = (Retry.calls r - 1)%nat
      /\ ((exists v, Retry.outcome r = Retry.Returned v
                     /\ fn (Retry.calls r - 1)%nat = Retry.Fulfilled v)
          \/ (exists e, Retry.outcome r = Retry.Threw (Some e)
                        /\ fn (Retry.calls r - 1)%nat = Retry.Rejected e)))
  /\ ((maxRetries <= 0)%Z ->
      Retry.calls r = 0%nat /\ Retry.outcome r = Retry.Threw None
      /\ Retry.waits r = []).
Proof.
  cbv zeta. unfold Retry.withRetryBy.
  destruct (Z.le_gt_cases maxRetries 0) as [Hle|Hgt].
  - replace (Z.to_nat maxRetries) with 0%nat by lia. cbn.
    split; [lia|]. split; [lia|]. auto.
  - destruct (loop_bounded T E message delayMs fn maxRetries
                (Z.to_nat maxRetries) 0%nat None) as (A & B & C);
      [lia | lia |].
    split; [lia|]. split; [|lia].
    intros _. split; [lia|]. split; [lia|]. exact C.
Qed.

Lemma withRetry_calls_bounded_witness :
  (1 <= Retry.calls
          (Retry.withRetry (T := string) (fun e : string => Some e)
             (fun _ => 0.5%float)
             (fun _ => Retry.Rejected "503 Service Unavailable")
             3 2000%float))%nat
  /\ (Retry.calls
        (Retry.withRetry (T := string) (fun e : string => Some e)
           (fun _ => 0.5%float)
           (fun _ => Retry.Rejected "503 Service Unavailable")
           3 2000%float) <= 3)%nat.
Proof.
  destruct (withRetry_calls_bounded string string (fun e => Some e)
              (fun _ attempt => Retry.backoff (fun _ => 0.5%float) 2000%float attempt)
              (fun _ => Retry.Rejected "503 Service Unavailable") 3)
    as (A & B & _).
  destruct B as (B & _); [lia|].
  split; [exact B | exact A].
Defined.


Section QuotaFacts.

Variables T E : Type.
Variable message : E -> option string.
Variable random : nat -> float.
Variable matchSeconds : string -> option string.
Variable parseFloat : string -> float.

Lemma quotaDelayMs_capped (baseDelay : float) (msg : string) (attempt : nat) :
  Hologram.includes "429" msg = true ->
  (65000 <? Retry.quotaDelayMs random matchSeconds parseFloat baseDelay msg attempt)%float
  = false.
Proof.
  intros H. unfold Retry.quotaDelayMs, Retry.parse429RetryDelayMs. rewrite H.
  destruct (matchSeconds msg) as [group|]; [|reflexivity].
  destruct (JsMath.isFinite (parseFloat group)); [|reflexivity].
  unfold JsMath.min.
  destruct (PrimFloat.is_nan _ || PrimFloat.is_nan _)%bool; [reflexivity|].
  destruct (65000 <? parseFloat group * 1000)%float eqn:Hcmp;
    [reflexivity | exact Hcmp].
Qed.

End QuotaFacts.

Section WaitFacts.

Variables T E : Type.
Variable message : E -> option string.
Variable fn : nat -> Retry.settled T E.
Variable maxRetries : Z.

(** Every wait follows a rejected call, and is the delay computed from the
    message of that rejection. *)
Lemma loop_waits_at (delayMs : string -> nat -> float) (fuel : nat) :
  forall attempt last j d,
    nth_error
      (Retry.waits (Retry.loop message delayMs fn maxRetries fuel attempt last)) j
    = Some d ->
    exists e, fn (attempt + j)%nat = Retry.Rejected e
              /\ d = delayMs (Retry.messageOf message e) (attempt + j)%nat.
Proof.
  induction fuel as [|fuel IH]; intros attempt last j d; cbn [Retry.loop].
  - destruct j; discriminate.
  - destruct (Z.of_nat attempt <? maxRetries)%Z; [|destruct j; discriminate].
    destruct (fn attempt) as [v|e] eqn:Hf; [destruct j; discriminate|].
    destruct (negb _ || _)%bool; [destruct j; discriminate|].
    cbn [Retry.waits]. destruct j as [|j]; cbn [nth_error].
    + intros H. inversion H; subst. rewrite Nat.add_0_r. eauto.
    + intros H. destruct (IH _ _ _ _ H) as (e' & He' & Hd).
      replace (attempt + S j)%nat with (S attempt + j)%nat by lia. eauto.
Qed.

(** Two ways to compute the delay that agree on the messages of the
    rejections give the same run. *)
Lemma loop_same_delays (delayMs delayMs' : string -> nat -> float) :
  (forall k e, fn k = Retry.Rejected e ->
     delayMs (Retry.messageOf message e) k
     = delayMs' (Retry.messageOf message e) k) ->
  forall fuel attempt last,
    Retry.loop message delayMs fn maxRetries fuel attempt last
    = Retry.loop message delayMs' fn maxRetries fuel attempt last.
Proof.
  intros Hsame. induction fuel as [|fuel IH]; intros attempt last;
    cbn [Retry.loop]; [reflexivity|].
  destruct (Z.of_nat attempt <? maxRetries)%Z; [|reflexivity].
  destruct (fn attempt) as [v|e] eqn:Hf; [reflexivity|].
  destruct (negb _ || _)%bool; [reflexivity|].
  now rewrite IH, (Hsame attempt e Hf).
Qed.

End WaitFacts.

(** X13. In [withRetry] of [unnamed/part_004], when every rejection is a
    quota error (its message includes '429'), each wait follows a rejected
    call and is the delay [parse429RetryDelayMs] reads off the message of
    that rejection (the seconds it finds, times 1000, capped at 65000), or
    55000 ms when it reads none; no wait is longer than 65000 ms.  The
    exponential backoff is not used: the run is the same whatever
    [baseDelay] and the random numbers are. *)
Theorem quota_waits_follow_message
  (T E : Type) (message : E -> option string) (random : nat -> float)
  (matchSeconds : string -> option string) (parseFloat : string -> float)
  (fn : nat -> Retry.settled T E) (maxRetries : Z) (baseDelay : float) :
  (forall k e, fn k = Retry.Rejected e ->
               Hologram.includes "429" (Retry.messageOf message e) = true) ->
  (forall j d,
      nth_error
        (Retry.waits
           (Retry.withRetryQuota message random matchSeconds parseFloat
              fn maxRetries baseDelay)) j = Some d ->
      exists e,
        fn j = Retry.Rejected e
        /\ d = match Retry.parse429RetryDelayMs matchSeconds parseFloat
                       (Retry.messageOf message e) with
               | Some suggested => suggested
               | None => 55000%float
               end
        /\ (65000 <? d)%float = false)
  /\ (forall random' baseDelay',
         Retry.withRetryQuota message random' matchSeconds parseFloat
           fn maxRetries baseDelay'
         = Retry.withRetryQuota message random matchSeconds parseFloat
             fn maxRetries baseDelay).
Proof.
  intros Hq. split.
  - intros j d Hd. unfold Retry.withRetryQuota, Retry.withRetryBy in Hd.
    destruct (loop_waits_at T E message fn maxRetries _ _ _ _ _ _ Hd)
      as (e & He & Hdel).
    cbn [Nat.add] in He, Hdel. exists e. split; [exact He|].
    pose proof (quotaDelayMs_capped random matchSeconds parseFloat baseDelay
                  (Retry.messageOf message e) j (Hq j e He)) as Hcap.
    rewrite <- Hdel in Hcap. split; [|exact Hcap].
    rewrite Hdel. unfold Retry.quotaDelayMs. now rewrite (Hq j e He).
  - intros random' baseDelay'. unfold Retry.withRetryQuota, Retry.withRetryBy.
    apply loop_same_delays. intros k e He.
    unfold Retry.quotaDelayMs. now rewrite (Hq k e He).
Qed.

Lemma quota_waits_follow_message_witness :
  (exists e,
      Samples.quotaReplies 0 = Retry.Rejected e
      /\ 55000%float
         = match Retry.parse429RetryDelayMs Samples.matchSeconds
                   Samples.parseFloat
                   (Retry.messageOf (fun e : string => Some e) e) with
           | Some suggested => suggested
           | None => 55000%float
           end
      /\ (65000 <? 55000)%float = false)
  /\ (exists e,
         Samples.quotaReplies 1 = Retry.Rejected e
         /\ 12500%float
            = match Retry.parse429RetryDelayMs Samples.matchSeconds
                      Samples.parseFloat
                      (Retry.messageOf (fun e : string => Some e) e) with
              | Some suggested => suggested
              | None => 55000%float
              end
         /\ (65000 <? 12500)%float = false).
Proof.
  destruct (quota_waits_follow_message string string (fun e => Some e)
              (fun _ => 0.5%float) Samples.matchSeconds Samples.parseFloat
              Samples.quotaReplies 3 2000%float) as [Hwait _].
  - intros k e H. destruct k; inversion H; reflexivity.
  - split.
    + exact (Hwait 0%nat 55000%float eq_refl).
    + exact (Hwait 1%nat 12500%float eq_refl).
Defined.

(** X14. [simulateCode] of [unnamed/part_005] hides transient failures of
    the request: when the request is rejected with a retryable message
    fewer than three times and then answered, the result is the one a first
    answer with the same text would have given.  A rejection that is not
    retryable, or a third rejection in a row, rejects [simulateCode]
    (nothing is logged by it and no empty sequence is returned). *)
Theorem simulateCode_hides_transient_failures
  (E : Type) (message : E -> option string) (random : nat -> float)
  (JSON_parse : string -> option Js.value) (numberToString : float -> string)
  (fn : nat -> Retry.settled string E) (k : nat) :
  (k < 3)%nat ->
  Retry.retryableUntil message fn k = true ->
  (forall text, fn k = Retry.Fulfilled text ->
     Retry.simulateCode E message random JSON_parse numberToString fn
     = GeminiService.simulateCode JSON_parse numberToString None
         (GeminiService.ResponseText text))
  /\ (forall e, fn k = Retry.Rejected e ->
        Retry.isRetryable (Retry.messageOf message e) = false \/ k = 2%nat ->
        Retry.simulateCode E message random JSON_parse numberToString fn
        = (AlgoVision.Rejected, [])).
Proof.
  intros Hk Hbefore.
  destruct (loop_stops string E message
              (fun _ attempt => Retry.backoff random 2000%float attempt)
              fn 3 k (Z.to_nat 3) 0%nat None) as [Hok Herr];
    [cbn; lia | cbn; lia | |].
  { intros j Hj. cbn.
    exact (retryableUntil_at string E message fn k j Hbefore Hj). }
  unfold Retry.simulateCode, Retry.withRetry, Retry.withRetryBy.
  split.
  - intros text Ht. destruct (Hok text Ht) as (A & _). rewrite A. reflexivity.
  - intros e He Hstop.
    destruct (Herr e He) as (A & _).
    { destruct Hstop as [Hn| ->]; [now left | right; reflexivity]. }
    rewrite A. reflexivity.
Qed.

Lemma simulateCode_hides_transient_failures_witness :
  Retry.simulateCode string (fun e => Some e) (fun _ => 0.5%float)
    Samples.parseBody Samples.showNumber
    (fun attempt =>
       if (attempt <? 2)%nat
       then Retry.Rejected "The model is overloaded: 503 UNAVAILABLE"
       else Retry.Fulfilled "good")
  = GeminiService.simulateCode Samples.parseBody Samples.showNumber None
      (GeminiService.ResponseText "good").
Proof.
  apply (simulateCode_hides_transient_failures string (fun e => Some e)
           (fun _ => 0.5%float) Samples.parseBody Samples.showNumber
           (fun attempt =>
              if (attempt <? 2)%nat
              then Retry.Rejected "The model is overloaded: 503 UNAVAILABLE"
              else Retry.Fulfilled "good")
           2); [lia | reflexivity | reflexivity].
Defined.

(** ** Sessions of the grab-and-swap visualizer *)

Section GrabSessionFacts.
Import GrabVisualizer.
Local Open Scope list_scope.

Lemma gv_lookup_in_keys id ps p :
  lookup id ps = Some p -> In id (map fst ps).
Proof.
  induction ps as [|[k q] rest IH]; cbn; [discriminate|].
  destruct (String.eqb_spec id k) as [->|_]; [now left|].
  intros H. right. now apply IH.
Qed.

Lemma gv_keys_lookup id ps :
  In id (map fst ps) -> exists p, lookup id ps = Some p.
Proof.
  induction ps as [|[k q] rest IH]; cbn; [contradiction|].
  destruct (String.eqb_spec id k) as [->|Hne]; [eauto|].
  intros [E|Hin]; [congruence | now apply IH].
Qed.

Lemma gv_keys_assign id p ps :
  In id (map fst ps) -> map fst (assign id p ps) = map fst ps.
Proof.
  induction ps as [|[k q] rest IH]; cbn; [contradiction|].
  destruct (String.eqb_spec id k) as [->|Hne]; [reflexivity|].
  intros [E|Hin]; [congruence|]. cbn. now rewrite IH.
Qed.

Lemma gv_assign_assign id p q ps :
  assign id p (assign id q ps) = assign id p ps.
Proof.
  induction ps as [|[k r] rest IH]; cbn.
  - now rewrite String.eqb_refl.
  - destruct (String.eqb id k) eqn:E; cbn.
    + now rewrite String.eqb_refl.
    + now rewrite E, IH.
Qed.

Lemma gv_assign_lookup id p ps :
  lookup id ps = Some p -> assign id p ps = ps.
Proof.
  induction ps as [|[k r] rest IH]; cbn; [discriminate|].
  destruct (String.eqb_spec id k) as [->|Hne].
  - intros H. now inversion H.
  - intros H. now rewrite IH.
Qed.

(** Writing [a] over an entry that held [b] exchanges [b] for [a] among the
    places. *)
Lemma gv_assign_exchanges id a b ps :
  lookup id ps = Some b ->
  Permutation (b :: map snd (assign id a ps)) (a :: map snd ps).
Proof.
  induction ps as [|[k r] rest IH]; cbn; [discriminate|].
  destruct (String.eqb_spec id k) as [->|Hne].
  - intros H. inversion H; subst. cbn. apply perm_swap.
  - intros H. cbn.
    apply perm_trans with (r :: b :: map snd (assign id a rest));
      [apply perm_swap|].
    apply perm_trans with (r :: a :: map snd rest);
      [apply perm_skip, IH, H | apply perm_swap].
Qed.

(** Exchanging the places of two entries permutes the places. *)
Lemma gv_swap_permutes k k' a b ps :
  k <> k' -> lookup k ps = Some a -> lookup k' ps = Some b ->
  Permutation (map snd (assign k' a (assign k b ps))) (map snd ps).
Proof.
  intros Hne.
  induction ps as [|[k0 v0] rest IH]; cbn; [discriminate|].
  destruct (String.eqb_spec k k0) as [->|Hk].
  - destruct (String.eqb_spec k' k0) as [E|_]; [congruence|].
    intros Ha Hb. inversion Ha; subst. cbn.
    destruct (String.eqb_spec k' k0) as [E|_]; [congruence|]. cbn.
    apply gv_assign_exchanges, Hb.
  - destruct (String.eqb_spec k' k0) as [->|Hk'].
    + intros Ha Hb. inversion Hb; subst. cbn.
      rewrite String.eqb_refl. cbn.
      apply gv_assign_exchanges, Ha.
    + intros Ha Hb. cbn.
      destruct (String.eqb_spec k' k0) as [E|_]; [congruence|]. cbn.
      apply perm_skip, IH; assumption.
Qed.

Lemma ge_assign_assign id e e' es :
  assignEntry id e (assignEntry id e' es) = assignEntry id e es.
Proof.
  induction es as [|[k r] rest IH]; cbn.
  - now rewrite String.eqb_refl.
  - destruct (String.eqb id k) eqn:E; cbn.
    + now rewrite String.eqb_refl.
    + now rewrite E, IH.
Qed.

(** The entries left by an updater that writes [null] for [g]. *)
Lemma lost_entries g p0 ps :
  In g (map fst ps) ->
  lookup g (assign g p0 ps) = Some p0
  /\ assignEntry g None (placed ps)
     = assignEntry g None (placed (assign g p0 ps))
  /\ map fst (assignEntry g None (placed ps)) = map fst ps.
Proof.
  intros Hin. split; [apply gv_lookup_assign_same|]. split.
  - now rewrite <- assignEntry_placed, ge_assign_assign.
  - rewrite ge_keys_assign; rewrite keys_placed; auto.
Qed.

(** A frame on a state where every block has a position: the run returns,
    the ids are kept, and afterwards every block has a position again, or
    one has lost it. *)
Lemma grab_step_placed (slots : list point) (m : model)
  (f : GrabSession.frame) :
  GrabSession.allPlaced slots m ->
  exists m',
    GrabSession.step m f = Js.Return m'
    /\ GrabSession.ids m' = GrabSession.ids m
    /\ (GrabSession.allPlaced slots m' \/ GrabSession.oneLost slots m').
Proof.
  destruct m as [es g sp hov ip wp hp].
  unfold GrabSession.allPlaced, GrabSession.oneLost, GrabSession.ids.
  cbn [elementPositions grabbedIdRef wasPinchingRef grabbedStartPosRef].
  intros (ps & -> & Hperm & Hheld).
  rewrite keys_placed.
  destruct f as [width height thumb index|].
  2:{ unfold GrabSession.step, onNoHand.
      cbn [elementPositions grabbedIdRef grabbedStartPosRef].
      destruct g as [g|].
      - destruct (Hheld g eq_refl) as (_ & Hin & p0 & ->).
        destruct (lost_entries g p0 ps Hin) as (L1 & L2 & L3).
        eexists. split; [reflexivity|].
        cbn [render elementPositions grabbedIdRef grabbedStartPosRef
             applyUpdater].
        split; [exact L3|].
        right. exists g, p0, (assign g p0 ps).
        split; [reflexivity|]. split; [exact L1|].
        split; [exact L2 | exact Hperm].
      - eexists. split; [reflexivity|].
        cbn [render elementPositions grabbedIdRef grabbedStartPosRef].
        split; [apply keys_placed|].
        left. exists ps. split; [reflexivity|]. split; [exact Hperm|].
        discriminate. }
  unfold GrabSession.step, onHand. cbv zeta.
  cbn [elementPositions grabbedIdRef wasPinchingRef grabbedStartPosRef
       isPinchingRef currentHandPosRef].
  rewrite readEntries_placed. cbn [Js.bind].
  generalize (nextPinching ip (pinchDistance thumb index)). intros b.
  match goal with
  | |- context [findHover ?a ?c ps] =>
      generalize (findHover a c ps); generalize a; generalize c
  end.
  intros hy hx fh.
  destruct g as [g|].
  - destruct (Hheld g eq_refl) as (-> & Hin & p0 & ->). clear Hheld.
    rewrite andb_false_r.
    destruct b; cbn [negb andb Js.bind].
    + eexists. split; [reflexivity|].
      cbn [render elementPositions grabbedIdRef grabbedStartPosRef
           wasPinchingRef applyUpdater].
      rewrite assignEntry_placed, keys_placed.
      split; [now apply gv_keys_assign|].
      left. eexists. split; [reflexivity|].
      rewrite gv_assign_assign. split; [exact Hperm|].
      intros g0 E. inversion E; subst g0.
      split; [reflexivity|]. split; [|eauto].
      now rewrite gv_keys_assign.
    + destruct (gv_keys_lookup g ps Hin) as [gp Hgp].
      unfold release. rewrite Hgp. cbn [Js.bind].
      pose proof (findSwapTarget_found g gp ps) as Hf.
      destruct (findSwapTarget g gp ps) as [[t|] d]; cbn [fst].
      * destruct Hf as [[E _]|(t' & tp & E & Hint & Hne & _)];
          [discriminate E|].
        inversion E; subst t' d. clear E.
        apply (in_map fst) in Hint. cbn [fst] in Hint.
        destruct (gv_keys_lookup t ps Hint) as [tq Htq]. rewrite Htq.
        eexists. split; [reflexivity|].
        cbn [render elementPositions grabbedIdRef grabbedStartPosRef
             wasPinchingRef applyUpdater].
        rewrite !assignEntry_placed, keys_placed.
        split.
        { rewrite !gv_keys_assign; [reflexivity | exact Hin |].
          now rewrite gv_keys_assign. }
        left. eexists. split; [reflexivity|]. split; [|discriminate].
        apply perm_trans with (map snd (assign g p0 ps)); [|exact Hperm].
        rewrite <- (gv_assign_assign g tq p0 ps).
        apply gv_swap_permutes.
        -- congruence.
        -- apply gv_lookup_assign_same.
        -- now rewrite gv_lookup_assign_other.
      * destruct (lost_entries g p0 ps Hin) as (L1 & L2 & L3).
        eexists. split; [reflexivity|].
        cbn [render elementPositions grabbedIdRef grabbedStartPosRef
             wasPinchingRef applyUpdater].
        split; [exact L3|].
        right. exists g, p0, (assign g p0 ps).
        split; [reflexivity|]. split; [exact L1|].
        split; [exact L2 | exact Hperm].
  - clear Hheld.
    assert (Hsame : forall sp' hov' ip' wp' hp',
               GrabSession.allPlaced slots
                 (mkModel (placed ps) None sp' hov' ip' wp' hp')).
    { intros. exists ps. split; [reflexivity|]. split; [|discriminate].
      destruct sp; exact Hperm. }
    destruct (b && negb wp)%bool eqn:Hb.
    + destruct fh as [h|].
      * destruct (lookup h ps) as [p|] eqn:Hl.
        -- apply andb_prop in Hb. destruct Hb as [-> _].
           cbn [negb andb Js.bind].
           pose proof (gv_lookup_in_keys h ps p Hl) as Hin.
           eexists. split; [reflexivity|].
           cbn [render elementPositions grabbedIdRef grabbedStartPosRef
                wasPinchingRef applyUpdater].
           rewrite assignEntry_placed, keys_placed.
           split; [now apply gv_keys_assign|].
           left. eexists. split; [reflexivity|].
           rewrite gv_assign_assign, (gv_assign_lookup h p ps Hl).
           split; [destruct sp; exact Hperm|].
           intros g0 E. inversion E; subst g0.
           split; [reflexivity|]. split; [|eauto].
           now rewrite gv_keys_assign.
        -- cbn [Js.bind]. eexists. split; [reflexivity|].
           cbn [render]. split; [apply keys_placed|]. left. apply Hsame.
      * cbn [Js.bind]. eexists. split; [reflexivity|].
        cbn [render]. split; [apply keys_placed|]. left. apply Hsame.
    + cbn [Js.bind]. eexists. split; [reflexivity|].
      cbn [render]. split; [apply keys_placed|]. left. apply Hsame.
Qed.

(** A frame on a state where a block has lost its place: without a hand
    nothing changes but the refs; with a hand the run throws. *)
Lemma grab_step_lost (slots : list point) (m : model) :
  GrabSession.oneLost slots m ->
  (exists m',
      GrabSession.step m GrabSession.NoHand = Js.Return m'
      /\ GrabSession.ids m' = GrabSession.ids m
      /\ GrabSession.oneLost slots m')
  /\ forall width height thumb index,
       GrabSession.step m (GrabSession.Hand width height thumb index)
       = Js.Throw "TypeError".
Proof.
  destruct m as [es g sp hov ip wp hp].
  unfold GrabSession.oneLost, GrabSession.ids.
  cbn [elementPositions grabbedIdRef].
  intros (g0 & p0 & ps & -> & Hl & -> & Hperm).
  split.
  - unfold GrabSession.step, onNoHand.
    cbn [grabbedIdRef render elementPositions].
    eexists. split; [reflexivity|]. cbn [elementPositions grabbedIdRef].
    split; [reflexivity|].
    exists g0, p0, ps. auto.
  - intros. unfold GrabSession.step, onHand.
    cbn [elementPositions].
    rewrite (readEntries_null g0) by apply ge_lookup_assign_same.
    reflexivity.
Qed.

Lemma grab_run_app (fs gs : list GrabSession.frame) :
  forall m,
    GrabSession.run m (fs ++ gs)
    = Js.bind (GrabSession.run m fs) (fun m' => GrabSession.run m' gs).
Proof.
  induction fs as [|f fs IH]; intros m; cbn; [reflexivity|].
  destruct (GrabSession.step m f); cbn; [apply IH | reflexivity].
Qed.

(** A session: the ids are kept and the state stays as described; it
    throws only in a run with a hand in view on a state where a block has
    lost its place. *)
Lemma grab_run_keeps (slots : list point) (fs : list GrabSession.frame) :
  forall m : model,
    GrabSession.allPlaced slots m \/ GrabSession.oneLost slots m ->
    (forall m', GrabSession.run m fs = Js.Return m' ->
       GrabSession.ids m' = GrabSession.ids m
       /\ (GrabSession.allPlaced slots m' \/ GrabSession.oneLost slots m'))
    /\ (forall e, GrabSession.run m fs = Js.Throw e ->
          e = "TypeError"
          /\ exists pre width height thumb index post lost,
               fs = pre ++ GrabSession.Hand width height thumb index :: post
               /\ GrabSession.run m pre = Js.Return lost
               /\ GrabSession.oneLost slots lost).
Proof.
  induction fs as [|f fs IH]; intros m Hm; cbn [GrabSession.run].
  - split.
    + intros m' E. inversion E; subst. auto.
    + intros e E. discriminate E.
  - assert (Hstep :
      (exists m1, GrabSession.step m f = Js.Return m1
                  /\ GrabSession.ids m1 = GrabSession.ids m
                  /\ (GrabSession.allPlaced slots m1
                      \/ GrabSession.oneLost slots m1))
      \/ (GrabSession.oneLost slots m
          /\ GrabSession.step m f = Js.Throw "TypeError"
          /\ exists width height thumb index,
               f = GrabSession.Hand width height thumb index)).
    { destruct Hm as [Hp|Hl].
      - left. apply grab_step_placed, Hp.
      - destruct (grab_step_lost slots m Hl) as [(m1 & E & I & L) Hthrow].
        destruct f as [width height thumb index|].
        + right. split; [exact Hl|]. split; [apply Hthrow|]. eauto 6.
        + left. exists m1. auto. }
    destruct Hstep as [(m1 & E & I & Hm1)|(Hl & E & width & height & thumb & index & ->)];
      rewrite E; cbn [Js.bind].
    + destruct (IH m1 Hm1) as [Hret Hthrow]. split.
      * intros m' R. destruct (Hret m' R) as [I' H']. split; [congruence|exact H'].
      * intros e T.
        destruct (Hthrow e T)
          as (-> & pre & width & height & thumb & index & post & lost & -> & R & L).
        split; [reflexivity|].
        exists (f :: pre), width, height, thumb, index, post, lost.
        split; [reflexivity|]. split; [|exact L].
        cbn [GrabSession.run]. rewrite E. exact R.
    + split; [intros m' R; discriminate R|].
      intros e T. inversion T; subst e. split; [reflexivity|].
      exists [], width, height, thumb, index, fs, m.
      split; [reflexivity|]. split; [reflexivity | exact Hl].
Qed.

End GrabSessionFacts.

(** X15. Sessions of the grab-and-swap visualizer: any sequence of frames
    with or without a hand, from a state where every block has a position
    and nothing is grabbed.
    - No block is created, deleted or renamed.
    - As long as every block has a position, every frame's run returns, and
      the blocks are on the places they had at the start, each place once,
      when nothing is grabbed, or once the grabbed block is put back where
      it was grabbed: gestures only permute the blocks over the slots.
    - Otherwise exactly one block has lost its place: its entry holds
      [null], the other blocks are on places of the start, each on its own,
      and nothing is grabbed.
    - A session throws only a TypeError, and only in a run with a hand in
      view that comes after a block has lost its place. *)
Theorem grab_session_keeps_slots_or_loses_one
  (m0 : GrabVisualizer.model) (ps0 : GrabVisualizer.positions)
  (fs : list GrabSession.frame) :
  GrabVisualizer.grabbedIdRef m0 = None ->
  GrabVisualizer.elementPositions m0 = GrabVisualizer.placed ps0 ->
  (forall m, GrabSession.run m0 fs = Js.Return m ->
     GrabSession.ids m = GrabSession.ids m0
     /\ (GrabSession.allPlaced (map snd ps0) m
         \/ GrabSession.oneLost (map snd ps0) m))
  /\ (forall m f, GrabSession.run m0 fs = Js.Return m ->
        GrabSession.allPlaced (map snd ps0) m ->
        exists m', GrabSession.run m0 (fs ++ [f])%list = Js.Return m')
  /\ (forall e, GrabSession.run m0 fs = Js.Throw e ->
        e = "TypeError"
        /\ exists pre width height thumb index post lost,
             fs = (pre ++ GrabSession.Hand width height thumb index :: post)%list
             /\ GrabSession.run m0 pre = Js.Return lost
             /\ GrabSession.oneLost (map snd ps0) lost).
Proof.
  intros Hidle Hes.
  assert (H0 : GrabSession.allPlaced (map snd ps0) m0).
  { exists ps0. split; [exact Hes|]. rewrite Hidle.
    split; [apply Permutation_refl|]. discriminate. }
  destruct (grab_run_keeps (map snd ps0) fs m0 (or_introl H0)) as [Hret Hthrow].
  split; [exact Hret|]. split; [|exact Hthrow].
  intros m f R Hp. rewrite grab_run_app, R. cbn.
  destruct (grab_step_placed (map snd ps0) m f Hp) as (m' & E & _).
  rewrite E. cbn. eauto.
Qed.

Lemma grab_session_keeps_slots_or_loses_one_witness :
  (exists m,
      GrabSession.run Samples.restingModel Samples.dragFrames = Js.Return m
      /\ GrabSession.ids m = ["item-0"; "item-1"; "item-2"]
      /\ Permutation (GrabSession.places m)
           [Some (GrabVisualizer.mkPoint 420 255);
            Some (GrabVisualizer.mkPoint 545 255);
            Some (GrabVisualizer.mkPoint 670 255)])
  /\ (exists pre width height thumb index post lost,
         Samples.interruptedFrames
         = (pre ++ GrabSession.Hand width height thumb index :: post)%list
         /\ GrabSession.run Samples.restingModel pre = Js.Return lost
         /\ GrabSession.oneLost
              [GrabVisualizer.mkPoint 420 255; GrabVisualizer.mkPoint 545 255;
               GrabVisualizer.mkPoint 670 255] lost).
Proof.
  split.
  - destruct (grab_session_keeps_slots_or_loses_one Samples.restingModel
                [("item-0", GrabVisualizer.mkPoint 420 255);
                 ("item-1", GrabVisualizer.mkPoint 545 255);
                 ("item-2", GrabVisualizer.mkPoint 670 255)]
                Samples.dragFrames eq_refl eq_refl) as (Hret & _ & _).
    destruct (GrabSession.run Samples.restingModel Samples.dragFrames)
      as [m|e] eqn:Hrun; [|vm_compute in Hrun; discriminate Hrun].
    exists m. split; [reflexivity|].
    destruct (Hret m eq_refl) as [Hids Hstate].
    split; [exact Hids|].
    vm_compute in Hrun. injection Hrun as <-.
    destruct Hstate as [(ps & Hes & Hperm & _)|(g & p0 & ps & _ & _ & Hes & _)].
    + cbn in Hes, Hperm. unfold GrabSession.places.
      cbn [GrabVisualizer.elementPositions]. rewrite Hes.
      unfold GrabVisualizer.placed. rewrite map_map. cbn [snd].
      rewrite <- (map_map snd Some).
      exact (Permutation_map Some Hperm).
    + cbn in Hes.
      assert (Hnull : GrabVisualizer.lookupEntry g
                        (GrabVisualizer.assignEntry g None
                           (GrabVisualizer.placed ps)) = Some None)
        by apply ge_lookup_assign_same.
      rewrite <- Hes in Hnull. cbn in Hnull.
      destruct (String.eqb g "item-0"); [discriminate Hnull|].
      destruct (String.eqb g "item-1"); [discriminate Hnull|].
      destruct (String.eqb g "item-2"); discriminate Hnull.
  - destruct (grab_session_keeps_slots_or_loses_one Samples.restingModel
                [("item-0", GrabVisualizer.mkPoint 420 255);
                 ("item-1", GrabVisualizer.mkPoint 545 255);
                 ("item-2", GrabVisualizer.mkPoint 670 255)]
                Samples.interruptedFrames eq_refl eq_refl) as (_ & _ & Hthrow).
    destruct (Hthrow "TypeError") as [_ H]; [vm_compute; reflexivity|].
    exact H.
Defined.

(** ** The tree branch: structure *)

Section TreeShapeFacts.
Import HologramRenderer.
Local Open Scope list_scope.

Lemma shape_setX k v st :
  map TreeShape.shape (setX k v st) = map TreeShape.shape st.
Proof.
  revert k. induction st as [|n rest IH]; intros k; [destruct k; reflexivity|].
  destruct k as [|k]; cbn; [reflexivity|]. now rewrite IH.
Qed.

Lemma shape_fold {A : Type} (f : store -> A -> store) (l : list A) :
  (forall st a, map TreeShape.shape (f st a) = map TreeShape.shape st) ->
  forall st, map TreeShape.shape (fold_left f l st) = map TreeShape.shape st.
Proof.
  intros Hf. induction l as [|a l IH]; intros st; cbn; [reflexivity|].
  now rewrite IH, Hf.
Qed.

Lemma shape_placeBottom base nodes st :
  map TreeShape.shape (placeBottom base nodes st) = map TreeShape.shape st.
Proof.
  unfold placeBottom.
  generalize ((JsMath.ofNat (List.length nodes) - 1) * base)%float. intros w.
  generalize 0%nat. revert st.
  induction nodes as [|k nodes IH]; intros st i; cbn; [reflexivity|].
  rewrite IH. cbn. apply shape_setX.
Qed.

Lemma shape_placeInner base maxCh maxLvl lvl st k :
  map TreeShape.shape (placeInner base maxCh maxLvl lvl st k)
  = map TreeShape.shape st.
Proof.
  unfold placeInner. destruct (nth_error st k) as [node|]; [|reflexivity].
  destruct (filter _ st); apply shape_setX.
Qed.

Lemma shape_placeLevel base maxCh maxLvl st lvl :
  map TreeShape.shape (placeLevel base maxCh maxLvl st lvl)
  = map TreeShape.shape st.
Proof.
  unfold placeLevel. destruct (Nat.eqb lvl maxLvl).
  - apply shape_placeBottom.
  - apply shape_fold. intros. apply shape_placeInner.
Qed.

Lemma shape_pushApart gapMin st pair :
  map TreeShape.shape (pushApart gapMin st pair) = map TreeShape.shape st.
Proof.
  unfold pushApart. destruct pair as [a b].
  destruct (_ <? _)%float; [|reflexivity]. now rewrite !shape_setX.
Qed.

Lemma shape_resolveLevel gapMin st lvl :
  map TreeShape.shape (resolveLevel gapMin st lvl) = map TreeShape.shape st.
Proof.
  unfold resolveLevel. apply shape_fold. intros. apply shape_pushApart.
Qed.

Lemma shape_centerTree st :
  map TreeShape.shape (centerTree st) = map TreeShape.shape st.
Proof.
  unfold centerTree. rewrite !map_map. apply map_ext. reflexivity.
Qed.

End TreeShapeFacts.

Lemma calculatePositions_shape (treeNodes : HologramRenderer.store) :
  map TreeShape.shape (HologramRenderer.calculatePositions treeNodes)
  = map TreeShape.shape treeNodes.
Proof.
  unfold HologramRenderer.calculatePositions.
  destruct treeNodes as [|n rest]; [reflexivity|].
  rewrite shape_centerTree.
  unfold HologramRenderer.resolveOverlaps.
  rewrite shape_fold by (intros; apply shape_resolveLevel).
  unfold HologramRenderer.placeAll.
  apply shape_fold. intros. apply shape_placeLevel.
Qed.

(** X16. [calculatePositions] only moves nodes: the tree it returns has the
    same nodes in the same order, each with the id, value, level, parent
    and children it came with; only [x] and [y] can differ. *)
Theorem calculatePositions_keeps_structure (treeNodes : HologramRenderer.store) :
  map TreeShape.shape (HologramRenderer.calculatePositions treeNodes)
  = map TreeShape.shape treeNodes
  /\ List.length (HologramRenderer.calculatePositions treeNodes)
     = List.length treeNodes.
Proof.
  pose proof (calculatePositions_shape treeNodes) as H.
  split; [exact H|].
  apply (f_equal (@List.length _)) in H. now rewrite !length_map in H.
Qed.

Section LevelOrderFacts.
Import HologramRenderer.
Local Open Scope list_scope.

Variable data : list Js.value.

Lemma levelOrderNode_id idx n : In n (levelOrderNode data idx) -> id n = idx.
Proof.
  unfold levelOrderNode. destruct (isNode _); [|contradiction].
  intros [<-|[]]. reflexivity.
Qed.

Lemma find_levelOrder c m :
  levelOrderNode data c = [m] ->
  forall len start, (start <= c < start + len)%nat ->
    find (fun n => Nat.eqb (id n) c)
         (flat_map (levelOrderNode data) (seq start len)) = Some m.
Proof.
  intros Hm. induction len as [|len IH]; intros start Hc; [lia|].
  cbn [seq flat_map].
  destruct (Nat.eq_dec start c) as [->|Hne].
  - rewrite Hm. cbn [app find].
    rewrite (levelOrderNode_id c m) by (rewrite Hm; now left).
    now rewrite Nat.eqb_refl.
  - assert (Hskip : forall l,
               find (fun n => Nat.eqb (id n) c) (levelOrderNode data start ++ l)
               = find (fun n => Nat.eqb (id n) c) l).
    { intros l. pose proof (levelOrderNode_id start) as Hid.
      destruct (levelOrderNode data start) as [|a [|b r]] eqn:E.
      - reflexivity.
      - cbn. rewrite (Hid a) by now left.
        destruct (Nat.eqb_spec start c); [contradiction|reflexivity].
      - unfold levelOrderNode in E. destruct (isNode _); discriminate E. }
    rewrite Hskip. apply IH. lia.
Qed.

Lemma in_childAt c k : In c (childAt data k) ->
  c = k /\ (k < List.length data)%nat /\ isChild (nth k data Js.Undefined) = true.
Proof.
  unfold childAt.
  destruct (k <? List.length data)%nat eqn:Hlt; cbn; [|contradiction].
  destruct (isChild _) eqn:Hc; [|contradiction].
  intros [<-|[]]. apply Nat.ltb_lt in Hlt. auto.
Qed.

End LevelOrderFacts.

(** X17. The level-order reading of an array ([[1, 2, 3, null, 5]]) is
    consistent from parent to child: node ids are distinct, and every id a
    node lists among its children is the id of a node of the tree, one
    level below, whose parent is the lister and whose value is the array's
    entry at that index.  (An array decoded from JSON holds no
    [undefined].) *)
Theorem level_order_children_are_nodes
  (data : list Js.value) (n : HologramRenderer.treeNode) (c : nat) :
  (forall v, In v data -> v <> Js.Undefined) ->
  In n (HologramRenderer.parseLevelOrder data) ->
  In c (HologramRenderer.children n) ->
  NoDup (map HologramRenderer.id (HologramRenderer.parseLevelOrder data))
  /\ exists m,
      TreeShape.findNode (HologramRenderer.parseLevelOrder data) c = Some m
      /\ HologramRenderer.id m = c
      /\ HologramRenderer.parentId m = Some (HologramRenderer.id n)
      /\ HologramRenderer.level m = S (HologramRenderer.level n)
      /\ HologramRenderer.val m = nth c data Js.Undefined.
Proof.
  intros Hdef Hn Hc. split.
  - unfold HologramRenderer.parseLevelOrder.
    generalize (List.length data). intros len. generalize 0%nat.
    induction len as [|len IH]; intros start; cbn [seq flat_map map];
      [constructor|].
    rewrite map_app.
    assert (Hlater : forall k,
               In k (map HologramRenderer.id
                       (flat_map (HologramRenderer.levelOrderNode data)
                          (seq (S start) len))) -> (start < k)%nat).
    { intros k Hk. apply in_map_iff in Hk. destruct Hk as (m & <- & Hm).
      apply in_flat_map in Hm. destruct Hm as (i & Hi & Hm).
      apply in_seq in Hi. rewrite (levelOrderNode_id data i m Hm). lia. }
    pose proof (levelOrderNode_id data start) as Hid.
    unfold HologramRenderer.levelOrderNode in *.
    destruct (HologramRenderer.isNode _); cbn [map app]; [|apply IH].
    constructor; [|apply IH].
    intros Hin. apply Hlater in Hin. cbn in Hin. lia.
  - unfold HologramRenderer.parseLevelOrder in Hn.
    apply in_flat_map in Hn. destruct Hn as (idx & Hidx & Hn).
    apply in_seq in Hidx.
    unfold HologramRenderer.levelOrderNode in Hn.
    destruct (HologramRenderer.isNode (nth idx data Js.Undefined)); [|contradiction].
    destruct Hn as [<-|[]]. cbn [HologramRenderer.children] in Hc.
    cbn [HologramRenderer.id HologramRenderer.level].
    assert (Hcase : (c = 2 * idx + 1 \/ c = 2 * idx + 2)%nat
                    /\ (c < List.length data)%nat
                    /\ HologramRenderer.isChild (nth c data Js.Undefined) = true).
    { apply in_app_or in Hc.
      destruct Hc as [Hc|Hc]; apply in_childAt in Hc;
        destruct Hc as (-> & Hlt & Hch); auto. }
    destruct Hcase as (Hcase & Hlt & Hch).
    assert (Hnode : HologramRenderer.isNode (nth c data Js.Undefined) = true).
    { pose proof (Hdef (nth c data Js.Undefined) (nth_In data _ Hlt)) as Hu.
      destruct (nth c data Js.Undefined); try reflexivity;
        try exact Hch; congruence. }
    assert (Hm : exists m, HologramRenderer.levelOrderNode data c = [m]
                           /\ HologramRenderer.id m = c
                           /\ HologramRenderer.parentId m
                              = match c with
                                | O => None
                                | _ => Some (Nat.div (c - 1) 2)
                                end
                           /\ HologramRenderer.level m = Nat.log2 (c + 1)
                           /\ HologramRenderer.val m = nth c data Js.Undefined).
    { unfold HologramRenderer.levelOrderNode. rewrite Hnode.
      eexists. split; [reflexivity|]. cbn. auto. }
    destruct Hm as (m & Hm & Hid & Hpar & Hlvl & Hval).
    exists m. split.
    { unfold TreeShape.findNode, HologramRenderer.parseLevelOrder.
      apply (find_levelOrder data c m Hm). lia. }
    split; [exact Hid|]. split; [|split; [|exact Hval]].
    + rewrite Hpar. destruct c as [|c']; [lia|]. f_equal.
      destruct Hcase as [E|E].
      * replace (S c' - 1)%nat with (idx * 2)%nat by lia.
        apply Nat.div_mul. lia.
      * replace (S c' - 1)%nat with (1 + idx * 2)%nat by lia.
        rewrite Nat.div_add by lia. reflexivity.
    + rewrite Hlvl. destruct Hcase as [->| ->].
      * replace (2 * idx + 1 + 1)%nat with (2 * (idx + 1))%nat by lia.
        apply Nat.log2_double. lia.
      * replace (2 * idx + 2 + 1)%nat with (2 * (idx + 1) + 1)%nat by lia.
        apply Nat.log2_succ_double. lia.
Qed.

Lemma level_order_children_are_nodes_witness :
  exists m,
    TreeShape.findNode (HologramRenderer.parseLevelOrder Samples.unevenTree) 8
    = Some m
    /\ HologramRenderer.id m = 8%nat
    /\ HologramRenderer.parentId m = Some 3%nat
    /\ HologramRenderer.level m = 3%nat
    /\ HologramRenderer.val m = Js.Num 7.
Proof.
  destruct (level_order_children_are_nodes Samples.unevenTree
              (HologramRenderer.mkNode 3 (Js.Num 4) 2 0 180 (Some 1%nat) [8%nat])
              8) as [_ H].
  - intros v Hin.
    repeat (destruct Hin as [<-|Hin]; [discriminate|]). contradiction.
  - vm_compute. do 3 right. left. reflexivity.
  - now left.
  - exact H.
Defined.

(** ** Zooming the hologram canvas *)

Section FloatProducts.

Lemma shr_1_nonneg (mrs : shr_record) :
  (0 <= shr_m mrs)%Z -> (0 <= shr_m (shr_1 mrs))%Z.
Proof.
  destruct mrs as [m r s]. cbn.
  destruct m as [|p|p]; [cbn; lia | | lia].
  destruct p; cbn; lia.
Qed.

Lemma iter_pos_shr_1_nonneg (p : positive) :
  forall mrs, (0 <= shr_m mrs)%Z -> (0 <= shr_m (SpecFloat.iter_pos shr_1 p mrs))%Z.
Proof.
  induction p as [p IH|p IH|]; intros mrs H; cbn.
  - apply IH, IH, shr_1_nonneg, H.
  - apply IH, IH, H.
  - apply shr_1_nonneg, H.
Qed.

Lemma shr_fexp_nonneg (m e : Z) (l : location) :
  (0 <= m)%Z -> (0 <= shr_m (fst (shr_fexp prec emax m e l)))%Z.
Proof.
  intros H. unfold shr_fexp, shr.
  assert (H0 : (0 <= shr_m (shr_record_of_loc m l))%Z)
    by (destruct l as [|[| |]]; exact H).
  destruct (fexp prec emax (Zdigits2 m + e) - e)%Z; cbn [fst];
    [exact H0 | apply iter_pos_shr_1_nonneg, H0 | exact H0].
Qed.

Lemma round_nearest_even_nonneg (m : Z) (l : location) :
  (0 <= m)%Z -> (0 <= round_nearest_even m l)%Z.
Proof.
  intros H. unfold round_nearest_even.
  destruct l as [|[| |]]; try exact H; [destruct (IntDef.Z.even m)|]; lia.
Qed.

Lemma binary_round_aux_not_nan (sx : bool) (mx ex : Z) (lx : location) :
  (0 <= mx)%Z -> binary_round_aux prec emax sx mx ex lx <> S754_nan.
Proof.
  intros H. unfold binary_round_aux.
  pose proof (shr_fexp_nonneg mx ex lx H) as H1.
  destruct (shr_fexp prec emax mx ex lx) as [mrs1 e1]. cbn [fst] in H1.
  pose proof (shr_fexp_nonneg
                (round_nearest_even (shr_m mrs1) (loc_of_shr_record mrs1))
                e1 loc_Exact (round_nearest_even_nonneg _ _ H1)) as H2.
  destruct (shr_fexp prec emax _ e1 loc_Exact) as [mrs2 e2]. cbn [fst] in H2.
  destruct (shr_m mrs2) as [|m|m]; [discriminate | | lia].
  destruct (e2 <=? emax - prec)%Z; discriminate.
Qed.

(** A number (not NaN) times a finite number other than zero is a number. *)
Lemma mul_finite_not_nan (a b : float) (s : bool) (m : positive) (e : Z) :
  PrimFloat.is_nan a = false -> Prim2SF b = S754_finite s m e ->
  PrimFloat.is_nan (a * b) = false.
Proof.
  intros Ha Hb. apply is_nan_Prim2SF in Ha.
  assert (Hm : Prim2SF (a * b) <> S754_nan).
  { rewrite FloatAxioms.mul_spec, Hb. unfold SF64mul, SFmul.
    destruct (Prim2SF a) as [sa|sa| |sa ma ea]; try discriminate;
      [congruence|].
    apply binary_round_aux_not_nan. lia. }
  unfold PrimFloat.is_nan. rewrite FloatAxioms.eqb_spec. unfold SFeqb.
  destruct (SFcompare_some _ _ Hm Hm) as [c Hc].
  destruct (SFcompare_refl (Prim2SF (a * b))) as [E|E]; rewrite E in *;
    [reflexivity | discriminate].
Qed.

Lemma ltb_leb (a b : float) : (a <? b)%float = true -> (a <=? b)%float = true.
Proof.
  rewrite FloatAxioms.ltb_spec, FloatAxioms.leb_spec. unfold SFltb, SFleb.
  destruct (SFcompare (Prim2SF a) (Prim2SF b)) as [[| |]|]; congruence.
Qed.

End FloatProducts.

(** X18. Zooming the hologram canvas keeps the scale between 0.2 and 5:
    from any scale that is a number, one wheel event (whatever its
    [deltaY], NaN included) gives a scale in that range, and so does any
    sequence of wheel events from the initial scale 1. *)
Theorem zoom_stays_in_range (prev deltaY : float) (deltas : list float) :
  PrimFloat.is_nan prev = false ->
  ((0.2 <=? HologramCanvas.handleWheel prev deltaY)%float = true
   /\ (HologramCanvas.handleWheel prev deltaY <=? 5)%float = true)
  /\ ((0.2 <=? HologramCanvas.zoom deltas)%float = true
      /\ (HologramCanvas.zoom deltas <=? 5)%float = true).
Proof.
  assert (Hstep : forall p d,
             PrimFloat.is_nan p = false ->
             PrimFloat.is_nan (HologramCanvas.handleWheel p d) = false
             /\ (0.2 <=? HologramCanvas.handleWheel p d)%float = true
             /\ (HologramCanvas.handleWheel p d <=? 5)%float = true).
  { intros p d Hp. unfold HologramCanvas.handleWheel.
    assert (Hv : PrimFloat.is_nan (p * (if (0 <? d)%float then 0.9 else 1.1))%float
                 = false).
    { destruct (0 <? d)%float.
      - eapply mul_finite_not_nan; [exact Hp | vm_compute; reflexivity].
      - eapply mul_finite_not_nan; [exact Hp | vm_compute; reflexivity]. }
    generalize dependent (p * (if (0 <? d)%float then 0.9 else 1.1))%float.
    intros v Hv. unfold JsMath.min, JsMath.max. rewrite Hv.
    replace (PrimFloat.is_nan 5) with false by reflexivity.
    replace (PrimFloat.is_nan 0.2) with false by reflexivity.
    cbn [orb].
    destruct (v <? 5)%float eqn:H5.
    - rewrite Hv. destruct (0.2 <? v)%float eqn:H2.
      + split; [exact Hv|]. split; apply ltb_leb; assumption.
      + split; [reflexivity|]. split; reflexivity.
    - replace (PrimFloat.is_nan 5) with false by reflexivity.
      replace (0.2 <? 5)%float with true by reflexivity.
      split; [reflexivity|]. split; reflexivity. }
  intros Hprev. split; [exact (proj2 (Hstep prev deltaY Hprev))|].
  unfold HologramCanvas.zoom.
  assert (Hrun : forall ds p,
             PrimFloat.is_nan p = false ->
             (0.2 <=? p)%float = true -> (p <=? 5)%float = true ->
             (0.2 <=? fold_left HologramCanvas.handleWheel ds p)%float = true
             /\ (fold_left HologramCanvas.handleWheel ds p <=? 5)%float = true).
  { induction ds as [|d ds IH]; intros p Hp Hlo Hhi; cbn [fold_left];
      [auto|].
    destruct (Hstep p d Hp) as (A & B & C). now apply IH. }
  apply Hrun; reflexivity.
Qed.

Lemma zoom_stays_in_range_witness :
  (0.2 <=? HologramCanvas.handleWheel 5 (-120))%float = true
  /\ (HologramCanvas.handleWheel 5 (-120) <=? 5)%float = true.
Proof.
  apply (zoom_stays_in_range 5 (-120) []). reflexivity.
Defined.

(** ** The hover search *)

Section HoverFacts.
Import GrabVisualizer.
Local Open Scope float_scope.
Local Open Scope list_scope.

Variables handX handY : float.

Lemma considerHover_scan acc id p :
  considerHover handX handY acc (id, p)
  = if HoverSearch.hoverable handX handY p
       && (HoverSearch.distToCenter handX handY p <? snd acc)
    then (Some id, HoverSearch.distToCenter handX handY p) else acc.
Proof.
  unfold considerHover, HoverSearch.hoverable.
  fold (HoverSearch.distToCenter handX handY p).
  destruct ((x p <=? handX) && (handX <=? x p + blockW)
            && (y p <=? handY) && (handY <=? y p + blockH))%bool; cbn [orb andb].
  - reflexivity.
  - destruct (HoverSearch.distToCenter handX handY p <? 60); reflexivity.
Qed.

Lemma considerHover_found seen acc id p :
  HoverSearch.found handX handY seen acc ->
  HoverSearch.found handX handY (seen ++ [(id, p)])
    (considerHover handX handY acc (id, p)).
Proof.
  intros Hf. rewrite considerHover_scan.
  destruct (HoverSearch.hoverable handX handY p) eqn:Hh; cbn [andb].
  - destruct Hf as [[-> Hnone]|(t & tp & -> & Hin & Ht & Hmin)]; cbn [snd].
    + destruct (HoverSearch.distToCenter handX handY p <? infinity) eqn:Hd.
      * right. exists id, p. repeat split; auto.
        -- apply in_or_app. right. now left.
        -- intros id' p' Hin' Hh'.
           apply in_app_or in Hin'. destruct Hin' as [Hin'|[E|[]]].
           ++ destruct (HoverSearch.distToCenter handX handY p'
                        <? HoverSearch.distToCenter handX handY p) eqn:Hlt;
                [|reflexivity].
              rewrite <- (Hnone id' p' Hin' Hh'). symmetry.
              apply (ltb_trans _ _ _ Hlt Hd).
           ++ inversion E; subst. apply ltb_irrefl.
      * left. split; [reflexivity|]. intros id' p' Hin' Hh'.
        apply in_app_or in Hin'. destruct Hin' as [Hin'|[E|[]]].
        -- now apply (Hnone id').
        -- inversion E; subst. exact Hd.
    + destruct (HoverSearch.distToCenter handX handY p
                <? HoverSearch.distToCenter handX handY tp) eqn:Hlt.
      * right. exists id, p. repeat split; auto.
        -- apply in_or_app. right. now left.
        -- intros id' p' Hin' Hh'.
           apply in_app_or in Hin'. destruct Hin' as [Hin'|[E|[]]].
           ++ destruct (HoverSearch.distToCenter handX handY p'
                        <? HoverSearch.distToCenter handX handY p) eqn:Hlt';
                [|reflexivity].
              rewrite <- (Hmin id' p' Hin' Hh'). symmetry.
              apply (ltb_trans _ _ _ Hlt' Hlt).
           ++ inversion E; subst. apply ltb_irrefl.
      * right. exists t, tp. repeat split; auto.
        -- apply in_or_app. now left.
        -- intros id' p' Hin' Hh'.
           apply in_app_or in Hin'. destruct Hin' as [Hin'|[E|[]]].
           ++ now apply (Hmin id').
           ++ inversion E; subst. exact Hlt.
  - destruct Hf as [[-> Hnone]|(t & tp & -> & Hin & Ht & Hmin)].
    + left. split; [reflexivity|]. intros id' p' Hin' Hh'.
      apply in_app_or in Hin'. destruct Hin' as [Hin'|[E|[]]].
      * now apply (Hnone id').
      * inversion E; subst. congruence.
    + right. exists t, tp. repeat split; auto.
      * apply in_or_app. now left.
      * intros id' p' Hin' Hh'.
        apply in_app_or in Hin'. destruct Hin' as [Hin'|[E|[]]].
        -- now apply (Hmin id').
        -- inversion E; subst. congruence.
Qed.

Lemma fold_considerHover_found ps :
  forall seen acc,
    HoverSearch.found handX handY seen acc ->
    HoverSearch.found handX handY (seen ++ ps)
      (fold_left (considerHover handX handY) ps acc).
Proof.
  induction ps as [|[id p] rest IH]; intros seen acc Hf; cbn [fold_left].
  - now rewrite app_nil_r.
  - replace (seen ++ (id, p) :: rest) with ((seen ++ [(id, p)]) ++ rest)
      by (rewrite <- app_assoc; reflexivity).
    apply IH, considerHover_found, Hf.
Qed.

End HoverFacts.

(** X19. The hover search of the grab-and-swap visualizer names a block of
    [elementPositions] that the hand is on, or within 60 of its centre, and
    no such block is nearer to the hand (centre to hand); it names none
    only when no such block is at a finite distance. *)
Theorem hover_is_nearest (handX handY : float) (ps : GrabVisualizer.positions) :
  match GrabVisualizer.findHover handX handY ps with
  | Some h =>
      exists p,
        In (h, p) ps /\ HoverSearch.hoverable handX handY p = true
        /\ forall id q, In (id, q) ps ->
             HoverSearch.hoverable handX handY q = true ->
             (HoverSearch.distToCenter handX handY q
              <? HoverSearch.distToCenter handX handY p)%float = false
  | None =>
      forall id q, In (id, q) ps ->
        HoverSearch.hoverable handX handY q = true ->
        (HoverSearch.distToCenter handX handY q <? infinity)%float = false
  end.
Proof.
  unfold GrabVisualizer.findHover.
  pose proof (fold_considerHover_found handX handY ps [] (None, infinity)) as H.
  cbn [app] in H.
  destruct H as [[-> Hnone]|(t & tp & -> & Hin & Ht & Hmin)].
  - left. split; [reflexivity|]. intros id p [].
  - cbn [fst]. exact Hnone.
  - cbn [fst]. exists tp. auto.
Qed.

(** ** Auto-play left alone *)

Section AutoplayFacts.

Variable Step : Type.

Lemma av_ticks_paused (k : nat) (s : AlgoVision.state Step) :
  AlgoVision.isPlaying s = false ->
  AlgoVision.run s (repeat AlgoVision.Tick k) = s.
Proof.
  intros H. unfold AlgoVision.run.
  induction k as [|k IH]; cbn [repeat fold_left]; [reflexivity|].
  unfold AlgoVision.fire at 2, AlgoVision.timerTick. rewrite H. exact IH.
Qed.

Lemma av_ticks (k : nat) :
  forall s : AlgoVision.state Step,
    AlgoVision.inRange s -> AlgoVision.isPlaying s = true ->
    AlgoVision.currentStepIdx (AlgoVision.run s (repeat AlgoVision.Tick k))
    = Z.min (AlgoVision.currentStepIdx s + Z.of_nat k)
            (AlgoVision.stepsLength s - 1)
    /\ AlgoVision.isPlaying (AlgoVision.run s (repeat AlgoVision.Tick k))
       = (Z.of_nat k <=? AlgoVision.stepsLength s - 1 - AlgoVision.currentStepIdx s)%Z
    /\ AlgoVision.steps (AlgoVision.run s (repeat AlgoVision.Tick k))
       = AlgoVision.steps s.
Proof.
  induction k as [|k IH]; intros s Hr Hp; unfold AlgoVision.inRange in Hr.
  - cbn [repeat AlgoVision.run fold_left]. rewrite Hp.
    split; [lia|]. split; [|reflexivity].
    symmetry. apply Z.leb_le. lia.
  - cbn [repeat]. unfold AlgoVision.run. cbn [fold_left].
    fold (AlgoVision.run (AlgoVision.fire s AlgoVision.Tick)
            (repeat AlgoVision.Tick k)).
    cbn [AlgoVision.fire]. unfold AlgoVision.timerTick. rewrite Hp.
    destruct (Z.ltb_spec 0 (AlgoVision.stepsLength s)); [|lia]. cbn [andb].
    destruct (Z.geb_spec (AlgoVision.currentStepIdx s)
                (AlgoVision.stepsLength s - 1)).
    + rewrite av_ticks_paused by reflexivity.
      cbn [AlgoVision.currentStepIdx AlgoVision.isPlaying AlgoVision.steps].
      split; [lia|]. split; [|reflexivity].
      symmetry. apply Z.leb_gt. lia.
    + match goal with
      | |- context [AlgoVision.run ?s1 _] => destruct (IH s1) as (A & B & C)
      end.
      * unfold AlgoVision.inRange, AlgoVision.stepsLength in *. cbn. lia.
      * reflexivity || exact Hp.
      * rewrite A, B, C. unfold AlgoVision.stepsLength. cbn.
        split; [lia|]. split; [|reflexivity].
        destruct (Z.leb_spec (Z.of_nat k)
                    (Z.of_nat (List.length (AlgoVision.steps s)) - 1
                     - (AlgoVision.currentStepIdx s + 1)));
          symmetry; [apply Z.leb_le | apply Z.leb_gt]; lia.
Qed.

Lemma holo_ticks_paused (k : nat) (s : Hologram.state Step) :
  Hologram.isHologramPlaying s = false ->
  Hologram.run s (repeat Hologram.Tick k) = s.
Proof.
  intros H. unfold Hologram.run.
  induction k as [|k IH]; cbn [repeat fold_left]; [reflexivity|].
  unfold Hologram.fire at 2, Hologram.timerTick. rewrite H.
  destruct (Hologram.algoMetadata s); exact IH.
Qed.

Lemma holo_ticks (m : Hologram.AlgorithmMetadata Step) (k : nat) :
  forall s : Hologram.state Step,
    Hologram.inRange m s -> Hologram.isHologramPlaying s = true ->
    Hologram.currentStepIndex (Hologram.run s (repeat Hologram.Tick k))
    = Z.min (Hologram.currentStepIndex s + Z.of_nat k)
            (Hologram.stepsLength m - 1)
    /\ Hologram.isHologramPlaying (Hologram.run s (repeat Hologram.Tick k))
       = (Z.of_nat k <=? Hologram.stepsLength m - 1 - Hologram.currentStepIndex s)%Z
    /\ Hologram.algoMetadata (Hologram.run s (repeat Hologram.Tick k)) = Some m.
Proof.
  induction k as [|k IH]; intros s [Hm Hr] Hp.
  - cbn [repeat Hologram.run fold_left]. rewrite Hp.
    split; [lia|]. split; [|exact Hm].
    symmetry. apply Z.leb_le. lia.
  - cbn [repeat]. unfold Hologram.run. cbn [fold_left].
    fold (Hologram.run (Hologram.fire s Hologram.Tick)
            (repeat Hologram.Tick k)).
    cbn [Hologram.fire]. unfold Hologram.timerTick. rewrite Hm, Hp.
    destruct (Z.ltb_spec (Hologram.currentStepIndex s)
                (Hologram.stepsLength m - 1)).
    + match goal with
      | |- context [Hologram.run ?s1 _] => destruct (IH s1) as (A & B & C)
      end.
      * split; [exact Hm | cbn; lia].
      * exact Hp.
      * rewrite A, B, C. cbn.
        split; [lia|]. split; [|reflexivity].
        destruct (Z.leb_spec (Z.of_nat k)
                    (Hologram.stepsLength m - 1
                     - (Hologram.currentStepIndex s + 1)));
          symmetry; [apply Z.leb_le | apply Z.leb_gt]; lia.
    + rewrite holo_ticks_paused by reflexivity. cbn.
      split; [lia|]. split; [|exact Hm].
      symmetry. apply Z.leb_gt. lia.
Qed.

End AutoplayFacts.

(** X3. Auto-play left alone plays to the end and stops by itself: from a
    playing state with the cursor at step [i] of [n], after [k] firings of
    the clock the cursor is at [min (i + k) (n - 1)], the sequence is
    untouched, and auto-play is still on exactly while [k <= n - 1 - i]; so
    it reaches the last step after [n - 1 - i] firings and the next firing
    switches it off.  Both the AlgoVision page and the hologram engine. *)
Theorem autoplay_plays_to_the_end (Step : Type) (k : nat) :
  (forall s : AlgoVision.state Step,
     AlgoVision.inRange s -> AlgoVision.isPlaying s = true ->
     AlgoVision.currentStepIdx (AlgoVision.run s (repeat AlgoVision.Tick k))
     = Z.min (AlgoVision.currentStepIdx s + Z.of_nat k)
             (AlgoVision.stepsLength s - 1)
     /\ AlgoVision.isPlaying (AlgoVision.run s (repeat AlgoVision.Tick k))
        = (Z.of_nat k <=? AlgoVision.stepsLength s - 1 - AlgoVision.currentStepIdx s)%Z
     /\ AlgoVision.steps (AlgoVision.run s (repeat AlgoVision.Tick k))
        = AlgoVision.steps s)
  /\ (forall (m : Hologram.AlgorithmMetadata Step) (s : Hologram.state Step),
        Hologram.inRange m s -> Hologram.isHologramPlaying s = true ->
        Hologram.currentStepIndex (Hologram.run s (repeat Hologram.Tick k))
        = Z.min (Hologram.currentStepIndex s + Z.of_nat k)
                (Hologram.stepsLength m - 1)
        /\ Hologram.isHologramPlaying (Hologram.run s (repeat Hologram.Tick k))
           = (Z.of_nat k <=? Hologram.stepsLength m - 1
                             - Hologram.currentStepIndex s)%Z
        /\ Hologram.algoMetadata (Hologram.run s (repeat Hologram.Tick k))
           = Some m).
Proof.
  split.
  - apply av_ticks.
  - intros m. apply holo_ticks.
Qed.

Lemma autoplay_plays_to_the_end_witness :
  AlgoVision.currentStepIdx
    (AlgoVision.run (AlgoVision.mkState [1; 2; 3]%nat 0 true false)
       (repeat AlgoVision.Tick 5)) = 2%Z
  /\ AlgoVision.isPlaying
       (AlgoVision.run (AlgoVision.mkState [1; 2; 3]%nat 0 true false)
          (repeat AlgoVision.Tick 5)) = false.
Proof.
  destruct (proj1 (autoplay_plays_to_the_end nat 5)
              (AlgoVision.mkState [1; 2; 3]%nat 0 true false))
    as (A & B & _).
  - unfold AlgoVision.inRange, AlgoVision.stepsLength. cbn. lia.
  - reflexivity.
  - rewrite A, B. split; reflexivity.
Defined.


(** ** The graph branch: edges and the nodes they name *)

Section GraphNameFacts.
Import HologramRenderer.
Local Open Scope list_scope.

Lemma binary_round_aux_shape (sx : bool) (mx ex : Z) (lx : location) :
  (0 <= mx)%Z ->
  binary_round_aux prec emax sx mx ex lx = S754_zero sx
  \/ binary_round_aux prec emax sx mx ex lx = S754_infinity sx
  \/ exists m e, binary_round_aux prec emax sx mx ex lx = S754_finite sx m e.
Proof.
  intros H. unfold binary_round_aux.
  pose proof (shr_fexp_nonneg mx ex lx H) as H1.
  destruct (shr_fexp prec emax mx ex lx) as [mrs1 e1]. cbn [fst] in H1.
  pose proof (shr_fexp_nonneg
                (round_nearest_even (shr_m mrs1) (loc_of_shr_record mrs1))
                e1 loc_Exact (round_nearest_even_nonneg _ _ H1)) as H2.
  destruct (shr_fexp prec emax _ e1 loc_Exact) as [mrs2 e2]. cbn [fst] in H2.
  destruct (shr_m mrs2) as [|m|m]; [auto | | lia].
  destruct (e2 <=? emax - prec)%Z; eauto.
Qed.

(** An index, as a number, is not below zero. *)
Lemma ofNat_nonneg (n : nat) : (0 <=? JsMath.ofNat n)%float = true.
Proof.
  unfold JsMath.ofNat. rewrite FloatAxioms.leb_spec, FloatAxioms.of_uint63_spec.
  replace (Prim2SF 0) with (S754_zero false) by reflexivity.
  pose proof (Uint63.to_Z_bounded (Uint63.of_Z (Z.of_nat n))) as Hb.
  unfold binary_normalize.
  destruct (Uint63Axioms.to_Z (Uint63.of_Z (Z.of_nat n))) as [|m|m] eqn:E.
  - reflexivity.
  - unfold binary_round.
    destruct (shl_align m 0 _) as [mz ez].
    destruct (binary_round_aux_shape false (Z.pos mz) ez loc_Exact)
      as [R|[R|(m' & e' & R)]]; [lia| | |]; rewrite R; reflexivity.
  - exfalso.
    change (Uint63Axioms.to_Z (Uint63.of_Z (Z.of_nat n)))
      with (Uint63.to_Z (Uint63.of_Z (Z.of_nat n))) in E.
    lia.
Qed.

Lemma findIndex_first (s : string) (nodes : list graphNode) :
  forall k,
    findIndex s nodes k
    = match GraphNames.firstIndexOf s nodes with
      | Some i => JsMath.ofNat (k + i)
      | None => (-1)%float
      end.
Proof.
  induction nodes as [|n rest IH]; intros k;
    cbn [findIndex GraphNames.firstIndexOf]; [reflexivity|].
  destruct (String.eqb (nodeId n) s).
  - now rewrite Nat.add_0_r.
  - rewrite IH.
    destruct (GraphNames.firstIndexOf s rest) as [i|]; cbn [option_map];
      [|reflexivity].
    now replace (S k + i)%nat with (k + S i)%nat by lia.
Qed.

Lemma firstIndexOf_bound (s : string) (nodes : list graphNode) (i : nat) :
  GraphNames.firstIndexOf s nodes = Some i ->
  (i < List.length nodes)%nat
  /\ (exists n, nth_error nodes i = Some n /\ nodeId n = s)
  /\ forall k n, (k < i)%nat -> nth_error nodes k = Some n -> nodeId n <> s.
Proof.
  revert i. induction nodes as [|n rest IH]; intros i; cbn; [discriminate|].
  destruct (String.eqb_spec (nodeId n) s) as [E|E].
  - intros H. inversion H; subst i. split; [lia|].
    split; [exists n; split; [reflexivity | exact E]|].
    intros k n' Hk. lia.
  - destruct (GraphNames.firstIndexOf s rest) as [j|]; cbn; [|discriminate].
    intros H. inversion H; subst i.
    destruct (IH j eq_refl) as (A & B & C).
    split; [lia|]. split; [exact B|].
    intros [|k] n' Hk Hn; cbn in Hn.
    + inversion Hn; subst. exact E.
    + apply (C k n'); [lia | exact Hn].
Qed.

End GraphNameFacts.

(** X20. In the graph branch, the ends of an edge [{ source: a, target: b }]
    are resolved to places, and the line joins the points [getGraphCoords]
    gives for them, moved by the centre (400, 300) of the edge layer.
    - An end given as a string stands for the first node with that id; when
      no node has it, the edge is not drawn.
    - An end given as a whole number is taken as a place as it is: it is
      not looked up among the ids and not compared with the number of
      nodes, so the line is drawn even where there is no such node.
    - For a place below the number of nodes, the point is the [left]/[top]
      that node is drawn at.
    - [from] is read only when [source] is undefined, and [to] only when
      [target] is: an edge whose ends are given so is drawn as the edge
      [{ source: a, target: b }]. *)
Theorem graph_edge_joins_places
  (Math_cos Math_sin : float -> float)
  (nodes : list HologramRenderer.graphNode) (a b : GraphNames.endName) :
  match GraphNames.placeOf nodes a, GraphNames.placeOf nodes b with
  | Some i, Some j =>
      HologramRenderer.renderEdge Math_cos Math_sin nodes
        (GraphNames.joining a b)
      = [HologramRenderer.mkLine
           (HologramRenderer.centerX
            + fst (HologramRenderer.getGraphCoords Math_cos Math_sin
                     (List.length nodes) (JsMath.ofNat i) (List.length nodes)))
           (HologramRenderer.centerY
            + snd (HologramRenderer.getGraphCoords Math_cos Math_sin
                     (List.length nodes) (JsMath.ofNat i) (List.length nodes)))
           (HologramRenderer.centerX
            + fst (HologramRenderer.getGraphCoords Math_cos Math_sin
                     (List.length nodes) (JsMath.ofNat j) (List.length nodes)))
           (HologramRenderer.centerY
            + snd (HologramRenderer.getGraphCoords Math_cos Math_sin
                     (List.length nodes) (JsMath.ofNat j) (List.length nodes)))]
  | _, _ =>
      HologramRenderer.renderEdge Math_cos Math_sin nodes
        (GraphNames.joining a b) = []
  end
  /\ (forall s i,
        GraphNames.placeOf nodes (GraphNames.Id s) = Some i ->
        (i < List.length nodes)%nat
        /\ (exists n, nth_error nodes i = Some n
                      /\ HologramRenderer.nodeId n = s)
        /\ forall k n, (k < i)%nat -> nth_error nodes k = Some n ->
                       HologramRenderer.nodeId n <> s)
  /\ (forall i, GraphNames.placeOf nodes (GraphNames.Place i) = Some i)
  /\ (forall i,
        (i < List.length nodes)%nat ->
        nth_error (HologramRenderer.renderGraphNodes Math_cos Math_sin nodes) i
        = Some
            (HologramRenderer.mkPlaced
               (fst (HologramRenderer.getGraphCoords Math_cos Math_sin
                       (List.length nodes) (JsMath.ofNat i)
                       (List.length nodes)))
               (snd (HologramRenderer.getGraphCoords Math_cos Math_sin
                       (List.length nodes) (JsMath.ofNat i)
                       (List.length nodes)))))
  /\ (forall e : HologramRenderer.edge,
        match HologramRenderer.source e with
        | Some given => Some given
        | None => HologramRenderer.from e
        end = Some (GraphNames.toEndpoint a) ->
        match HologramRenderer.target e with
        | Some given => Some given
        | None => HologramRenderer.to e
        end = Some (GraphNames.toEndpoint b) ->
        HologramRenderer.renderEdge Math_cos Math_sin nodes e
        = HologramRenderer.renderEdge Math_cos Math_sin nodes
            (GraphNames.joining a b)).
Proof.
  split; [|split; [|split; [|split]]].
  - unfold HologramRenderer.renderEdge, GraphNames.joining,
      HologramRenderer.endIndex, GraphNames.placeOf, GraphNames.toEndpoint.
    cbn [HologramRenderer.source HologramRenderer.from HologramRenderer.target
         HologramRenderer.to].
    destruct a as [s|i], b as [t|j]; rewrite ?findIndex_first; cbn [Nat.add].
    + destruct (GraphNames.firstIndexOf s nodes) as [i|].
      * destruct (GraphNames.firstIndexOf t nodes) as [j|].
        -- rewrite !ofNat_nonneg. reflexivity.
        -- replace (0 <=? -1)%float with false by reflexivity.
           now rewrite andb_false_r.
      * replace (0 <=? -1)%float with false by reflexivity. reflexivity.
    + destruct (GraphNames.firstIndexOf s nodes) as [i|].
      * rewrite !ofNat_nonneg. reflexivity.
      * replace (0 <=? -1)%float with false by reflexivity. reflexivity.
    + destruct (GraphNames.firstIndexOf t nodes) as [j|].
      * rewrite !ofNat_nonneg. reflexivity.
      * replace (0 <=? -1)%float with false by reflexivity.
        now rewrite andb_false_r.
    + rewrite !ofNat_nonneg. reflexivity.
  - intros s i Hi. exact (firstIndexOf_bound s nodes i Hi).
  - reflexivity.
  - intros i Hi. unfold HologramRenderer.renderGraphNodes.
    rewrite nth_error_map, nth_error_seq.
    destruct (Nat.ltb_spec i (List.length nodes)); [|lia]. reflexivity.
  - intros [src frm tgt dst] Hs Ht.
    cbn [HologramRenderer.source HologramRenderer.from HologramRenderer.target
         HologramRenderer.to] in Hs, Ht.
    unfold HologramRenderer.renderEdge, GraphNames.joining,
      HologramRenderer.endIndex.
    cbn [HologramRenderer.source HologramRenderer.from HologramRenderer.target
         HologramRenderer.to].
    destruct src as [given|]; [inversion Hs; subst given|rewrite Hs];
      (destruct tgt as [given'|]; [inversion Ht; subst given'|rewrite Ht]);
      reflexivity.
Qed.

(** Two nodes with the ids ["1"] and ["2"].  The edge from the id ["2"] to
    the id ["1"] joins the second node to the first.  The edge from the
    number 1 to the number 2 starts at the second node (the one with the
    id ["2"]) and ends at the place 2, where no node is. *)
Lemma graph_edge_joins_places_witness :
  HologramRenderer.renderEdge (fun angle => angle) (fun angle => angle)
    [HologramRenderer.mkGraphNode "1" "1"; HologramRenderer.mkGraphNode "2" "2"]
    (GraphNames.joining (GraphNames.Id "2") (GraphNames.Id "1"))
  = [HologramRenderer.mkLine
       (HologramRenderer.centerX
        + fst (HologramRenderer.getGraphCoords (fun angle => angle)
                 (fun angle => angle) 2 (JsMath.ofNat 1) 2))
       (HologramRenderer.centerY
        + snd (HologramRenderer.getGraphCoords (fun angle => angle)
                 (fun angle => angle) 2 (JsMath.ofNat 1) 2))
       (HologramRenderer.centerX
        + fst (HologramRenderer.getGraphCoords (fun angle => angle)
                 (fun angle => angle) 2 (JsMath.ofNat 0) 2))
       (HologramRenderer.centerY
        + snd (HologramRenderer.getGraphCoords (fun angle => angle)
                 (fun angle => angle) 2 (JsMath.ofNat 0) 2))]
  /\ HologramRenderer.renderEdge (fun angle => angle) (fun angle => angle)
       [HologramRenderer.mkGraphNode "1" "1"; HologramRenderer.mkGraphNode "2" "2"]
       (GraphNames.joining (GraphNames.Place 1) (GraphNames.Place 2))
     = [HologramRenderer.mkLine
          (HologramRenderer.centerX
           + fst (HologramRenderer.getGraphCoords (fun angle => angle)
                    (fun angle => angle) 2 (JsMath.ofNat 1) 2))
          (HologramRenderer.centerY
           + snd (HologramRenderer.getGraphCoords (fun angle => angle)
                    (fun angle => angle) 2 (JsMath.ofNat 1) 2))
          (HologramRenderer.centerX
           + fst (HologramRenderer.getGraphCoords (fun angle => angle)
                    (fun angle => angle) 2 (JsMath.ofNat 2) 2))
          (HologramRenderer.centerY
           + snd (HologramRenderer.getGraphCoords (fun angle => angle)
                    (fun angle => angle) 2 (JsMath.ofNat 2) 2))]
  /\ nth_error
       [HologramRenderer.mkGraphNode "1" "1"; HologramRenderer.mkGraphNode "2" "2"]
       2 = None.
Proof.
  split; [|split; [|reflexivity]].
  - exact (proj1 (graph_edge_joins_places (fun angle => angle)
                    (fun angle => angle)
                    [HologramRenderer.mkGraphNode "1" "1";
                     HologramRenderer.mkGraphNode "2" "2"]
                    (GraphNames.Id "2") (GraphNames.Id "1"))).
  - exact (proj1 (graph_edge_joins_places (fun angle => angle)
                    (fun angle => angle)
                    [HologramRenderer.mkGraphNode "1" "1";
                     HologramRenderer.mkGraphNode "2" "2"]
                    (GraphNames.Place 1) (GraphNames.Place 2))).
Defined.

(** ** The path to the active node *)

Section TreePathFacts.
Import HologramRenderer.
Local Open Scope list_scope.

Lemma findNode_shape (st st' : store) (k : nat) :
  map TreeShape.shape st = map TreeShape.shape st' ->
  option_map TreeShape.shape (TreeShape.findNode st k)
  = option_map TreeShape.shape (TreeShape.findNode st' k).
Proof.
  unfold TreeShape.findNode. revert st'.
  induction st as [|n rest IH]; intros [|n' rest'] H; try discriminate H;
    [reflexivity|].
  cbn in H. inversion H as [[Hid Hval Hlvl Hpar Hch Hrest]].
  cbn [find]. rewrite Hid.
  destruct (Nat.eqb (id n') k).
  - cbn. unfold TreeShape.shape. now rewrite Hid, Hval, Hlvl, Hpar, Hch.
  - apply IH, Hrest.
Qed.

Lemma parentOf_shape (st st' : store) (k : nat) :
  map TreeShape.shape st = map TreeShape.shape st' ->
  TreePath.parentOf st k = TreePath.parentOf st' k.
Proof.
  intros H. pose proof (findNode_shape st st' k H) as E.
  unfold TreePath.parentOf.
  destruct (TreeShape.findNode st k) as [n|],
           (TreeShape.findNode st' k) as [n'|]; cbn in E;
    try discriminate E; [|reflexivity].
  unfold TreeShape.shape in E. now inversion E.
Qed.

(** In a level-order tree a parent's id is below its child's. *)
Lemma levelOrder_parent_below (data : list Js.value) (c p : nat) :
  TreePath.parentOf (parseLevelOrder data) c = Some p -> (p < c)%nat.
Proof.
  unfold TreePath.parentOf, TreeShape.findNode.
  destruct (find _ (parseLevelOrder data)) as [n|] eqn:Hf; [|discriminate].
  apply find_some in Hf. destruct Hf as [Hin Hid].
  apply Nat.eqb_eq in Hid.
  unfold parseLevelOrder in Hin. apply in_flat_map in Hin.
  destruct Hin as (idx & _ & Hn).
  unfold levelOrderNode in Hn.
  destruct (isNode _); [|contradiction]. destruct Hn as [<-|[]].
  cbn [id] in Hid. subst idx. cbn [parentId].
  destruct c as [|c]; [discriminate|].
  intros H.
  assert (E : p = Nat.div (S c - 1) 2) by congruence.
  rewrite E. apply Nat.Div0.div_lt_upper_bound. lia.
Qed.

Lemma sorted_snoc (l : list nat) (p c : nat) :
  StronglySorted lt (l ++ [p]) -> (p < c)%nat ->
  StronglySorted lt ((l ++ [p]) ++ [c]).
Proof.
  induction l as [|a l IH]; cbn; intros H Hpc.
  - repeat constructor. exact Hpc.
  - inversion H as [|? ? Hs Hall]; subst. constructor.
    + apply IH; assumption.
    + rewrite Forall_app. split; [exact Hall|].
      constructor; [|constructor].
      rewrite Forall_app in Hall. destruct Hall as [_ Hp].
      inversion Hp; subst. lia.
Qed.

Lemma walkUp_ends (st : store) :
  (forall c p, TreePath.parentOf st c = Some p -> (p < c)%nat) ->
  forall c fuel acc, (c < fuel)%nat ->
    exists ancestors,
      TreePath.walkUp st fuel (Some c) acc = Some (ancestors ++ c :: acc)
      /\ StronglySorted lt (ancestors ++ [c]).
Proof.
  intros Hup c. induction c as [c IH] using (well_founded_induction lt_wf).
  intros fuel acc Hfuel. destruct fuel as [|fuel]; [lia|].
  cbn [TreePath.walkUp].
  destruct (TreePath.parentOf st c) as [p|] eqn:Hp.
  - pose proof (Hup c p Hp) as Hlt.
    destruct (IH p Hlt fuel (c :: acc)) as (pre & Hw & Hs); [lia|].
    exists (pre ++ [p]). split.
    + rewrite Hw. now rewrite <- app_assoc.
    + apply sorted_snoc; assumption.
  - exists []. split; [destruct fuel; reflexivity|]. repeat constructor.
Qed.

End TreePathFacts.

(** X21. On a tree read in level order and laid out by
    [calculatePositions], the loop of [getPathToNode] ends for every node
    id, present or not, within [nodeId + 1] iterations: the path it returns
    ends with the node and its ids increase strictly from the topmost
    ancestor found down to the node. *)
Theorem level_order_path_ends (data : list Js.value) (nodeId : nat) :
  exists ancestors,
    TreePath.getPathToNode
      (HologramRenderer.calculatePositions (HologramRenderer.parseLevelOrder data))
      (S nodeId) nodeId
    = Some (ancestors ++ [nodeId])%list
    /\ StronglySorted lt (ancestors ++ [nodeId])%list.
Proof.
  unfold TreePath.getPathToNode.
  apply walkUp_ends; [|lia].
  intros c p Hp.
  rewrite (parentOf_shape _ (HologramRenderer.parseLevelOrder data)) in Hp.
  - exact (levelOrder_parent_below data c p Hp).
  - apply calculatePositions_shape.
Qed.

(** ** Dragging a slot *)

Section SlotDragFacts.
Local Open Scope float_scope.
Local Open Scope list_scope.

Lemma leb_zero_shape (w : float) :
  (0 <=? w) = true ->
  (exists s, Prim2SF w = S754_zero s) \/ Prim2SF w = S754_infinity false
  \/ exists m e, Prim2SF w = S754_finite false m e.
Proof.
  rewrite FloatAxioms.leb_spec.
  replace (Prim2SF 0) with (S754_zero false) by reflexivity.
  destruct (Prim2SF w) as [s|[|]| |[|] m e]; cbn; try discriminate; eauto.
Qed.

Lemma mul_const_shape (w c : float) (mc : positive) (ec : Z) :
  (0 <=? w) = true -> Prim2SF c = S754_finite false mc ec ->
  (exists s, Prim2SF (w * c) = S754_zero s) \/ Prim2SF (w * c) = S754_infinity false
  \/ exists m e, Prim2SF (w * c) = S754_finite false m e.
Proof.
  intros Hw Hc. rewrite !FloatAxioms.mul_spec, Hc. unfold SF64mul, SFmul.
  destruct (leb_zero_shape w Hw) as [[s ->]|[->|(m & e & ->)]]; cbn [xorb]; eauto.
  destruct (binary_round_aux_shape false (Z.pos (m * mc)) (e + ec) loc_Exact)
    as [R|[R|(m' & e' & R)]]; [lia| | |]; rewrite R; eauto.
Qed.

Lemma box_limits (w c1 c2 : float) (m1 m2 : positive) (e1 e2 : Z) :
  (0 <=? w) = true ->
  Prim2SF c1 = S754_finite false m1 e1 -> Prim2SF c2 = S754_finite false m2 e2 ->
  PrimFloat.is_nan (- (w * c1)) = false /\ PrimFloat.is_nan (w * c2) = false
  /\ (w * c2 <? - (w * c1)) = false
  /\ (0 <? - (w * c1)) = false /\ (w * c2 <? 0) = false.
Proof.
  intros Hw H1 H2.
  pose proof (mul_const_shape w c1 m1 e1 Hw H1) as S1.
  pose proof (mul_const_shape w c2 m2 e2 Hw H2) as S2.
  unfold PrimFloat.is_nan.
  rewrite !FloatAxioms.eqb_spec, !FloatAxioms.ltb_spec, !FloatAxioms.opp_spec.
  replace (Prim2SF 0) with (S754_zero false) by reflexivity.
  destruct S1 as [[s1 ->]|[->|(a1 & b1 & ->)]];
    destruct S2 as [[s2 ->]|[->|(a2 & b2 & ->)]]; cbn;
    repeat split; try reflexivity.
  all: try (rewrite Z.compare_refl, Pos.compare_cont_refl; reflexivity).
  all: try (destruct s1; reflexivity).
Qed.

Lemma ltb_nan_l (a : float) : (nan <? a) = false.
Proof. rewrite FloatAxioms.ltb_spec. reflexivity. Qed.

Lemma ltb_nan_r (a : float) : (a <? nan) = false.
Proof.
  rewrite FloatAxioms.ltb_spec.
  replace (Prim2SF nan) with S754_nan by reflexivity.
  unfold SFltb. destruct (Prim2SF a) as [s|s| |s m e]; reflexivity.
Qed.

(** [Math.max(lo, Math.min(hi, v))] is never beyond [lo] or [hi], whatever
    [v] is. *)
Lemma clamp_within (lo hi v : float) :
  (hi <? lo) = false ->
  (JsMath.max lo (JsMath.min hi v) <? lo) = false
  /\ (hi <? JsMath.max lo (JsMath.min hi v)) = false.
Proof.
  intros Hlh. unfold JsMath.max, JsMath.min.
  destruct (PrimFloat.is_nan hi || PrimFloat.is_nan v)%bool eqn:Hn1.
  - replace (PrimFloat.is_nan nan) with true by reflexivity.
    rewrite orb_true_r. split; [apply ltb_nan_l | apply ltb_nan_r].
  - apply orb_false_elim in Hn1. destruct Hn1 as [Hhi Hv].
    assert (Hm : PrimFloat.is_nan (if v <? hi then v else hi) = false)
      by (destruct (v <? hi); assumption).
    rewrite Hm, orb_false_r.
    destruct (PrimFloat.is_nan lo) eqn:Hlo;
      [split; [apply ltb_nan_l | apply ltb_nan_r]|].
    destruct (lo <? (if v <? hi then v else hi)) eqn:Hlt.
    + split; [apply leb_ltb_false, ltb_leb, Hlt|].
      destruct (v <? hi) eqn:Hvh.
      * apply leb_ltb_false, ltb_leb, Hvh.
      * apply ltb_irrefl.
    + split; [apply ltb_irrefl | exact Hlh].
Qed.

Variables width height : float.
Hypothesis width_nonneg : (0 <=? width) = true.
Hypothesis height_nonneg : (0 <=? height) = true.

Lemma clamped_inBox (vx vy : float) :
  SlotDrag.inBox width height
    (SlotDrag.mkOffset (SlotDrag.clampX width vx) (SlotDrag.clampY height vy))
  = true.
Proof.
  destruct (box_limits width 0.4 0.5 _ _ _ _ width_nonneg eq_refl eq_refl)
    as (_ & _ & Hx & _).
  destruct (box_limits height 0.45 0.45 _ _ _ _ height_nonneg eq_refl eq_refl)
    as (_ & _ & Hy & _).
  unfold SlotDrag.inBox, SlotDrag.clampX, SlotDrag.clampY. cbn [SlotDrag.dx SlotDrag.dy].
  destruct (clamp_within (- (width * 0.4)) (width * 0.5) vx Hx) as [A B].
  destruct (clamp_within (- (height * 0.45)) (height * 0.45) vy Hy) as [C D].
  now rewrite A, B, C, D.
Qed.

Lemma zero_inBox : SlotDrag.inBox width height (SlotDrag.mkOffset 0 0) = true.
Proof.
  destruct (box_limits width 0.4 0.5 _ _ _ _ width_nonneg eq_refl eq_refl)
    as (_ & _ & _ & A & B).
  destruct (box_limits height 0.45 0.45 _ _ _ _ height_nonneg eq_refl eq_refl)
    as (_ & _ & _ & C & D).
  unfold SlotDrag.inBox. cbn [SlotDrag.dx SlotDrag.dy].
  now rewrite A, B, C, D.
Qed.

Lemma lookup_inBox id os o :
  SlotDrag.allInBox width height os -> SlotDrag.lookup id os = Some o ->
  SlotDrag.inBox width height o = true.
Proof.
  induction os as [|[k q] rest IH]; cbn [SlotDrag.lookup]; intros H;
    [discriminate|].
  inversion H as [|? ? Hq Hrest]; subst.
  destruct (String.eqb id k).
  - intros E. inversion E; subst. exact Hq.
  - now apply IH.
Qed.

Lemma getOr_inBox id os :
  SlotDrag.allInBox width height os -> SlotDrag.inBox width height (SlotDrag.getOr id os) = true.
Proof.
  intros H. unfold SlotDrag.getOr.
  destruct (SlotDrag.lookup id os) as [o|] eqn:E;
    [exact (lookup_inBox id os o H E) | apply zero_inBox].
Qed.

Lemma assign_inBox id o os :
  SlotDrag.inBox width height o = true -> SlotDrag.allInBox width height os ->
  SlotDrag.allInBox width height (SlotDrag.assign id o os).
Proof.
  intros Ho. unfold SlotDrag.allInBox.
  induction os as [|[k q] rest IH]; cbn [SlotDrag.assign]; intros H.
  - constructor; [exact Ho | constructor].
  - inversion H as [|? ? Hq Hrest]; subst.
    destruct (String.eqb id k).
    + constructor; [exact Ho | exact Hrest].
    + constructor; [exact Hq | exact (IH Hrest)].
Qed.

Lemma swapWith_inBox grabbed os other :
  SlotDrag.allInBox width height os -> SlotDrag.allInBox width height (SlotDrag.swapWith grabbed os other).
Proof.
  intros H. unfold SlotDrag.swapWith.
  destruct (String.eqb other grabbed); [exact H|].
  destruct (SlotDrag.lookup grabbed os) as [mine|] eqn:E; [|exact H].
  apply assign_inBox; [apply getOr_inBox, H|].
  apply assign_inBox; [exact (lookup_inBox grabbed os mine H E) | exact H].
Qed.

Lemma dragUpdate_inBox grabbed ddx ddy near prev :
  SlotDrag.allInBox width height prev ->
  SlotDrag.allInBox width height (SlotDrag.dragUpdate width height grabbed ddx ddy near prev).
Proof.
  intros H. unfold SlotDrag.dragUpdate.
  assert (H0 : SlotDrag.allInBox width height
                 (SlotDrag.assign grabbed
                    (SlotDrag.mkOffset
                       (SlotDrag.clampX width
                          (SlotDrag.dx (SlotDrag.getOr grabbed prev) + ddx))
                       (SlotDrag.clampY height
                          (SlotDrag.dy (SlotDrag.getOr grabbed prev) + ddy)))
                    prev))
    by (apply assign_inBox; [apply clamped_inBox | exact H]).
  revert H0. generalize (SlotDrag.assign grabbed
                    (SlotDrag.mkOffset
                       (SlotDrag.clampX width
                          (SlotDrag.dx (SlotDrag.getOr grabbed prev) + ddx))
                       (SlotDrag.clampY height
                          (SlotDrag.dy (SlotDrag.getOr grabbed prev) + ddy)))
                    prev).
  induction near as [|other near IH]; intros os Hos; cbn [fold_left];
    [exact Hos|].
  apply IH, swapWith_inBox, Hos.
Qed.

Lemma step_inBox m f :
  SlotDrag.allInBox width height (SlotDrag.slotOffsets m) ->
  SlotDrag.allInBox width height (SlotDrag.slotOffsets (SlotDrag.step width height m f)).
Proof.
  intros H. destruct f as [thumb index foundHover near|]; [|exact H].
  unfold SlotDrag.step. cbv zeta. cbn [SlotDrag.slotOffsets].
  destruct (SlotVisualizer.nextPinching _ _); [|exact H].
  destruct (SlotDrag.grabbedIdRef m) as [g|], foundHover as [h|];
    destruct (SlotDrag.lastPinchPosRef m) as [[lx ly]|];
    try exact H; apply dragUpdate_inBox, H.
Qed.

Lemma run_inBox fs :
  forall m,
    SlotDrag.allInBox width height (SlotDrag.slotOffsets m) ->
    SlotDrag.allInBox width height (SlotDrag.slotOffsets (SlotDrag.run width height m fs)).
Proof.
  unfold SlotDrag.run.
  induction fs as [|f fs IH]; intros m H; cbn [fold_left]; [exact H|].
  apply IH, step_inBox, H.
Qed.

End SlotDragFacts.

(** X22. In the slot-offset visualizer, on a canvas that keeps its size, no
    gesture takes a block beyond the limits of the drag: after any
    sequence of frames (whatever the hand does and whatever the document
    reports as hovered or within snapping distance), every offset the
    renderer reads, [slotOffsets[id] || { dx: 0, dy: 0 }], has [dx] not
    below [-0.4 * width] nor above [0.5 * width] and [dy] not below
    [-0.45 * height] nor above [0.45 * height].  And a frame that ends
    without a pinch leaves every offset as it was and nothing grabbed: a
    released block stays where it was dropped. *)
Theorem slot_offsets_stay_in_box
  (width height : float) (m0 : SlotDrag.model) (fs : list SlotDrag.frame) :
  (0 <=? width)%float = true -> (0 <=? height)%float = true ->
  SlotDrag.allInBox width height (SlotDrag.slotOffsets m0) ->
  (forall id,
     SlotDrag.inBox width height
       (SlotDrag.getOr id
          (SlotDrag.slotOffsets (SlotDrag.run width height m0 fs))) = true)
  /\ (forall m f,
        SlotDrag.isPinchingRef (SlotDrag.step width height m f) = false ->
        SlotDrag.grabbedIdRef (SlotDrag.step width height m f) = None
        /\ SlotDrag.slotOffsets (SlotDrag.step width height m f)
           = SlotDrag.slotOffsets m).
Proof.
  intros Hw Hh H0. split.
  - intros id. apply getOr_inBox; [exact Hw | exact Hh |].
    apply run_inBox; assumption.
  - intros m f. destruct f as [thumb index foundHover near|]; [|auto].
    unfold SlotDrag.step. cbv zeta.
    cbn [SlotDrag.isPinchingRef SlotDrag.grabbedIdRef SlotDrag.slotOffsets].
    intros ->. auto.
Qed.

Lemma slot_offsets_stay_in_box_witness :
  SlotDrag.inBox 1000 600
    (SlotDrag.getOr "item-1"
       (SlotDrag.slotOffsets
          (SlotDrag.run 1000 600 SlotDrag.initial Samples.slotFrames))) = true.
Proof.
  apply (slot_offsets_stay_in_box 1000 600 SlotDrag.initial Samples.slotFrames);
    [reflexivity | reflexivity | constructor].
Defined.

(** ** Trees given as nested objects *)

Section ObjectTreeFacts.
Import HologramRenderer.
Import ObjectTree.
Local Open Scope list_scope.

Lemma lookup_height k fields :
  (height (Js.lookup k fields) < height (Js.Obj fields))%nat.
Proof.
  cbn [height].
  induction fields as [|[k' v] rest IH]; cbn [Js.lookup]; [cbn; lia|].
  destruct (String.eqb k k'); lia.
Qed.

Lemma field_height node k :
  (height (field node k) <= height node)%nat
  /\ (forall items, field node k = Js.Arr items ->
        forall c, In c items -> (height c < height node)%nat)
  /\ (Js.truthy (field node k) = true -> (height (field node k) < height node)%nat).
Proof.
  unfold field. destruct node as [| | | | | |fields]; cbn [height Js.truthy];
    try (repeat split; [lia | discriminate | discriminate]).
  pose proof (lookup_height k fields) as H. cbn [height] in H.
  repeat split; [lia| |cbn [height]; lia].
  intros items E c Hc. rewrite E in H. cbn [height] in *.
  assert (height c <= (fix all (l : list Js.value) : nat :=
            match l with
            | [] => O
            | a :: rest => Nat.max (height a) (all rest)
            end) items)%nat.
  { clear -Hc. induction items as [|a items IH]; [contradiction|].
    destruct Hc as [->|Hc]; [lia|]. specialize (IH Hc). lia. }
  lia.
Qed.

Lemma child_height node c :
  In c (childrenOf node) -> (height c < height node)%nat.
Proof.
  unfold childrenOf.
  destruct (field_height node "children") as (_ & Hc & _).
  destruct (field_height node "child") as (_ & Hc' & _).
  destruct (field_height node "left") as (_ & _ & Hl).
  destruct (field_height node "right") as (_ & _ & Hr).
  destruct (field node "children") eqn:E1; try (now apply (Hc items));
  (destruct (field node "child") eqn:E2; try (now apply (Hc' items));
   (destruct (Js.truthy (field node "left")) eqn:Tl,
             (Js.truthy (field node "right")) eqn:Tr; cbn;
    intros H; repeat (destruct H as [<-|H]); try contradiction; auto)).
Qed.


Lemma setChildren_ids k cs st : map id (setChildren k cs st) = map id st.
Proof.
  induction st as [|n rest IH]; cbn; [reflexivity|].
  destruct (Nat.eqb (id n) k); cbn; [reflexivity | now rewrite IH].
Qed.

Lemma setChildren_length k cs st :
  List.length (setChildren k cs st) = List.length st.
Proof.
  rewrite <- (length_map id (setChildren k cs st)), setChildren_ids.
  apply length_map.
Qed.

Lemma setChildren_nth cs st :
  forall a k j,
    map id st = seq a (List.length st) ->
    nth_error (setChildren (a + k) cs st) j
    = if Nat.eqb j k
      then option_map (fun r => withChildren r cs) (nth_error st j)
      else nth_error st j.
Proof.
  induction st as [|n rest IH]; intros a k j Hids.
  - cbn. destruct j; destruct (Nat.eqb _ k); reflexivity.
  - cbn in Hids. injection Hids as Hid Hrest.
    cbn [setChildren]. rewrite Hid.
    destruct k as [|k].
    + rewrite Nat.add_0_r, Nat.eqb_refl.
      destruct j as [|j]; reflexivity.
    + destruct (Nat.eqb_spec a (a + S k)); [lia|].
      destruct j as [|j]; [reflexivity|].
      cbn [nth_error]. replace (a + S k)%nat with (S a + k)%nat by lia.
      rewrite (IH (S a) k j Hrest). reflexivity.
Qed.


Lemma wellLinked_push st r0 :
  wellLinked st -> id r0 = List.length st -> children r0 = [] ->
  (forall p, parentId r0 = Some p -> (p < List.length st)%nat) ->
  wellLinked (st ++ [r0]).
Proof.
  intros (Hids & Hlink & Hbelow) Hid Hch Hpar. split; [|split].
  - rewrite map_app, length_app, Hids. cbn [map List.length].
    rewrite Hid, Nat.add_1_r, seq_S. reflexivity.
  - intros k n c Hn Hc.
    destruct (Nat.lt_ge_cases k (List.length st)) as [Hk|Hk].
    + rewrite nth_error_app1 in Hn by exact Hk.
      destruct (Hlink k n c Hn Hc) as (Hkc & m & Hm & Hp & Hl).
      split; [exact Hkc|]. exists m. split; [|auto].
      rewrite nth_error_app1; [exact Hm|].
      apply nth_error_Some. congruence.
    + rewrite nth_error_app2 in Hn by exact Hk.
      destruct (k - List.length st)%nat as [|d]; cbn in Hn.
      * inversion Hn; subst n. rewrite Hch in Hc. contradiction.
      * destruct d; discriminate Hn.
  - intros k n p Hn Hp.
    destruct (Nat.lt_ge_cases k (List.length st)) as [Hk|Hk].
    + rewrite nth_error_app1 in Hn by exact Hk. exact (Hbelow k n p Hn Hp).
    + rewrite nth_error_app2 in Hn by exact Hk.
      destruct (k - List.length st)%nat as [|d] eqn:E; cbn in Hn.
      * inversion Hn; subst n. specialize (Hpar p Hp). lia.
      * destruct d; discriminate Hn.
Qed.

Lemma wellLinked_setChildren st k r cs :
  wellLinked st -> nth_error st k = Some r ->
  (forall c, In c cs ->
     (k < c)%nat
     /\ exists m, nth_error st c = Some m /\ parentId m = Some k
                  /\ level m = S (level r)) ->
  wellLinked (setChildren k cs st).
Proof.
  intros (Hids & Hlink & Hbelow) Hr Hcs.
  assert (Hnth : forall j,
             nth_error (setChildren k cs st) j
             = if Nat.eqb j k
               then option_map (fun r => withChildren r cs) (nth_error st j)
               else nth_error st j)
    by (intros j; exact (setChildren_nth cs st 0 k j Hids)).
  assert (Hsame : forall j n,
             nth_error (setChildren k cs st) j = Some n ->
             exists n0, nth_error st j = Some n0 /\ parentId n = parentId n0
                        /\ level n = level n0
                        /\ (j <> k -> n = n0)
                        /\ (j = k -> children n = cs)).
  { intros j n Hn. rewrite Hnth in Hn.
    destruct (Nat.eqb_spec j k) as [->|Hne].
    - rewrite Hr in Hn. cbn in Hn. inversion Hn; subst n.
      exists r. repeat split; [exact Hr|contradiction].
    - exists n. repeat split; auto. contradiction. }
  assert (Hback : forall j n0,
             nth_error st j = Some n0 ->
             exists n, nth_error (setChildren k cs st) j = Some n
                       /\ parentId n = parentId n0 /\ level n = level n0).
  { intros j n0 Hn0. rewrite Hnth, Hn0.
    destruct (Nat.eqb j k); cbn; eauto. }
  split; [|split].
  - now rewrite setChildren_ids, setChildren_length.
  - intros j n c Hn Hc.
    destruct (Hsame j n Hn) as (n0 & Hn0 & Hp & Hl & Hne & Heq).
    destruct (Nat.eq_dec j k) as [->|Hjk].
    + rewrite (Heq eq_refl) in Hc.
      destruct (Hcs c Hc) as (Hkc & m & Hm & Hpm & Hlm).
      split; [exact Hkc|].
      destruct (Hback c m Hm) as (m' & Hm' & Hpm' & Hlm').
      exists m'. split; [exact Hm'|]. split; [congruence|].
      rewrite Hn0 in Hr. inversion Hr; subst n0. congruence.
    + rewrite (Hne Hjk) in Hc.
      destruct (Hlink j n0 c Hn0 Hc) as (Hjc & m & Hm & Hpm & Hlm).
      split; [exact Hjc|].
      destruct (Hback c m Hm) as (m' & Hm' & Hpm' & Hlm').
      exists m'. split; [exact Hm'|]. split; congruence.
  - intros j n p Hn Hp.
    destruct (Hsame j n Hn) as (n0 & Hn0 & Hp0 & _).
    apply (Hbelow j n0 p Hn0). congruence.
Qed.


Lemma parse_spec (fuel : nat) :
  forall node parentIdx lvl st n' st',
    wellLinked st ->
    (forall p, parentIdx = Some p -> (p < List.length st)%nat) ->
    parseObjectTree fuel node parentIdx lvl (List.length st) st = Some (n', st') ->
    wellLinked st' /\ n' = List.length st' /\ (List.length st < n')%nat
    /\ (forall k, (k < List.length st)%nat -> nth_error st' k = nth_error st k)
    /\ exists r, nth_error st' (List.length st) = Some r
                 /\ parentId r = parentIdx /\ level r = lvl.
Proof.
  induction fuel as [|fuel IH];
    intros node parentIdx lvl st n' st' Hwl Hpar Hparse; [discriminate|].
  cbn [parseObjectTree] in Hparse.
  match type of Hparse with
  | context [?f (childrenOf node) (S (List.length st)) [] ?c] =>
      set (each := f) in Hparse; set (pushed := c) in Hparse
  end.
  assert (Hloop : forall cs currentId childIds cur cid' cids' fin,
             wellLinked cur -> currentId = List.length cur ->
             (List.length st < currentId)%nat ->
             (exists r, nth_error cur (List.length st) = Some r
                        /\ children r = [] /\ parentId r = parentIdx
                        /\ level r = lvl) ->
             (forall k, (k < List.length st)%nat ->
                        nth_error cur k = nth_error st k) ->
             (forall c, In c childIds ->
                (List.length st < c)%nat
                /\ exists m, nth_error cur c = Some m
                             /\ parentId m = Some (List.length st)
                             /\ level m = S lvl) ->
             each cs currentId childIds cur = Some (cid', cids', fin) ->
             wellLinked fin /\ cid' = List.length fin
             /\ (List.length st < cid')%nat
             /\ (exists r, nth_error fin (List.length st) = Some r
                           /\ children r = [] /\ parentId r = parentIdx
                           /\ level r = lvl)
             /\ (forall k, (k < List.length st)%nat ->
                           nth_error fin k = nth_error st k)
             /\ (forall c, In c cids' ->
                   (List.length st < c)%nat
                   /\ exists m, nth_error fin c = Some m
                                /\ parentId m = Some (List.length st)
                                /\ level m = S lvl)).
  { induction cs as [|child rest IHcs];
      intros currentId childIds cur cid' cids' fin Hcur Hcid Hlt Hroot Hpre Hids Heach.
    - cbn in Heach. inversion Heach; subst. auto 10.
    - cbn [each] in Heach. fold each in Heach.
      destruct (isPresent child).
      + destruct (parseObjectTree fuel child (Some (List.length st)) (S lvl)
                    currentId cur) as [[nextId nxt]|] eqn:Hchild;
          [|discriminate].
        subst currentId.
        destruct (IH child (Some (List.length st)) (S lvl) cur nextId nxt Hcur)
          as (Hnxt & Hnid & Hgrow & Hkeep & (m & Hm & Hmp & Hml));
          [intros p E; inversion E; lia | exact Hchild |].
        apply (IHcs nextId (childIds ++ [List.length cur]) nxt cid' cids' fin);
          try assumption.
        * lia.
        * destruct Hroot as (r & Hr & Hrc & Hrp & Hrl).
          exists r. split; [|auto]. rewrite Hkeep by lia. exact Hr.
        * intros k Hk. rewrite Hkeep by lia. apply Hpre, Hk.
        * intros c Hc. apply in_app_or in Hc. destruct Hc as [Hc|[<-|[]]].
          -- destruct (Hids c Hc) as (Hc1 & m' & Hm' & Hp' & Hl').
             split; [exact Hc1|]. exists m'. split; [|auto].
             rewrite Hkeep; [exact Hm'|]. apply nth_error_Some. congruence.
          -- split; [lia|]. exists m. auto.
      + apply (IHcs currentId childIds cur cid' cids' fin); assumption. }
  destruct (each (childrenOf node) (S (List.length st)) [] pushed)
    as [[[cid cids] fin]|] eqn:Heach; [|discriminate].
  inversion Hparse; subst n' st'. clear Hparse.
  assert (Hpushed : wellLinked pushed).
  { apply wellLinked_push; [exact Hwl | reflexivity | reflexivity | exact Hpar]. }
  destruct (Hloop (childrenOf node) (S (List.length st)) [] pushed cid cids fin
              Hpushed)
    as (Hfin & Hcid & Hlt & (r & Hr & Hrc & Hrp & Hrl) & Hpre & Hids);
    [ unfold pushed; rewrite length_app; cbn; lia
    | lia
    | exists (nth (List.length st) pushed
                (mkNode 0 Js.Undefined 0 0 0 None []));
      unfold pushed; rewrite nth_error_app2 by lia;
      rewrite app_nth2 by lia; rewrite Nat.sub_diag; cbn; auto
    | intros k Hk; unfold pushed; now rewrite nth_error_app1 by exact Hk
    | intros c []
    | exact Heach
    | ].
  assert (Hnth : forall j,
             nth_error (setChildren (List.length st) cids fin) j
             = if Nat.eqb j (List.length st)
               then option_map (fun r => withChildren r cids) (nth_error fin j)
               else nth_error fin j)
    by (intros j; exact (setChildren_nth cids fin 0 _ j (proj1 Hfin))).
  split; [|split; [|split; [|split]]].
  - apply (wellLinked_setChildren fin (List.length st) r cids Hfin Hr).
    intros c Hc. destruct (Hids c Hc) as (Hc1 & m & Hm & Hp & Hl).
    split; [exact Hc1|]. exists m. split; [exact Hm|]. split; [exact Hp|].
    congruence.
  - now rewrite setChildren_length.
  - exact Hlt.
  - intros k Hk. rewrite Hnth.
    destruct (Nat.eqb_spec k (List.length st)); [lia|]. apply Hpre, Hk.
  - exists (withChildren r cids). rewrite Hnth, Nat.eqb_refl, Hr.
    cbn. auto.
Qed.


Lemma parse_total (fuel : nat) :
  forall node parentIdx lvl nodeId st,
    (height node < fuel)%nat ->
    exists r, parseObjectTree fuel node parentIdx lvl nodeId st = Some r.
Proof.
  induction fuel as [|fuel IH]; intros node parentIdx lvl nodeId st Hh; [lia|].
  cbn [parseObjectTree].
  match goal with
  | |- context [?f (childrenOf node) (S nodeId) [] ?c] =>
      set (each := f); generalize c; generalize (@nil nat);
      generalize (S nodeId)
  end.
  pose proof (child_height node) as Hch.
  induction (childrenOf node) as [|child rest IHcs]; intros currentId childIds cur.
  - cbn. eauto.
  - cbn [each]. fold each.
    assert (Hrest : forall c, In c rest -> (height c < height node)%nat)
      by (intros c Hc; apply Hch; now right).
    destruct (isPresent child); [|exact (IHcs Hrest currentId childIds cur)].
    destruct (IH child (Some nodeId) (S lvl) currentId cur) as [[nextId nxt] ->].
    + specialize (Hch child (or_introl eq_refl)). lia.
    + exact (IHcs Hrest nextId (childIds ++ [currentId]) nxt).
Qed.

Lemma find_by_place (st : store) :
  forall a k,
    map id st = seq a (List.length st) ->
    find (fun n => Nat.eqb (id n) (a + k)) st = nth_error st k.
Proof.
  induction st as [|n rest IH]; intros a k Hids.
  - destruct k; reflexivity.
  - cbn in Hids. injection Hids as Hid Hrest. cbn [find]. rewrite Hid.
    destruct k as [|k].
    + now rewrite Nat.add_0_r, Nat.eqb_refl.
    + destruct (Nat.eqb_spec a (a + S k)); [lia|].
      cbn [nth_error]. replace (a + S k)%nat with (S a + k)%nat by lia.
      exact (IH (S a) k Hrest).
Qed.

Lemma wellLinked_parent_below (st : store) (c p : nat) :
  wellLinked st -> TreePath.parentOf st c = Some p -> (p < c)%nat.
Proof.
  intros (Hids & _ & Hbelow). unfold TreePath.parentOf, TreeShape.findNode.
  pose proof (find_by_place st 0 c Hids) as F. cbn [Nat.add] in F. rewrite F.
  destruct (nth_error st c) as [n|] eqn:E; [|discriminate].
  exact (Hbelow c n p E).
Qed.

End ObjectTreeFacts.

(** X23. Reading a tree given as nested objects.  [renderStructure] first
    turns the state of the step into the data it draws, and the tree
    branch reads the data as nested objects only when the data is an
    object with a [left], [right], [children], [val] or [value].
    - Whenever that is so, [parseObjectTree] ends, on data nested however
      deeply, with a tree that hangs together: node ids are the places in
      [treeNodes] (0, 1, 2, ... in the order the nodes are met), the first
      node is the root (no parent, level 0), every id a node lists among
      its children is found by [treeNodes.find] as a later node, one level
      below, whose parent is the lister, and a parent always comes before
      its child; so the loop of [getPathToNode] ends on it for every node
      id.
    - A tree wrapped as [{ data: tree }] is read so.
    - A state that is itself an object without [arr], [data], [values] and
      [nodes] is not: it is replaced by the array of its values. *)
Theorem object_tree_is_well_linked
  (JSON_parse : string -> option Js.value) (trim : string -> string)
  (Object_values : list (string * Js.value) -> list Js.value) :
  (forall state fuel,
      ObjectTree.isObjectTree
        (ObjectTree.normalise JSON_parse trim Object_values state) = true ->
      (ObjectTree.height
         (ObjectTree.normalise JSON_parse trim Object_values state)
       < fuel)%nat ->
      exists st root,
        ObjectTree.parse JSON_parse trim Object_values fuel state = Some st
        /\ ObjectTree.wellLinked st
        /\ nth_error st 0 = Some root
        /\ HologramRenderer.parentId root = None
        /\ HologramRenderer.level root = 0%nat
        /\ (forall n c,
              In n st -> In c (HologramRenderer.children n) ->
              exists m, TreeShape.findNode st c = Some m
                        /\ HologramRenderer.id m = c
                        /\ HologramRenderer.parentId m
                           = Some (HologramRenderer.id n)
                        /\ HologramRenderer.level m
                           = S (HologramRenderer.level n))
        /\ (forall nodeId,
              exists ancestors,
                TreePath.getPathToNode (HologramRenderer.calculatePositions st)
                  (S nodeId) nodeId
                = Some (ancestors ++ [nodeId])%list
                /\ StronglySorted lt (ancestors ++ [nodeId])%list))
  /\ (forall tree,
        ObjectTree.isObjectTree tree = true ->
        ObjectTree.normalise JSON_parse trim Object_values
          (Js.Obj [("data", tree)]) = tree)
  /\ (forall fields fuel,
        Js.truthy (Js.lookup "arr" fields) = false ->
        Js.truthy (Js.lookup "data" fields) = false ->
        Js.truthy (Js.lookup "values" fields) = false ->
        Js.truthy (Js.lookup "nodes" fields) = false ->
        ObjectTree.normalise JSON_parse trim Object_values (Js.Obj fields)
        = Js.Arr (Object_values fields)
        /\ ObjectTree.parse JSON_parse trim Object_values fuel (Js.Obj fields)
           = None).
Proof.
  split; [|split].
  2:{ intros tree Ht. destruct tree; try discriminate Ht. reflexivity. }
  2:{ intros fields fuel Ha Hd Hv Hn.
      assert (E : ObjectTree.normalise JSON_parse trim Object_values
                    (Js.Obj fields) = Js.Arr (Object_values fields)).
      { cbn. now rewrite Ha, Hd, Hv, Hn. }
      split; [exact E|]. unfold ObjectTree.parse. now rewrite E. }
  intros state fuel Htree Hfuel. unfold ObjectTree.parse. rewrite Htree.
  generalize dependent (ObjectTree.normalise JSON_parse trim Object_values state).
  intros data _ Hfuel.
  destruct (parse_total fuel data None 0 0 [] Hfuel) as [[n st] Hp].
  rewrite Hp. cbn [option_map snd].
  assert (H0 : ObjectTree.wellLinked []).
  { split; [reflexivity|]. split; intros [|k] ? ? H; discriminate H. }
  destruct (parse_spec fuel data None 0 [] n st H0) as
    (Hwl & _ & _ & _ & root & Hroot & Hrp & Hrl);
    [discriminate | exact Hp |].
  exists st, root. split; [reflexivity|]. split; [exact Hwl|].
  split; [exact Hroot|]. split; [exact Hrp|]. split; [exact Hrl|].
  split.
  2:{ intros nodeId. unfold TreePath.getPathToNode.
      apply walkUp_ends; [|lia].
      intros c p Hpc.
      rewrite (parentOf_shape _ st) in Hpc by apply calculatePositions_shape.
      exact (wellLinked_parent_below st c p Hwl Hpc). }
  intros k c Hin Hc. apply In_nth_error in Hin. destruct Hin as [j Hj].
  destruct Hwl as (Hids & Hlink & Hbelow).
  destruct (Hlink j k c Hj Hc) as (Hjc & m & Hm & Hmp & Hml).
  assert (Hidat : forall i x, nth_error st i = Some x -> HologramRenderer.id x = i).
  { intros i x Hx.
    pose proof (map_nth_error HologramRenderer.id i st Hx) as E.
    rewrite Hids in E. rewrite nth_error_seq in E.
    destruct (Nat.ltb i (List.length st)); inversion E. reflexivity. }
  exists m. unfold TreeShape.findNode.
  pose proof (find_by_place st 0 c Hids) as F. cbn [Nat.add] in F. rewrite F.
  split; [exact Hm|].
  split; [exact (Hidat c m Hm)|]. split; [|exact Hml].
  now rewrite (Hidat j k Hj).
Qed.

(** The tree of the samples, wrapped as [{ data: tree }], is read as
    nested objects; given as the state itself it is not. *)
Lemma object_tree_is_well_linked_witness :
  (exists st root,
      ObjectTree.parse Samples.parseLiteral (fun s => s) (map snd) 5
        Samples.wrappedTree = Some st
      /\ List.length st = 5%nat
      /\ ObjectTree.wellLinked st
      /\ nth_error st 0 = Some root
      /\ HologramRenderer.parentId root = None)
  /\ ObjectTree.parse Samples.parseLiteral (fun s => s) (map snd) 5
       Samples.nestedTree = None.
Proof.
  destruct (object_tree_is_well_linked Samples.parseLiteral (fun s => s)
              (map snd)) as (Hread & _ & Hnot).
  split.
  - destruct (Hread Samples.wrappedTree 5%nat)
      as (st & root & A & B & C & D & _).
    + reflexivity.
    + vm_compute. lia.
    + exists st, root. split; [exact A|].
      split; [vm_compute in A; injection A as <-; reflexivity|]. auto.
  - apply (Hnot _ 5%nat); reflexivity.
Defined.

(** ** Rows of the tree *)

Section TreeRowFacts.
Import HologramRenderer.
Local Open Scope list_scope.

Lemma ys_setX k v st : map y (setX k v st) = map y st.
Proof.
  revert k. induction st as [|n rest IH]; intros k; [destruct k; reflexivity|].
  destruct k as [|k]; cbn; [reflexivity|]. now rewrite IH.
Qed.

Lemma ys_fold {A : Type} (f : store -> A -> store) (l : list A) :
  (forall st a, map y (f st a) = map y st) ->
  forall st, map y (fold_left f l st) = map y st.
Proof.
  intros Hf. induction l as [|a l IH]; intros st; cbn; [reflexivity|].
  now rewrite IH, Hf.
Qed.

Lemma ys_placeBottom base nodes st :
  map y (placeBottom base nodes st) = map y st.
Proof.
  unfold placeBottom.
  generalize ((JsMath.ofNat (List.length nodes) - 1) * base)%float. intros w.
  generalize 0%nat. revert st.
  induction nodes as [|k nodes IH]; intros st i; cbn; [reflexivity|].
  rewrite IH. cbn. apply ys_setX.
Qed.

Lemma ys_placeInner base maxCh maxLvl lvl st k :
  map y (placeInner base maxCh maxLvl lvl st k) = map y st.
Proof.
  unfold placeInner. destruct (nth_error st k) as [node|]; [|reflexivity].
  destruct (filter _ st); apply ys_setX.
Qed.

Lemma ys_placeLevel base maxCh maxLvl st lvl :
  map y (placeLevel base maxCh maxLvl st lvl) = map y st.
Proof.
  unfold placeLevel. destruct (Nat.eqb lvl maxLvl).
  - apply ys_placeBottom.
  - apply ys_fold. intros. apply ys_placeInner.
Qed.

Lemma ys_pushApart gapMin st pair :
  map y (pushApart gapMin st pair) = map y st.
Proof.
  unfold pushApart. destruct pair as [a b].
  destruct (_ <? _)%float; [|reflexivity]. now rewrite !ys_setX.
Qed.

Lemma ys_resolveLevel gapMin st lvl :
  map y (resolveLevel gapMin st lvl) = map y st.
Proof.
  unfold resolveLevel. apply ys_fold. intros. apply ys_pushApart.
Qed.

(** The layout moves every node down by one and the same amount. *)
Lemma ys_calculatePositions (treeNodes : store) :
  exists offsetY,
    map y (calculatePositions treeNodes)
    = map (fun v => (v + offsetY)%float) (map y treeNodes).
Proof.
  unfold calculatePositions. destruct treeNodes as [|n rest].
  - exists 0%float. reflexivity.
  - set (st := resolveOverlaps (placeAll (n :: rest))).
    assert (Hst : map y st = map y (n :: rest)).
    { unfold st, resolveOverlaps.
      rewrite ys_fold by (intros; apply ys_resolveLevel).
      unfold placeAll. apply ys_fold. intros. apply ys_placeLevel. }
    unfold centerTree. eexists.
    rewrite <- Hst, !map_map. cbn [y withY withX].
    reflexivity.
Qed.

End TreeRowFacts.

(** X24. The tree layout keeps the rows: when every node comes in at the
    height of its level ([y = level * 90], as the readings of a tree set
    it), any two nodes of the same level are handed to the renderer
    with the same [top], whatever the layout did to their [x]. *)
Theorem same_level_same_row
  (treeNodes : HologramRenderer.store) (i j : nat)
  (a b : HologramRenderer.treeNode) :
  (forall n, In n treeNodes ->
     HologramRenderer.y n
     = (JsMath.ofNat (HologramRenderer.level n) * HologramRenderer.levelHeight)%float) ->
  nth_error (HologramRenderer.calculatePositions treeNodes) i = Some a ->
  nth_error (HologramRenderer.calculatePositions treeNodes) j = Some b ->
  HologramRenderer.level a = HologramRenderer.level b ->
  HologramRenderer.top (HologramRenderer.renderTreeNode a)
  = HologramRenderer.top (HologramRenderer.renderTreeNode b).
Proof.
  intros Hy Ha Hb Hl.
  destruct (ys_calculatePositions treeNodes) as [off Hys].
  pose proof (calculatePositions_shape treeNodes) as Hsh.
  assert (Hat : forall k n,
             nth_error (HologramRenderer.calculatePositions treeNodes) k = Some n ->
             HologramRenderer.y n
             = (JsMath.ofNat (HologramRenderer.level n)
                * HologramRenderer.levelHeight + off)%float).
  { intros k n Hn.
    pose proof (map_nth_error HologramRenderer.y k _ Hn) as E1.
    rewrite Hys, map_map in E1.
    pose proof (map_nth_error TreeShape.shape k _ Hn) as E2. rewrite Hsh in E2.
    rewrite nth_error_map in E1, E2.
    destruct (nth_error treeNodes k) as [n0|] eqn:E0; [|discriminate].
    cbn in E1, E2. inversion E1. inversion E2.
    rewrite (Hy n0) by (eapply nth_error_In; exact E0).
    unfold TreeShape.shape in *. congruence. }
  cbn [HologramRenderer.top HologramRenderer.renderTreeNode].
  rewrite (Hat i a Ha), (Hat j b Hb), Hl. reflexivity.
Qed.

Lemma same_level_same_row_witness :
  exists a b,
    nth_error (HologramRenderer.calculatePositions
                 (HologramRenderer.parseLevelOrder Samples.unevenTree)) 3
    = Some a
    /\ nth_error (HologramRenderer.calculatePositions
                    (HologramRenderer.parseLevelOrder Samples.unevenTree)) 5
       = Some b
    /\ HologramRenderer.top (HologramRenderer.renderTreeNode a)
       = HologramRenderer.top (HologramRenderer.renderTreeNode b).
Proof.
  eexists. eexists.
  split; [vm_compute; reflexivity|]. split; [vm_compute; reflexivity|].
  apply (same_level_same_row
           (HologramRenderer.parseLevelOrder Samples.unevenTree) 3 5).
  - intros n Hin. vm_compute in Hin.
    repeat (destruct Hin as [<-|Hin]; [reflexivity|]). contradiction.
  - vm_compute. reflexivity.
  - vm_compute. reflexivity.
  - reflexivity.
Defined.
